(** * Riddiwave EP multi-sampler: the WAV codec core

    A shallow embedding of [src/audio/exportWav.ts] (kit encoder, chunk
    builders, channel remixer, PCM16 quantizer, region mapper) and of
    [src/audio/wavInfo.ts] (RIFF/WAVE header parser), with the properties
    of the specification stated and settled against it.

    Conventions of the embedding:
    - a JavaScript [number] that only ever holds an integer (note numbers,
      frame counts, offsets, sizes) is a [Z];
    - a JavaScript [number] that holds a sample value is an IEEE-754
      binary64 datum, [spec_float] with [prec = 53] and [emax = 1024];
    - a [Uint8Array] is a [list byte]; [DataView.setUint32(_, _, true)]
      writes the four little-endian bytes of its argument modulo 2^32;
    - a JavaScript exception or a rejected promise is an explicit error
      result, threaded through the [result] monad. *)

From Stdlib Require Import ZArith List Lia Bool Sorted Permutation.
From Stdlib Require Strings.String Strings.Ascii DecimalString.
Import String.StringSyntax.
Import (notations) String.
Import (notations) Ascii.
From Stdlib Require Import Floats.SpecFloat.
From coqutil Require Import Byte Word.LittleEndianList.
From Equations Require Import Equations.
Import ListNotations.

Local Open Scope Z_scope.

(** ** JavaScript loops and arrays *)

(** [for (let i = lo; i < lo + n; i++) body] over a threaded state. *)
Definition for_range {S : Type} (lo n : nat) (body : nat -> S -> S) (s : S) : S :=
  fold_left (fun st i => body i st) (seq lo n) s.


(** Exceptions the code can raise: the [RangeError] of [DataView] and
    typed-array accesses, the [IndexSizeError] of [getChannelData], the
    [NotSupportedError] of [new OfflineAudioContext] and [createBuffer], a
    rejected decode or render promise, and the four [Error]s thrown by
    [readWavInfo]. *)
Inductive exn : Type :=
| RangeError
| IndexSizeError
| NotSupportedError
| DecodeError
| FileTooSmall
| InvalidRiffWaveHeader
| MissingFmtOrData
| InvalidByteRate.

Inductive result (A : Type) : Type :=
| Ok (a : A)
| Throw (e : exn).
Arguments Ok {A} a.
Arguments Throw {A} e.

Definition bind {A B : Type} (r : result A) (k : A -> result B) : result B :=
  match r with
  | Ok a => k a
  | Throw e => Throw e
  end.

Notation "x <- r ;; k" := (bind r (fun x => k))
  (at level 61, r at next level, right associativity).

(** ** Numbers: IEEE-754 binary64 *)

Module Number.

Definition number : Type := spec_float.

Definition prec : Z := 53.
Definition emax : Z := 1024.

(** The number denoted by an integer literal or held by an integer
    variable (exact below 2^53). *)
Definition of_Z (z : Z) : number := binary_normalize prec emax z 0 false.

Definition mul : number -> number -> number := SFmul prec emax.
Definition div : number -> number -> number := SFdiv prec emax.
Definition add : number -> number -> number := SFadd prec emax.
Definition ltb : number -> number -> bool := SFltb.
Definition leb : number -> number -> bool := SFleb.
Definition eqb : number -> number -> bool := SFeqb.

(** [Number.isFinite]. *)
Definition isFinite (x : number) : bool :=
  match x with
  | S754_zero _ | S754_finite _ _ _ => true
  | S754_infinity _ | S754_nan => false
  end.

(** The integer part of a finite number, rounding toward zero; [0] for
    the values that have none. *)
Definition truncate (x : number) : Z :=
  match x with
  | S754_finite s m e =>
      let a := if 0 <=? e then Zpos m * 2 ^ e else Zpos m / 2 ^ (- e) in
      if s then - a else a
  | _ => 0
  end.

(** ECMAScript [ToInt32], the conversion behind [x | 0]: NaN, the zeros
    and the infinities give 0; a finite number is truncated, reduced
    modulo 2^32 and read as a signed 32-bit integer. *)
Definition ToInt32 (x : number) : Z :=
  let k := truncate x mod 2 ^ 32 in
  if 2 ^ 31 <=? k then k - 2 ^ 32 else k.

(** ECMAScript [ToUint32] and [ToUint16], applied by [DataView.setUint32]
    and [DataView.setUint16] to a number argument. *)
Definition ToUint32 (x : number) : Z := truncate x mod 2 ^ 32.
Definition ToUint16 (x : number) : Z := truncate x mod 2 ^ 16.

(** [Math.floor] followed by the conversion to an integer: the largest
    integer not above a finite [x]. *)
Definition floorZ (x : number) : Z :=
  match x with
  | S754_finite s m e =>
      if 0 <=? e then cond_Zopp s (Zpos m * 2 ^ e)
      else cond_Zopp s (Zpos m) / 2 ^ (- e)
  | _ => 0
  end.

End Number.

(** ** Typed arrays and [DataView] *)

Definition zeros (n : nat) : list byte := repeat Byte.x00 n.

(** [arr.length] of a byte array. *)
Definition len (arr : list byte) : Z := Z.of_nat (length arr).

(** [arr[i] = v] on a typed array: a write outside the array is ignored. *)
Definition store {A : Type} (arr : list A) (i : Z) (v : A) : list A :=
  if (0 <=? i) && (i <? Z.of_nat (length arr))
  then firstn (Z.to_nat i) arr ++ v :: skipn (S (Z.to_nat i)) arr
  else arr.

(** [target.set(source, offset)]: [RangeError] when the source does not
    fit. *)
Definition set_at {A : Type} (target source : list A) (offset : Z)
    : result (list A) :=
  if (0 <=? offset) && (offset + Z.of_nat (length source) <=? Z.of_nat (length target))
  then Ok (firstn (Z.to_nat offset) target ++ source
           ++ skipn (Z.to_nat offset + length source) target)
  else Throw RangeError.

(** The [n] bytes a [DataView] getter reads at [offset]: [RangeError] when
    they are not all inside the view. *)
Definition view_bytes (view : list byte) (offset : Z) (n : nat)
    : result (list byte) :=
  if (0 <=? offset) && (offset + Z.of_nat n <=? Z.of_nat (length view))
  then Ok (firstn n (skipn (Z.to_nat offset) view))
  else Throw RangeError.

Definition getUint8 (view : list byte) (offset : Z) : result Z :=
  bs <- view_bytes view offset 1 ;; Ok (le_combine bs).

(** [getUint16(offset, true)] and [getUint32(offset, true)]. *)
Definition getUint16 (view : list byte) (offset : Z) : result Z :=
  bs <- view_bytes view offset 2 ;; Ok (le_combine bs).

Definition getUint32 (view : list byte) (offset : Z) : result Z :=
  bs <- view_bytes view offset 4 ;; Ok (le_combine bs).

(** [setUint16(offset, v, true)] and [setUint32(offset, v, true)] on an
    integer [v]: the low 16 or 32 bits, least significant byte first. *)
Definition setUint16 (view : list byte) (offset : Z) (v : Z)
    : result (list byte) :=
  set_at view (le_split 2 v) offset.

Definition setUint32 (view : list byte) (offset : Z) (v : Z)
    : result (list byte) :=
  set_at view (le_split 4 v) offset.

(** The char codes of an ASCII string literal. *)
Definition char_codes (s : String.string) : list byte := String.list_byte_of_string s.
Arguments char_codes s%_string.

(** [writeAsciiTo(arr, offset, s)]:
    [for (i = 0; i < s.length; i++) arr[offset + i] = s.charCodeAt(i)]. *)
Definition writeAsciiTo (arr : list byte) (offset : Z) (s : String.string)
    : list byte :=
  for_range 0 (length (char_codes s))
    (fun i a => store a (offset + Z.of_nat i) (nth i (char_codes s) Byte.x00))
    arr.
Arguments writeAsciiTo arr offset%_Z s%_string.

(** ** RegionMapper: [buildAcDryRegions] *)

Module RegionMapper.

Record AcDryRegion : Type := mkRegion {
  sample_start : Z;
  sample_end : Z;
  sample_lokey : Z;
  sample_hikey : Z;
  sound_rootnote : Z
}.

(** [Math.floor((sortedNotes[i - 1] + sortedNotes[i] + 1) / 2)]; on integers
    [Z.div] is the floor of the quotient. *)
Definition midpoint_at (sortedNotes : list Z) (i : nat) : Z :=
  (nth (i - 1) sortedNotes 0 + nth i sortedNotes 0 + 1) / 2.

(** [boundaries = [0]; for (i = 1; i < n; i++) boundaries.push(..);
    boundaries.push(127)]. *)
Definition boundaries (sortedNotes : list Z) : list Z :=
  for_range 1 (length sortedNotes - 1)
    (fun i bs => bs ++ [midpoint_at sortedNotes i]) [0] ++ [127].

(** One iteration of the region loop; the state is
    [(currentFrame, regions)].  [frameLengthsByIndex[i] ?? 0],
    [boundaries[i] ?? 0] and [boundaries[i + 1] ?? 127] are the reads with
    their defaults. *)
Definition region_step (sortedNotes frameLengthsByIndex bnds : list Z)
    (i : nat) (st : Z * list AcDryRegion) : Z * list AcDryRegion :=
  let '(currentFrame, regions) := st in
  let frames := nth i frameLengthsByIndex 0 in
  if frames <=? 0 then st
  else
    let start := currentFrame in
    let end_ := currentFrame + frames in
    let lokey := nth i bnds 0 in
    let hikey := nth (i + 1) bnds 127 in
    (end_, regions ++ [mkRegion start end_ lokey hikey (nth i sortedNotes 0)]).

Definition buildAcDryRegions (sortedNotes frameLengthsByIndex : list Z)
    : list AcDryRegion :=
  if (length sortedNotes =? 0)%nat then []
  else
    let bnds := boundaries sortedNotes in
    snd (for_range 0 (length sortedNotes)
           (region_step sortedNotes frameLengthsByIndex bnds) (0, [])).

Definition no_region : AcDryRegion := mkRegion 0 0 0 0 0.

(** Keys covered by a region: the closed range [[lokey, hikey]]. *)
Definition in_keys (k : Z) (r : AcDryRegion) : Prop :=
  sample_lokey r <= k <= sample_hikey r.

(** Frame offset of region [k] when nothing is skipped. *)
Fixpoint frame_offset (frames : list Z) (k : nat) : Z :=
  match k with
  | O => 0
  | S k' => frame_offset frames k' + nth k' frames 0
  end.

Definition region_at (notes frames bnds : list Z) (i : nat) : AcDryRegion :=
  mkRegion (frame_offset frames i) (frame_offset frames (S i))
    (nth i bnds 0) (nth (i + 1) bnds 127) (nth i notes 0).

End RegionMapper.

Import RegionMapper.


(** ** WavHeaderParser: [readWavInfo] *)

Module WavInfo.

Record WavInfo : Type := mkWavInfo {
  channels : Z;
  sampleRate : Z;
  bitsPerSample : Z;
  dataBytes : Z;
  durationSec : Number.number
}.

(** [String.fromCharCode] of four [getUint8] reads: the string as its
    four char codes. *)
Definition readAscii4 (view : list byte) (offset : Z) : result (list Z) :=
  c0 <- getUint8 view offset ;;
  c1 <- getUint8 view (offset + 1) ;;
  c2 <- getUint8 view (offset + 2) ;;
  c3 <- getUint8 view (offset + 3) ;;
  Ok [c0; c1; c2; c3].

(** The char codes of a string literal, as numbers. *)
Definition ascii (lit : String.string) : list Z :=
  map byte.unsigned (char_codes lit).

(** [s === 'lit']: equality of char-code sequences. *)
Definition str_eqb (s : list Z) (lit : String.string) : bool :=
  if list_eq_dec Z.eq_dec s (ascii lit) then true else false.
Arguments ascii lit%_string.
Arguments str_eqb s lit%_string.

(** The variables of the scanning loop. *)
Record scan_state : Type := mkScan {
  offset : Z;
  st_channels : Z;
  st_sampleRate : Z;
  st_bitsPerSample : Z;
  st_dataBytes : Z
}.

(** The [fmt ] branch: fields are taken only from a chunk of 16 bytes or
    more. *)
Definition read_fmt (view : list byte) (chunkSize chunkDataOffset : Z)
    (st : scan_state) : result scan_state :=
  if 16 <=? chunkSize then
    ch <- getUint16 view (chunkDataOffset + 2) ;;
    sr <- getUint32 view (chunkDataOffset + 4) ;;
    bits <- getUint16 view (chunkDataOffset + 14) ;;
    Ok (mkScan (offset st) ch sr bits (st_dataBytes st))
  else Ok st.

(** One turn of [while (offset + 8 <= view.byteLength)]: [Ok None] when
    the loop ends, by its condition or by the [break] on a chunk that runs
    past the buffer; [Ok (Some st')] when it goes round again. *)
Definition scan_step (view : list byte) (st : scan_state)
    : result (option scan_state) :=
  let byteLength := Z.of_nat (length view) in
  if offset st + 8 <=? byteLength then
    chunkId <- readAscii4 view (offset st) ;;
    chunkSize <- getUint32 view (offset st + 4) ;;
    let chunkDataOffset := offset st + 8 in
    if byteLength <? chunkDataOffset + chunkSize then Ok None
    else
      st1 <- (if str_eqb chunkId "fmt "%string then
                read_fmt view chunkSize chunkDataOffset st
              else if str_eqb chunkId "data"%string then
                Ok (mkScan (offset st) (st_channels st) (st_sampleRate st)
                      (st_bitsPerSample st) chunkSize)
              else Ok st) ;;
      Ok (Some (mkScan (chunkDataOffset + chunkSize + chunkSize mod 2)
                  (st_channels st1) (st_sampleRate st1)
                  (st_bitsPerSample st1) (st_dataBytes st1)))
  else Ok None.

Definition inspect {A : Type} (a : A) : {b : A | a = b} :=
  exist _ a eq_refl.

(** The loop. Every turn moves [offset] forward by at least 8 bytes, so
    the distance to the end of the buffer decreases. *)
Equations? scan (view : list byte) (st : scan_state) : result scan_state
  by wf (Z.to_nat (Z.of_nat (length view) - offset st)) lt :=
  scan view st with inspect (scan_step view st) := {
    | exist _ (Ok (Some st')) _ => scan view st';
    | exist _ (Ok None) _ => Ok st;
    | exist _ (Throw e) _ => Throw e }.
Proof.
  unfold scan_step in e.
  destruct (offset st + 8 <=? Z.of_nat (length view)) eqn:Hle;
    [|discriminate].
  apply Z.leb_le in Hle.
  destruct (readAscii4 view (offset st)) as [chunkId|]; [|discriminate].
  unfold getUint32 in e.
  destruct (view_bytes view (offset st + 4) 4) as [bs|]; [|discriminate].
  cbn [bind] in e.
  pose proof (le_combine_bound bs) as Hsz.
  destruct (Z.of_nat (length view) <? offset st + 8 + le_combine bs);
    [discriminate|].
  pose proof (Z.mod_pos_bound (le_combine bs) 2 ltac:(lia)) as Hm.
  match type of e with
  | bind ?r _ = _ => destruct r as [st1|]; [|discriminate]
  end.
  cbn [bind] in e. injection e as <-. cbn [offset]. lia.
Qed.

Definition init_state : scan_state := mkScan 12 0 0 0 0.

(** [sampleRate * channels * (bitsPerSample / 8)], in binary64. *)
Definition byte_rate (sampleRate channels bitsPerSample : Z) : Number.number :=
  let bytesPerSample :=
    Number.div (Number.of_Z bitsPerSample) (Number.of_Z 8) in
  Number.mul (Number.mul (Number.of_Z sampleRate) (Number.of_Z channels))
    bytesPerSample.

(** [!Number.isFinite(byteRate) || byteRate <= 0]. *)
Definition byte_rate_invalid (byteRate : Number.number) : bool :=
  negb (Number.isFinite byteRate) || Number.leb byteRate (Number.of_Z 0).

Definition readWavInfo (buf : list byte) : result WavInfo :=
  if Z.of_nat (length buf) <? 12 then Throw FileTooSmall
  else
    riff <- readAscii4 buf 0 ;;
    wave <- readAscii4 buf 8 ;;
    if negb (str_eqb riff "RIFF"%string) || negb (str_eqb wave "WAVE"%string)
    then Throw InvalidRiffWaveHeader
    else
      st <- scan buf init_state ;;
      let channels := st_channels st in
      let sampleRate := st_sampleRate st in
      let bitsPerSample := st_bitsPerSample st in
      let dataBytes := st_dataBytes st in
      if (channels =? 0) || (sampleRate =? 0) || (bitsPerSample =? 0)
         || (dataBytes =? 0)
      then Throw MissingFmtOrData
      else
        let byteRate := byte_rate sampleRate channels bitsPerSample in
        if byte_rate_invalid byteRate
        then Throw InvalidByteRate
        else
          let durationSec := Number.div (Number.of_Z dataBytes) byteRate in
          Ok (mkWavInfo channels sampleRate bitsPerSample dataBytes durationSec).

(** *** The chunks the scan walks over

    A chunk header that lies in the buffer together with the payload it
    declares. *)
Record chunk : Type := mkChunk {
  chunkId : list Z;
  chunkSize : Z;
  chunkDataOffset : Z
}.

Definition bytes_at (view : list byte) (offset : Z) (n : nat) : list byte :=
  firstn n (skipn (Z.to_nat offset) view).

(** The four char codes stored at [offset]. *)
Definition codes_at (view : list byte) (offset : Z) : list Z :=
  map byte.unsigned (bytes_at view offset 4).

(** The little-endian 32-bit size field stored at [offset]. *)
Definition size_at (view : list byte) (offset : Z) : Z :=
  le_combine (bytes_at view offset 4).

Definition chunk_at (view : list byte) (off : Z) : option chunk :=
  let byteLength := Z.of_nat (length view) in
  if (0 <=? off) && (off + 8 <=? byteLength) then
    let size := size_at view (off + 4) in
    if byteLength <? off + 8 + size then None
    else Some (mkChunk (codes_at view off) size (off + 8))
  else None.

Definition next_offset (c : chunk) : Z :=
  chunkDataOffset c + chunkSize c + chunkSize c mod 2.

(** The chunks met from [off] on, in order, up to the end of the buffer or
    the first chunk that runs past it. *)
Equations? walk (view : list byte) (off : Z) : list chunk
  by wf (Z.to_nat (Z.of_nat (length view) - off)) lt :=
  walk view off with inspect (chunk_at view off) := {
    | exist _ (Some c) _ => c :: walk view (next_offset c);
    | exist _ None _ => [] }.
Proof.
  unfold chunk_at in e.
  destruct ((0 <=? off) && (off + 8 <=? Z.of_nat (length view))) eqn:Hle;
    [|discriminate].
  apply andb_prop in Hle. destruct Hle as [H0 Hle].
  apply Z.leb_le in H0, Hle.
  unfold size_at in e.
  pose proof (le_combine_bound (bytes_at view (off + 4) 4)) as Hsz.
  destruct (Z.of_nat (length view) <? off + 8 + _); [discriminate|].
  injection e as <-. unfold next_offset. cbn [chunkDataOffset chunkSize].
  pose proof (Z.mod_pos_bound (le_combine (bytes_at view (off + 4) 4)) 2
                ltac:(lia)).
  lia.
Qed.

Definition is_fmt16 (c : chunk) : bool :=
  str_eqb (chunkId c) "fmt "%string && (16 <=? chunkSize c).

Definition is_fmt (c : chunk) : bool := str_eqb (chunkId c) "fmt "%string.

Definition is_data (c : chunk) : bool := str_eqb (chunkId c) "data"%string.

(** The three format fields stored in the payload of chunk [c]. *)
Definition fmt_fields (view : list byte) (c : chunk) : Z * Z * Z :=
  (le_combine (bytes_at view (chunkDataOffset c + 2) 2),
   le_combine (bytes_at view (chunkDataOffset c + 4) 4),
   le_combine (bytes_at view (chunkDataOffset c + 14) 2)).

(** What one turn of the loop does with chunk [c]. *)
Definition apply_chunk (view : list byte) (st : scan_state) (c : chunk)
    : scan_state :=
  let '(ch, sr, bits) :=
    if is_fmt16 c then fmt_fields view c
    else (st_channels st, st_sampleRate st, st_bitsPerSample st) in
  let data :=
    if negb (is_fmt c) && is_data c then chunkSize c else st_dataBytes st in
  mkScan (next_offset c) ch sr bits data.

Definition fmt_of (st : scan_state) : Z * Z * Z :=
  (st_channels st, st_sampleRate st, st_bitsPerSample st).

Definition last_such (p : chunk -> bool) (cs : list chunk) : option chunk :=
  last (map Some (filter p cs)) None.

(** A file with a 16-byte [fmt ] chunk (stereo, 44100 Hz, 16 bits), then
    a 14-byte [fmt ] chunk (mono, 22050 Hz, no bits field), then two bytes
    of [data]. *)
Definition two_fmt_wav : list byte :=
  char_codes "RIFF" ++ le_split 4 60 ++ char_codes "WAVE"
  ++ char_codes "fmt " ++ le_split 4 16
  ++ le_split 2 1 ++ le_split 2 2 ++ le_split 4 44100 ++ le_split 4 176400
  ++ le_split 2 4 ++ le_split 2 16
  ++ char_codes "fmt " ++ le_split 4 14
  ++ le_split 2 1 ++ le_split 2 1 ++ le_split 4 22050 ++ le_split 4 22050
  ++ le_split 2 1
  ++ char_codes "data" ++ le_split 4 2 ++ [Byte.x00; Byte.x00].

(** The same file followed by a [LIST] header that declares 100 bytes of
    which only one is present. *)
Definition truncated_wav : list byte :=
  two_fmt_wav ++ char_codes "LIST" ++ le_split 4 100 ++ [Byte.x00].

(** The state the loop ends in, as the fold over the chunks walked. *)
Definition scan_result (view : list byte) : scan_state :=
  fold_left (apply_chunk view) (walk view 12) init_state.

(** [!channels || !sampleRate || !bitsPerSample || !dataBytes]. *)
Definition missing_fmt_or_data (st : scan_state) : Prop :=
  st_channels st = 0 \/ st_sampleRate st = 0 \/ st_bitsPerSample st = 0
  \/ st_dataBytes st = 0.

End WavInfo.

(** ** PCM16Quantizer: [clampInt16] *)

Module Quantizer.

Import Number.

(** A number that is a binary64 datum: its mantissa and exponent are the
    canonical ones. *)
Definition is_binary64 (x : number) : Prop := valid_binary prec emax x = true.

(** [if (x > 1) x = 1; if (x < -1) x = -1]. *)
Definition clamp (x : number) : number :=
  let x := if ltb (of_Z 1) x then of_Z 1 else x in
  if ltb x (of_Z (-1)) then of_Z (-1) else x.

(** [x < 0 ? x * 0x8000 : x * 0x7fff]. *)
Definition scaled (x : number) : number :=
  if ltb x (of_Z 0) then mul x (of_Z 32768) else mul x (of_Z 32767).

(** [return (x < 0 ? x * 0x8000 : x * 0x7fff) | 0] on the clamped [x]. *)
Definition clampInt16 (x : number) : Z :=
  let x := clamp x in
  ToInt32 (scaled x).

(** The numbers 1 and -1. *)
Definition one : number := S754_finite false 4503599627370496 (-52).
Definition minus_one : number := S754_finite true 4503599627370496 (-52).

Definition NaN : number := S754_nan.
Definition Infinity : number := S754_infinity false.
Definition neg_Infinity : number := S754_infinity true.

End Quantizer.

(** ** Audio buffers, ChannelRemixer and PCM interleaving *)

Module Audio.

Import Number.

(** A [Float32Array]: its elements read as numbers.  A store rounds the
    number to binary32, [fround]; a read outside the array is
    [undefined], which arithmetic turns into NaN. *)
Definition Float32Array : Type := list number.

Definition fround (x : number) : number :=
  match x with
  | S754_finite s m e =>
      match binary_round 24 128 s m e with
      | S754_finite s' m' e' => binary_round prec emax s' m' e'
      | y => y
      end
  | _ => x
  end.

Definition get (arr : Float32Array) (i : nat) : number := nth i arr S754_nan.

(** The Web Audio [AudioBuffer]: [length] frames in each channel. *)
Record AudioBuffer : Type := mkAudioBuffer {
  sampleRate : number;
  length : nat;
  channelData : list Float32Array
}.

Definition numberOfChannels (b : AudioBuffer) : nat :=
  Datatypes.length (channelData b).

(** An [AudioBuffer] as the platform makes them: at least one frame, at
    least one channel, and every channel [length] frames long. *)
Definition well_formed (b : AudioBuffer) : Prop :=
  (0 < length b)%nat /\
  channelData b <> [] /\
  Forall (fun c => Datatypes.length c = length b) (channelData b).

(** [buffer.getChannelData(ch)]: [IndexSizeError] past the last channel. *)
Definition getChannelData (b : AudioBuffer) (ch : nat) : result Float32Array :=
  match nth_error (channelData b) ch with
  | Some c => Ok c
  | None => Throw IndexSizeError
  end.

(** [new OfflineAudioContext(channels, length, sampleRate)] followed by
    [ctx.createBuffer(channels, length, sampleRate)]: both throw a
    [NotSupportedError] when there is no frame or no channel, and the
    buffer made has silent channels.  The sample rate is that of an
    existing buffer; the channel count has no upper limit here, the
    callers pass 1 or 2. *)
Definition createBuffer (channels : Z) (len : nat) (rate : number)
    : result AudioBuffer :=
  if (channels <? 1) || (len =? 0)%nat then Throw NotSupportedError
  else
    Ok (mkAudioBuffer rate len
          (repeat (repeat (S754_zero false) len) (Z.to_nat channels))).

(** The buffer after its channel [ch], a view that was written through,
    holds [data]. *)
Definition with_channel (b : AudioBuffer) (ch : nat) (data : Float32Array)
    : AudioBuffer :=
  mkAudioBuffer (sampleRate b) (length b)
    (firstn ch (channelData b) ++ data :: skipn (S ch) (channelData b)).

(** A [for] loop whose body can throw. *)
Definition for_range_r {S : Type} (lo n : nat) (body : nat -> S -> result S)
    (s : S) : result S :=
  fold_left (fun acc i => st <- acc ;; body i st) (seq lo n) (Ok s).

(** [for (i = 0; i < src.length; i++) dst[i] += src[i]]. *)
Definition accumulate (dst src : Float32Array) : Float32Array :=
  for_range 0 (Datatypes.length src)
    (fun i d => store d (Z.of_nat i) (fround (add (get d i) (get src i)))) dst.

(** [for (i = 0; i < dst.length; i++) dst[i] *= inv]. *)
Definition scale (dst : Float32Array) (inv : number) : Float32Array :=
  for_range 0 (Datatypes.length dst)
    (fun i d => store d (Z.of_nat i) (fround (mul (get d i) inv))) dst.

(** [dst.fill(0)]. *)
Definition fill0 (dst : Float32Array) : Float32Array :=
  repeat (S754_zero false) (Datatypes.length dst).

Definition toTargetChannels (buffer : AudioBuffer) (channels : Z)
    : result AudioBuffer :=
  out <- createBuffer channels (length buffer) (sampleRate buffer) ;;
  if channels =? 1 then
    dst <- getChannelData out 0 ;;
    let dst := fill0 dst in
    dst <- for_range_r 0 (numberOfChannels buffer)
             (fun ch d => src <- getChannelData buffer ch ;;
                          Ok (accumulate d src)) dst ;;
    let inv := div (of_Z 1) (of_Z (Z.of_nat (numberOfChannels buffer))) in
    let dst := scale dst inv in
    Ok (with_channel out 0 dst)
  else
    left <- getChannelData out 0 ;;
    right <- getChannelData out 1 ;;
    if (numberOfChannels buffer =? 1)%nat then
      src <- getChannelData buffer 0 ;;
      left <- set_at left src 0 ;;
      right <- set_at right src 0 ;;
      Ok (with_channel (with_channel out 0 left) 1 right)
    else
      src0 <- getChannelData buffer 0 ;;
      left <- set_at left src0 0 ;;
      src1 <- getChannelData buffer 1 ;;
      right <- set_at right src1 0 ;;
      Ok (with_channel (with_channel out 0 left) 1 right).

(** An [Int16Array]: a store keeps the low 16 bits, read as signed. *)
Definition Int16Array : Type := list Z.

Definition ToInt16 (v : Z) : Z := (v + 2 ^ 15) mod 2 ^ 16 - 2 ^ 15.

Definition interleavePcm16 (buffer : AudioBuffer) (channels : Z)
    : result Int16Array :=
  let frames := length buffer in
  let out : Int16Array := repeat 0 (Z.to_nat (Z.of_nat frames * channels)) in
  if channels =? 1 then
    ch0 <- getChannelData buffer 0 ;;
    Ok (for_range 0 frames
          (fun i o => store o (Z.of_nat i)
                        (ToInt16 (Quantizer.clampInt16 (get ch0 i)))) out)
  else
    l <- getChannelData buffer 0 ;;
    r <- getChannelData buffer 1 ;;
    Ok (for_range 0 frames
          (fun i o =>
             let o := store o (Z.of_nat i * 2)
                        (ToInt16 (Quantizer.clampInt16 (get l i))) in
             store o (Z.of_nat i * 2 + 1)
               (ToInt16 (Quantizer.clampInt16 (get r i)))) out).

(** The sample-by-sample mean the downmix computes for frame [i]: the
    binary32 running sum of the channels, from 0, times the binary64
    reciprocal of their count. *)
Definition mean_at (chans : list Float32Array) (i : nat) : number :=
  fround (mul (fold_left (fun acc c => fround (add acc (get c i))) chans
                 (S754_zero false))
            (div (of_Z 1) (of_Z (Z.of_nat (Datatypes.length chans))))).

(** A one-frame buffer of four channels holding 1, 2, 3 and 6. *)
Definition four_channel_frame : AudioBuffer :=
  mkAudioBuffer (of_Z 44100) 1 [[of_Z 1]; [of_Z 2]; [of_Z 3]; [of_Z 6]].

End Audio.

(** ** ChunkBuilder *)

Module Chunks.

Import Number RegionMapper.

(** *** [JSON.stringify] of the TNGE object

    Strings are built from the double quote [dq] and unquoted pieces.
    The numbers of the object are integers and print in decimal. *)
Section Json.

Local Open Scope string_scope.

Definition dq : String.string := String.String "034"%char String.EmptyString.

Definition json_string (s : String.string) : String.string :=
  String.append dq (String.append s dq).

Definition json_int (z : Z) : String.string :=
  DecimalString.NilZero.string_of_int (Z.to_int z).

(** ["key":value]. *)
Definition json_member (key value : String.string) : String.string :=
  String.append (json_string key) (String.append ":" value).

Fixpoint json_join (parts : list String.string) : String.string :=
  match parts with
  | [] => String.EmptyString
  | [p] => p
  | p :: rest => String.append p (String.append "," (json_join rest))
  end.

Definition json_object (members : list String.string) : String.string :=
  String.append "{" (String.append (json_join members) "}").

Definition json_array (elements : list String.string) : String.string :=
  String.append "[" (String.append (json_join elements) "]").

Definition json_region (r : AcDryRegion) : String.string :=
  json_object
    [json_member "sample.start" (json_int (sample_start r));
     json_member "sample.end" (json_int (sample_end r));
     json_member "sample.lokey" (json_int (sample_lokey r));
     json_member "sample.hikey" (json_int (sample_hikey r));
     json_member "sound.rootnote" (json_int (sound_rootnote r));
     json_member "sound.loopstart" (json_int (-1));
     json_member "sound.loopend" (json_int (-1))].

Definition tnge_json (regions : list AcDryRegion) : String.string :=
  let rootnote := 60 in
  json_object
    [json_member "sound.playmode" (json_string "key");
     json_member "sound.rootnote" (json_int rootnote);
     json_member "sound.pitch" (json_int 0);
     json_member "sound.pan" (json_int 0);
     json_member "sound.amplitude" (json_int 100);
     json_member "envelope.attack" (json_int 0);
     json_member "envelope.release" (json_int 0);
     json_member "time.mode" (json_string "off");
     json_member "sample.mode" (json_string "multi");
     json_member "regions" (json_array (map json_region regions))].

End Json.

(** [enc.encode(JSON.stringify(tnge) + '\u0000')]: the text is ASCII, one
    byte per character, then the NUL. *)
Definition tngeJson (regions : list AcDryRegion) : list byte :=
  char_codes (tnge_json regions) ++ [Byte.x00].

Definition buildListChunkTnge (regions : list AcDryRegion)
    : result (list byte) :=
  let tngeJson := tngeJson regions in
  let infoLenNoPad := 4 + 4 + 4 + Z.of_nat (length tngeJson) in
  let infoPad := if infoLenNoPad mod 2 =? 0 then 0 else 1 in
  let infoLen := infoLenNoPad + infoPad in
  let listChunkSize := infoLen in
  let out := zeros (Z.to_nat (8 + listChunkSize)) in
  let out := writeAsciiTo out 0 "LIST" in
  out <- setUint32 out 4 listChunkSize ;;
  let p := 8 in
  let out := writeAsciiTo out p "INFO" in
  let p := p + 4 in
  let out := writeAsciiTo out p "TNGE" in
  let p := p + 4 in
  out <- setUint32 out p (Z.of_nat (length tngeJson)) ;;
  let p := p + 4 in
  out <- set_at out tngeJson p ;;
  let p := p + Z.of_nat (length tngeJson) in
  Ok (if infoPad =? 0 then out else store out p Byte.x00).

Definition buildSmplChunk (sampleRate : number) : result (list byte) :=
  let samplePeriod :=
    if ltb (of_Z 0) sampleRate
    then floorZ (mul (div (of_Z 1) sampleRate) (of_Z 1000000000))
    else 0 in
  let chunkSize := 36 in
  let out := zeros (Z.to_nat (8 + chunkSize)) in
  let out := writeAsciiTo out 0 "smpl" in
  out <- setUint32 out 4 chunkSize ;;
  let p := 8 in
  out <- setUint32 out p 0 ;;
  let p := p + 4 in
  out <- setUint32 out p 0 ;;
  let p := p + 4 in
  out <- setUint32 out p samplePeriod ;;
  let p := p + 4 in
  out <- setUint32 out p 60 ;;
  let p := p + 4 in
  out <- setUint32 out p 0 ;;
  let p := p + 4 in
  out <- setUint32 out p 0 ;;
  let p := p + 4 in
  out <- setUint32 out p 0 ;;
  let p := p + 4 in
  out <- setUint32 out p 0 ;;
  let p := p + 4 in
  out <- setUint32 out p 0 ;;
  Ok out.

Definition buildFmtChunkPcm (channels : Z) (sampleRate : number)
    (bitsPerSample : Z) : result (list byte) :=
  let chunkSize := 16 in
  let out := zeros (Z.to_nat (8 + chunkSize)) in
  let bytesPerSample := div (of_Z bitsPerSample) (of_Z 8) in
  let blockAlign := mul (of_Z channels) bytesPerSample in
  let byteRate := mul sampleRate blockAlign in
  let out := writeAsciiTo out 0 "fmt " in
  out <- setUint32 out 4 chunkSize ;;
  out <- setUint16 out 8 1 ;;
  out <- setUint16 out 10 channels ;;
  out <- setUint32 out 12 (ToUint32 sampleRate) ;;
  out <- setUint32 out 16 (ToUint32 byteRate) ;;
  out <- setUint16 out 20 (ToUint16 blockAlign) ;;
  out <- setUint16 out 22 bitsPerSample ;;
  Ok out.

(** [new Uint8Array(pcm.buffer)]: two bytes per sample, least significant
    first. *)
Definition pcm_bytes (pcm : Audio.Int16Array) : list byte :=
  flat_map (le_split 2) pcm.

Definition buildDataChunk (pcm : Audio.Int16Array) : result (list byte) :=
  let bytes := pcm_bytes pcm in
  let dataBytes := Z.of_nat (length bytes) in
  let pad := if dataBytes mod 2 =? 0 then 0 else 1 in
  let out := zeros (Z.to_nat (8 + dataBytes + pad)) in
  let out := writeAsciiTo out 0 "data" in
  out <- setUint32 out 4 (dataBytes + pad) ;;
  out <- set_at out bytes 8 ;;
  Ok (if pad =? 0 then out else store out (Z.of_nat (length out) - 1) Byte.x00).

(** *** What a chunk says of itself *)

(** The size field: the little-endian 32-bit integer at offset 4. *)
Definition declared_size (chunk : list byte) : Z :=
  le_combine (firstn 4 (skipn 4 chunk)).

(** The bytes after the 8-byte header. *)
Definition body (chunk : list byte) : list byte := skipn 8 chunk.

(** The payload a builder serializes, before any padding. *)
Definition list_payload (regions : list AcDryRegion) : list byte :=
  char_codes "INFO" ++ char_codes "TNGE"
  ++ le_split 4 (Z.of_nat (length (tngeJson regions))) ++ tngeJson regions.

Definition pad_of (payload : list byte) : list byte :=
  if Z.of_nat (length payload) mod 2 =? 0 then [] else [Byte.x00].

(** A chunk as the format has it: tag, little-endian length of the
    payload, payload, and one zero byte after a payload of odd length. *)
Definition chunk_bytes (id : String.string) (payload : list byte)
    : list byte :=
  char_codes id ++ le_split 4 (Z.of_nat (length payload)) ++ payload
  ++ pad_of payload.
Arguments chunk_bytes id%_string payload.

End Chunks.

(** ** KitEncoder: [exportAcDryKitWavPcm16] *)

Module ExportOptions.

Record t : Type := mk {
  sampleRate : Number.number;
  channels : Z
}.

End ExportOptions.

Module KitEncoder.

Import Number Audio Chunks RegionMapper.

(** A [for (const x of xs)] loop whose body can throw. *)
Definition for_of {A S : Type} (body : S -> A -> result S) (xs : list A)
    (s : S) : result S :=
  fold_left (fun acc x => st <- acc ;; body st x) xs (Ok s).

Record export : Type := mkExport {
  wavBytes : list byte;
  durationSec : number
}.

(** The four arrays and the counter the first loop fills. *)
Record collected : Type := mkCollected {
  rendered : list AudioBuffer;
  notes : list Z;
  frameLengths : list Z;
  totalFrames : Z
}.

(** [pcm.set(chunk, writePos); writePos += chunk.length] for one buffer. *)
Definition write_pcm (channels : Z) (st : Int16Array * Z) (b : AudioBuffer)
    : result (Int16Array * Z) :=
  let '(pcm, writePos) := st in
  chunk <- interleavePcm16 b channels ;;
  pcm <- set_at pcm chunk writePos ;;
  Ok (pcm, writePos + Z.of_nat (Datatypes.length chunk)).

(** The regions of the kit: built from the notes and frame counts the
    first loop kept. *)
Definition kit_regions (st : collected) : list AcDryRegion :=
  buildAcDryRegions (notes st) (frameLengths st).

(** Everything after the first loop. *)
Definition assemble (st : collected) (options : ExportOptions.t)
    : result export :=
  let channels := ExportOptions.channels options in
  let sampleRate := ExportOptions.sampleRate options in
  let totalSamples := totalFrames st * channels in
  let pcm : Int16Array := repeat 0 (Z.to_nat totalSamples) in
  pw <- for_of (write_pcm channels) (rendered st) (pcm, 0) ;;
  let pcm := fst pw in
  let regions := kit_regions st in
  fmtChunk <- buildFmtChunkPcm channels sampleRate 16 ;;
  listChunk <- buildListChunkTnge regions ;;
  smplChunk <- buildSmplChunk sampleRate ;;
  dataChunk <- buildDataChunk pcm ;;
  let len (c : list byte) := Z.of_nat (Datatypes.length c) in
  let riffSize :=
    4 + len fmtChunk + len listChunk + len smplChunk + len dataChunk in
  let fileSize := 8 + riffSize in
  let out := zeros (Z.to_nat fileSize) in
  let out := writeAsciiTo out 0 "RIFF" in
  out <- setUint32 out 4 riffSize ;;
  let out := writeAsciiTo out 8 "WAVE" in
  let p := 12 in
  out <- set_at out fmtChunk p ;;
  let p := p + len fmtChunk in
  out <- set_at out listChunk p ;;
  let p := p + len listChunk in
  out <- set_at out smplChunk p ;;
  let p := p + len smplChunk in
  out <- set_at out dataChunk p ;;
  let durationSec := div (of_Z (totalFrames st)) sampleRate in
  Ok (mkExport out durationSec).

(** The tag and declared size of a chunk the parser walked. *)
Definition tag_and_size (c : WavInfo.chunk) : list Z * Z :=
  (WavInfo.chunkId c, WavInfo.chunkSize c).

Section Encoder.

(** The platform: a file is a [Blob]; [decodeToAudioBuffer] is
    [AudioContext.decodeAudioData] on its bytes and may reject;
    [offlineRender buffer sampleRate] is the [OfflineAudioContext]
    rendering of [resample], of [max(1, round(duration * sampleRate))]
    frames, and may reject. *)
Variable Blob : Type.
Variable decodeToAudioBuffer : Blob -> result AudioBuffer.
Variable offlineRender : AudioBuffer -> number -> result AudioBuffer.

Definition resample (buffer : AudioBuffer) (sampleRate : number)
    : result AudioBuffer :=
  if eqb (Audio.sampleRate buffer) sampleRate then Ok buffer
  else offlineRender buffer sampleRate.

Record item : Type := mkItem {
  note : Z;
  file : Blob
}.

(** [[...items].sort((a, b) => a.note - b.note)]: a stable sort by note. *)
Fixpoint insert_by_note (it : item) (sorted : list item) : list item :=
  match sorted with
  | [] => [it]
  | x :: rest =>
      if note it <=? note x then it :: sorted
      else x :: insert_by_note it rest
  end.

Definition sort_by_note (items : list item) : list item :=
  fold_right insert_by_note [] items.

(** Decode, resample, remix: the buffer of one item. *)
Definition render (options : ExportOptions.t) (it : item)
    : result AudioBuffer :=
  decoded <- decodeToAudioBuffer (file it) ;;
  rs <- resample decoded (ExportOptions.sampleRate options) ;;
  toTargetChannels rs (ExportOptions.channels options).

(** The body of the first loop. *)
Definition collect_item (options : ExportOptions.t) (st : collected)
    (it : item) : result collected :=
  ch <- render options it ;;
  if Z.of_nat (length ch) <=? 0 then Ok st
  else
    Ok (mkCollected (rendered st ++ [ch]) (notes st ++ [note it])
          (frameLengths st ++ [Z.of_nat (length ch)])
          (totalFrames st + Z.of_nat (length ch))).

Definition collect (items : list item) (options : ExportOptions.t)
    : result collected :=
  let itemsSorted := sort_by_note items in
  for_of (collect_item options) itemsSorted (mkCollected [] [] [] 0).

Definition exportAcDryKitWavPcm16 (items : list item)
    (options : ExportOptions.t) : result export :=
  st <- collect items options ;;
  assemble st options.

(** The items the first loop keeps, with their buffers: those of a
    positive frame count. *)
Definition kept (pairs : list (item * AudioBuffer))
    : list (item * AudioBuffer) :=
  filter (fun p => negb (Z.of_nat (length (snd p)) <=? 0)) pairs.

Definition frames_of (p : item * AudioBuffer) : Z :=
  Z.of_nat (length (snd p)).

End Encoder.

Arguments mkItem {Blob} note file.
Arguments note {Blob} i.
Arguments file {Blob} i.
Arguments sort_by_note {Blob} items.
Arguments insert_by_note {Blob} it sorted.
Arguments kept {Blob} pairs.
Arguments frames_of {Blob} p.

(** *** A platform for examples: a file is its decoded buffer, and
    rendering at another rate leaves the frames alone. *)
Definition decode_id (b : AudioBuffer) : result AudioBuffer := Ok b.
Definition render_id (b : AudioBuffer) (rate : number) : result AudioBuffer :=
  Ok (mkAudioBuffer rate (length b) (channelData b)).

(** A silent mono buffer of [n] frames at 22050 Hz. *)
Definition silence (n : nat) : AudioBuffer :=
  mkAudioBuffer (of_Z 22050) n [repeat (S754_zero false) n].

Definition options_22050_mono : ExportOptions.t :=
  ExportOptions.mk (of_Z 22050) 1.

(** Notes 64, 60 and 67, in that order, bound to silent files of 2, 1
    and 3 frames. *)
Definition items_64_60_67 : list (item AudioBuffer) :=
  [mkItem 64 (silence 2); mkItem 60 (silence 1); mkItem 67 (silence 3)].

(** Notes 60, 64 and 67, the middle one bound to a buffer without
    frames, which no decoder of the platform returns. *)
Definition items_middle_without_frames : list (item AudioBuffer) :=
  [mkItem 60 (silence 1); mkItem 64 (silence 0); mkItem 67 (silence 1)].

(** The bytes of an export, nothing when it throws. *)
Definition exported_bytes (r : result export) : list byte :=
  match r with
  | Ok e => wavBytes e
  | Throw _ => []
  end.

(** The kit of no items, and the kit of two silent files of 2 and 1
    frames bound to notes 67 and 60, at 22050 Hz mono. *)
Definition empty_kit : result export :=
  exportAcDryKitWavPcm16 AudioBuffer decode_id render_id []
    options_22050_mono.

Definition two_note_kit : result export :=
  exportAcDryKitWavPcm16 AudioBuffer decode_id render_id
    [mkItem 67 (silence 2); mkItem 60 (silence 1)] options_22050_mono.

End KitEncoder.

(** ** Region mapper: regions of the items that are not skipped *)

Module RegionLoop.

Import RegionMapper.

(** The indices the region loop does not skip: those of a positive frame
    count ([frameLengthsByIndex[i] ?? 0] for a missing one). *)
Definition kept_indices (sortedNotes frameLengthsByIndex : list Z) : list nat :=
  filter (fun i => 0 <? nth i frameLengthsByIndex 0)
    (seq 0 (length sortedNotes)).

(** The frames of the listed indices, together. *)
Definition frames_total (frameLengthsByIndex : list Z) (idx : list nat) : Z :=
  fold_right Z.add 0 (map (fun i => nth i frameLengthsByIndex 0) idx).

(** Regions laid end to end from frame [cf] on, one per listed index, with
    the keys and root note of that index. *)
Fixpoint chain (notes frames bnds : list Z) (idx : list nat) (cf : Z)
    : list AcDryRegion :=
  match idx with
  | [] => []
  | i :: rest =>
      let f := nth i frames 0 in
      mkRegion cf (cf + f) (nth i bnds 0) (nth (i + 1) bnds 127)
        (nth i notes 0)
      :: chain notes frames bnds rest (cf + f)
  end.

(** Consecutive regions meet: each starts where the one before it ends. *)
Fixpoint contiguous_from (cf : Z) (rs : list AcDryRegion) : Prop :=
  match rs with
  | [] => True
  | r :: rest =>
      sample_start r = cf /\ sample_start r < sample_end r
      /\ contiguous_from (sample_end r) rest
  end.

Definition last_end (rs : list AcDryRegion) : Z :=
  sample_end (last rs (mkRegion 0 0 0 0 0)).

End RegionLoop.

(** ** WAV header parser: bounds *)

Module WavBounds.

Import WavInfo.

(** The bounds the loop keeps on its variables. *)
Definition in_bounds (view : list byte) (st : scan_state) : Prop :=
  0 <= st_channels st < 2 ^ 16 /\
  0 <= st_sampleRate st < 2 ^ 32 /\
  0 <= st_bitsPerSample st < 2 ^ 16 /\
  0 <= st_dataBytes st /\
  (st_dataBytes st = 0
   \/ st_dataBytes st + 20 <= Z.of_nat (length view)).

End WavBounds.

(** ** PCM streams *)

Module Pcm.

Import Audio.

(** Every sample of every channel is a binary64 datum. *)
Definition samples_ok (b : AudioBuffer) : Prop :=
  Forall (Forall Quantizer.is_binary64) (channelData b).

(** The quantized frames of a mono buffer, and of the first two channels
    of a buffer, left sample first. *)
Definition quantized_mono (c0 : Float32Array) (frames : nat) : Int16Array :=
  map (fun i => Quantizer.clampInt16 (get c0 i)) (seq 0 frames).

Definition quantized_stereo (l r : Float32Array) (frames : nat) : Int16Array :=
  flat_map (fun i => [Quantizer.clampInt16 (get l i);
                      Quantizer.clampInt16 (get r i)]) (seq 0 frames).

(** The samples stored in a byte string, two bytes each, least significant
    first, read as signed 16-bit integers. *)
Fixpoint samples_of_bytes (bs : list byte) : list Z :=
  match bs with
  | lo :: hi :: rest => ToInt16 (le_combine [lo; hi]) :: samples_of_bytes rest
  | _ => []
  end.

Definition int16 (v : Z) : Prop := - 2 ^ 15 <= v < 2 ^ 15.

End Pcm.

(** ** The chunks of a serialized sequence *)

Module Walked.

Import WavInfo Chunks.

(** The chunk records of a sequence of chunks serialized one after the
    other from offset [off] on: each payload starts 8 bytes after its
    header, and the next header follows the payload and its pad byte. *)
Fixpoint walked (off : Z) (chunks : list (String.string * list byte))
    : list chunk :=
  match chunks with
  | [] => []
  | (id, payload) :: rest =>
      mkChunk (ascii id) (len payload) (off + 8)
      :: walked (off + 8 + len payload + len payload mod 2) rest
  end.

Definition serialized (chunks : list (String.string * list byte))
    : list byte :=
  concat (map (fun c => chunk_bytes (fst c) (snd c)) chunks).

(** Tags of four characters and payloads that a 32-bit size can count. *)
Definition serializable (chunks : list (String.string * list byte)) : Prop :=
  Forall (fun c => length (char_codes (fst c)) = 4%nat
                   /\ len (snd c) < 2 ^ 32) chunks.

End Walked.

(** ** The layout of an exported kit *)

Module KitLayout.

Import Number Audio Chunks RegionMapper Walked.

(** The 16 bytes after the header of the [fmt ] chunk. *)
Definition fmt_payload (channels : Z) (sampleRate : number)
    (bitsPerSample : Z) : list byte :=
  let bytesPerSample := div (of_Z bitsPerSample) (of_Z 8) in
  let blockAlign := mul (of_Z channels) bytesPerSample in
  let byteRate := mul sampleRate blockAlign in
  le_split 2 1 ++ le_split 2 channels
  ++ le_split 4 (ToUint32 sampleRate) ++ le_split 4 (ToUint32 byteRate)
  ++ le_split 2 (ToUint16 blockAlign) ++ le_split 2 bitsPerSample.

(** The sample period the [smpl] chunk stores, in nanoseconds. *)
Definition sample_period (sampleRate : number) : Z :=
  if ltb (of_Z 0) sampleRate
  then floorZ (mul (div (of_Z 1) sampleRate) (of_Z 1000000000))
  else 0.

(** The 36 bytes after the header of the [smpl] chunk. *)
Definition smpl_payload (sampleRate : number) : list byte :=
  le_split 4 0 ++ le_split 4 0 ++ le_split 4 (sample_period sampleRate)
  ++ le_split 4 60 ++ le_split 4 0 ++ le_split 4 0 ++ le_split 4 0
  ++ le_split 4 0 ++ le_split 4 0.

(** What the [LIST] chunk counts in its size field: the payload and its
    pad byte. *)
Definition list_body (regions : list AcDryRegion) : list byte :=
  list_payload regions ++ pad_of (list_payload regions).

(** The four chunks of a kit, in file order. *)
Definition kit_chunks (options : ExportOptions.t)
    (regions : list AcDryRegion) (pcm : Int16Array)
    : list (String.string * list byte) :=
  [("fmt "%string,
    fmt_payload (ExportOptions.channels options)
      (ExportOptions.sampleRate options) 16);
   ("LIST"%string, list_body regions);
   ("smpl"%string, smpl_payload (ExportOptions.sampleRate options));
   ("data"%string, pcm_bytes pcm)].

(** A RIFF/WAVE file of the given chunks: the size field counts all that
    follows it. *)
Definition riff_wave (chunks : list (String.string * list byte))
    : list byte :=
  char_codes "RIFF" ++ le_split 4 (4 + len (serialized chunks))
  ++ char_codes "WAVE" ++ serialized chunks.

(** A platform for examples where a file may be undecodable: a file is
    its decoded buffer, or nothing. *)
Definition decode_opt (f : option AudioBuffer) : result AudioBuffer :=
  match f with
  | Some b => Ok b
  | None => Throw DecodeError
  end.

End KitLayout.

(** ** The order of the notes *)

Module NoteOrder.

Import KitEncoder.

(** [a.note - b.note <= 0]: [a] may stay before [b]. *)
Definition note_le {Blob : Type} (a b : item Blob) : Prop := note a <= note b.

(** The items bound to note [n]. *)
Definition bound_to {Blob : Type} (n : Z) (items : list (item Blob))
    : list (item Blob) :=
  filter (fun it => note it =? n) items.

End NoteOrder.

(** ** FlatEncoder: [exportConcatenatedWavPcm16] *)

Module FlatEncoder.

Import Number Audio Chunks KitEncoder.

(** [view.setUint8(offset, v)]: [RangeError] outside the view. *)
Definition setUint8 (view : list byte) (offset : Z) (v : Z)
    : result (list byte) :=
  set_at view (le_split 1 v) offset.

(** [writeAscii(view, offset, s)]:
    [for (i = 0; i < s.length; i++) view.setUint8(offset + i, s.charCodeAt(i))]. *)
Definition writeAscii (view : list byte) (offset : Z) (s : String.string)
    : result (list byte) :=
  for_range_r 0 (Datatypes.length (char_codes s))
    (fun i v =>
       setUint8 v (offset + Z.of_nat i)
         (byte.unsigned (nth i (char_codes s) Byte.x00)))
    view.
Arguments writeAscii view offset%_Z s%_string.

(** Everything after the first loop: [rendered] and [totalFrames] are
    what it collected.  [blockAlign] is a product of small integers. *)
Definition assemble_flat (rendered : list AudioBuffer) (totalFrames : Z)
    (options : ExportOptions.t) : result export :=
  let channels := ExportOptions.channels options in
  let sampleRate := ExportOptions.sampleRate options in
  let totalSamples := totalFrames * channels in
  let pcm : Int16Array := repeat 0 (Z.to_nat totalSamples) in
  pw <- for_of (write_pcm channels) rendered (pcm, 0) ;;
  let pcm := fst pw in
  let bytesPerSample := 2 in
  let blockAlign := channels * bytesPerSample in
  let byteRate := mul sampleRate (of_Z blockAlign) in
  let dataBytes := 2 * Z.of_nat (Datatypes.length pcm) in
  let wavSize := 44 + dataBytes in
  let view := zeros (Z.to_nat wavSize) in
  view <- writeAscii view 0 "RIFF" ;;
  view <- setUint32 view 4 (wavSize - 8) ;;
  view <- writeAscii view 8 "WAVE" ;;
  view <- writeAscii view 12 "fmt " ;;
  view <- setUint32 view 16 16 ;;
  view <- setUint16 view 20 1 ;;
  view <- setUint16 view 22 channels ;;
  view <- setUint32 view 24 (ToUint32 sampleRate) ;;
  view <- setUint32 view 28 (ToUint32 byteRate) ;;
  view <- setUint16 view 32 blockAlign ;;
  view <- setUint16 view 34 16 ;;
  view <- writeAscii view 36 "data" ;;
  view <- setUint32 view 40 dataBytes ;;
  view <- set_at view (pcm_bytes pcm) 44 ;;
  let durationSec := div (of_Z totalFrames) sampleRate in
  Ok (mkExport view durationSec).

Section Encoder.

Variable Blob : Type.
Variable decodeToAudioBuffer : Blob -> result AudioBuffer.
Variable offlineRender : AudioBuffer -> number -> result AudioBuffer.

(** Decode, resample, remix: the buffer of one file. *)
Definition render_file (options : ExportOptions.t) (f : Blob)
    : result AudioBuffer :=
  decoded <- decodeToAudioBuffer f ;;
  rs <- resample offlineRender decoded (ExportOptions.sampleRate options) ;;
  toTargetChannels rs (ExportOptions.channels options).

(** The body of the first loop; the state is [(rendered, totalFrames)]. *)
Definition collect_file (options : ExportOptions.t)
    (st : list AudioBuffer * Z) (f : Blob) : result (list AudioBuffer * Z) :=
  let '(rendered, totalFrames) := st in
  ch <- render_file options f ;;
  Ok (rendered ++ [ch], totalFrames + Z.of_nat (length ch)).

Definition exportConcatenatedWavPcm16 (filesInOrder : list Blob)
    (options : ExportOptions.t) : result export :=
  st <- for_of (collect_file options) filesInOrder ([], 0) ;;
  assemble_flat (fst st) (snd st) options.

End Encoder.

(** The 16 bytes after the header of the flat file's [fmt ] chunk. *)
Definition flat_fmt_payload (options : ExportOptions.t) : list byte :=
  let channels := ExportOptions.channels options in
  let sampleRate := ExportOptions.sampleRate options in
  le_split 2 1 ++ le_split 2 channels
  ++ le_split 4 (ToUint32 sampleRate)
  ++ le_split 4 (ToUint32 (mul sampleRate (of_Z (channels * 2))))
  ++ le_split 2 (channels * 2) ++ le_split 2 16.

(** The samples [interleavePcm16] gives for a buffer, none when it
    throws. *)
Definition pcm_of (channels : Z) (b : AudioBuffer) : Int16Array :=
  match interleavePcm16 b channels with
  | Ok c => c
  | Throw _ => []
  end.

End FlatEncoder.

(** ** Text *)

Module Text.

(** A printable ASCII character: one byte in UTF-8, and not the NUL. *)
Definition printable (b : byte) : Prop := 32 <= byte.unsigned b <= 126.

Definition ascii_text (s : String.string) : Prop :=
  Forall printable (char_codes s).

End Text.

(** ** Normal numbers *)

Module Normal.

Import Number.

(** A positive normal binary64 number with exponent in [[lo, hi]]: its
    mantissa has all 53 bits. *)
Definition normal_pos (lo hi : Z) (x : number) : Prop :=
  exists m e,
    x = S754_finite false m e /\ Zpos (digits2_pos m) = 53 /\ lo <= e <= hi.

End Normal.

(** ** The RIFF size field *)

Module SizeField.

(** Two buffers of the same length that differ at most in bytes 4 to 7,
    the RIFF size field. *)
Definition same_but_size_field (v1 v2 : list byte) : Prop :=
  Datatypes.length v1 = Datatypes.length v2 /\ firstn 4 v1 = firstn 4 v2
  /\ skipn 8 v1 = skipn 8 v2.

(** The buffer with its bytes 4 to 7 replaced by the 32-bit integer [v]. *)
Definition with_size_field (buf : list byte) (v : Z) : list byte :=
  firstn 4 buf ++ le_split 4 v ++ skipn 8 buf.

End SizeField.

(** ** App: the items handed to the exporters *)

Module App.

Import Number KitEncoder.

Definition ALLOWED_NOTES : list Z := [60; 62; 64; 65; 67; 69; 71; 72].

Section Slots.

Variable Blob : Type.

Record AssignedSample : Type := mkSample {
  sample_file : Blob;
  sample_durationSec : number
}.

(** [assigned[n]]: the sample on a note, if any. *)
Variable assigned : Z -> option AssignedSample.

(** [for (const n of ALLOWED_NOTES) { const slot = assigned[n];
    if (slot) items.push({ note: n, file: slot.file }) }]. *)
Definition kit_items : list (item Blob) :=
  fold_left
    (fun items n =>
       match assigned n with
       | Some slot => items ++ [mkItem n (sample_file slot)]
       | None => items
       end)
    ALLOWED_NOTES [].

(** [for (const n of ALLOWED_NOTES) { const slot = assigned[n];
    if (slot) files.push(slot.file) }]. *)
Definition flat_files : list Blob :=
  fold_left
    (fun files n =>
       match assigned n with
       | Some slot => files ++ [sample_file slot]
       | None => files
       end)
    ALLOWED_NOTES [].

(** The notes that hold a sample. *)
Definition assigned_notes : list Z :=
  filter (fun n => match assigned n with Some _ => true | None => false end)
    ALLOWED_NOTES.

End Slots.

Arguments mkSample {Blob} sample_file sample_durationSec.
Arguments sample_file {Blob} a.

End App.

(** * Properties *)

(** ** Loop helpers *)

Lemma for_range_S {S : Type} lo n (body : nat -> S -> S) s :
  for_range lo (Datatypes.S n) body s = body (lo + n)%nat (for_range lo n body s).
Proof.
  unfold for_range. rewrite seq_S, fold_left_app. reflexivity.
Qed.

Lemma for_range_0 {S : Type} lo (body : nat -> S -> S) s :
  for_range lo 0 body s = s.
Proof. reflexivity. Qed.

Example boundaries_60_64_67 : boundaries [60; 64; 67] = [0; 62; 66; 127].
Proof. reflexivity. Qed.

Example regions_60_67 :
  buildAcDryRegions [60; 67] [22050; 11025]
  = [mkRegion 0 22050 0 64 60; mkRegion 22050 33075 64 127 67].
Proof. reflexivity. Qed.

(** ** Region mapper *)

Section RegionMapperFacts.

Lemma for_range_push {A : Type} (f : nat -> A) lo n (l : list A) :
  for_range lo n (fun i bs => bs ++ [f i]) l = l ++ map f (seq lo n).
Proof.
  induction n as [|n IH].
  - rewrite for_range_0. simpl. now rewrite app_nil_r.
  - rewrite for_range_S, IH, seq_S, map_app, app_assoc. reflexivity.
Qed.

Lemma boundaries_eq (notes : list Z) :
  boundaries notes
  = 0 :: map (midpoint_at notes) (seq 1 (length notes - 1)) ++ [127].
Proof. unfold boundaries. rewrite for_range_push. reflexivity. Qed.

Lemma boundaries_length (notes : list Z) :
  notes <> [] -> length (boundaries notes) = S (length notes).
Proof.
  intros Hne. rewrite boundaries_eq. cbn [length].
  rewrite length_app, length_map, length_seq. cbn [length].
  destruct notes; [congruence | cbn [length]; lia].
Qed.

Lemma boundaries_first (notes : list Z) : nth 0 (boundaries notes) 0 = 0.
Proof. rewrite boundaries_eq. reflexivity. Qed.

Lemma boundaries_mid (notes : list Z) (i : nat) :
  (1 <= i < length notes)%nat ->
  nth i (boundaries notes) 0 = midpoint_at notes i.
Proof.
  intros Hi. rewrite boundaries_eq.
  destruct i as [|i]; [lia|]. cbn [nth].
  rewrite app_nth1 by (rewrite length_map, length_seq; lia).
  rewrite (nth_indep _ 0 (midpoint_at notes 0))
    by (rewrite length_map, length_seq; lia).
  rewrite map_nth, seq_nth by lia. reflexivity.
Qed.

Lemma boundaries_last (notes : list Z) (d : Z) :
  notes <> [] -> nth (length notes) (boundaries notes) d = 127.
Proof.
  intros Hne. rewrite boundaries_eq.
  destruct notes as [|a tl]; [congruence|]. cbn [length nth].
  rewrite app_nth2 by (rewrite length_map, length_seq; lia).
  rewrite length_map, length_seq.
  replace (length tl - (S (length tl) - 1))%nat with 0%nat by lia.
  reflexivity.
Qed.

Lemma region_loop_positive (notes frames bnds : list Z) (k : nat) :
  (forall i, (i < k)%nat -> 0 < nth i frames 0) ->
  for_range 0 k (region_step notes frames bnds) (0, [])
  = (frame_offset frames k, map (region_at notes frames bnds) (seq 0 k)).
Proof.
  induction k as [|k IH]; intros Hpos.
  - reflexivity.
  - rewrite for_range_S, IH by (intros; apply Hpos; lia).
    cbn [Nat.add]. unfold region_step.
    specialize (Hpos k ltac:(lia)).
    destruct (nth k frames 0 <=? 0) eqn:E; [apply Z.leb_le in E; lia|].
    rewrite seq_S, map_app. reflexivity.
Qed.

Lemma buildAcDryRegions_positive (notes frames : list Z) :
  (forall i, (i < length notes)%nat -> 0 < nth i frames 0) ->
  buildAcDryRegions notes frames
  = map (region_at notes frames (boundaries notes)) (seq 0 (length notes)).
Proof.
  intros Hpos. unfold buildAcDryRegions.
  destruct (length notes =? 0)%nat eqn:E.
  - apply Nat.eqb_eq in E. now rewrite E.
  - now rewrite region_loop_positive.
Qed.

Lemma nth_region_positive (notes frames : list Z) (i : nat) (d : AcDryRegion) :
  (forall i, (i < length notes)%nat -> 0 < nth i frames 0) ->
  (i < length notes)%nat ->
  nth i (buildAcDryRegions notes frames) d
  = region_at notes frames (boundaries notes) i.
Proof.
  intros Hpos Hi. rewrite buildAcDryRegions_positive by assumption.
  rewrite (nth_indep _ d (region_at notes frames (boundaries notes) 0))
    by (rewrite length_map, length_seq; lia).
  rewrite map_nth, seq_nth by lia. reflexivity.
Qed.

End RegionMapperFacts.

(** *** Key ranges of ascending notes *)

Lemma sorted_nth_lt (l : list Z) :
  StronglySorted Z.lt l ->
  forall i j, (i < j < length l)%nat -> nth i l 0 < nth j l 0.
Proof.
  induction 1 as [|a l Hs IH Hall]; intros i j Hij.
  - simpl in Hij. lia.
  - destruct j as [|j]; [lia|]. cbn [length] in Hij.
    destruct i as [|i]; cbn [nth].
    + rewrite Forall_forall in Hall. apply Hall, nth_In. lia.
    + apply IH. lia.
Qed.

Lemma sorted_nth_le (l : list Z) :
  StronglySorted Z.lt l ->
  forall i j, (i <= j < length l)%nat -> nth i l 0 <= nth j l 0.
Proof.
  intros Hs i j Hij. destruct (Nat.eq_dec i j) as [->|Hne]; [lia|].
  apply Z.lt_le_incl, sorted_nth_lt; [assumption | lia].
Qed.

Lemma midpoint_between (p c : Z) : p < c -> p < (p + c + 1) / 2 <= c.
Proof. intros H. Z.to_euclidean_division_equations. lia. Qed.

Section AscendingNotes.

Variable notes : list Z.
Hypothesis notes_sorted : StronglySorted Z.lt notes.
Hypothesis notes_midi : Forall (fun a => 0 <= a <= 127) notes.

Lemma note_range i : (i < length notes)%nat -> 0 <= nth i notes 0 <= 127.
Proof.
  intros Hi. rewrite Forall_forall in notes_midi.
  apply notes_midi, nth_In, Hi.
Qed.

(** Boundary [i] lies above note [i - 1] and not above note [i]. *)
Lemma boundary_between i :
  (1 <= i < length notes)%nat ->
  nth (i - 1) notes 0 < nth i (boundaries notes) 0 <= nth i notes 0.
Proof.
  intros Hi. rewrite boundaries_mid by assumption.
  apply midpoint_between, sorted_nth_lt; [assumption | lia].
Qed.

Lemma boundary_le_note i :
  (i < length notes)%nat -> nth i (boundaries notes) 0 <= nth i notes 0.
Proof.
  intros Hi. destruct i as [|i].
  - rewrite boundaries_first. apply note_range, Hi.
  - apply boundary_between. lia.
Qed.

Lemma note_lt_boundary i :
  (S i < length notes)%nat -> nth i notes 0 < nth (S i) (boundaries notes) 0.
Proof.
  intros Hi. pose proof (boundary_between (S i) ltac:(lia)) as H.
  replace (S i - 1)%nat with i in H by lia. lia.
Qed.

Lemma boundary_strict i j :
  (i < j < length notes)%nat -> nth i (boundaries notes) 0 < nth j (boundaries notes) 0.
Proof.
  intros Hij. destruct j as [|j]; [lia|].
  pose proof (boundary_le_note i ltac:(lia)).
  pose proof (note_lt_boundary j ltac:(lia)).
  pose proof (sorted_nth_le notes notes_sorted i j ltac:(lia)). lia.
Qed.

Lemma boundary_top : notes <> [] -> nth (length notes) (boundaries notes) 0 = 127.
Proof. intros Hne. now apply boundaries_last. Qed.

(** Each region's range is non-empty and holds its root note. *)
Lemma note_le_next_boundary i :
  (i < length notes)%nat -> nth i notes 0 <= nth (S i) (boundaries notes) 0.
Proof.
  intros Hi. destruct (Nat.eq_dec (S i) (length notes)) as [E|E].
  - rewrite E, boundary_top by (intros ->; simpl in Hi; lia).
    apply note_range, Hi.
  - apply Z.lt_le_incl, note_lt_boundary. lia.
Qed.

Lemma boundary_cover k m :
  (m <= length notes)%nat -> 0 <= k <= nth m (boundaries notes) 0 ->
  m <> 0%nat ->
  exists i, (i < m)%nat /\ nth i (boundaries notes) 0 <= k <= nth (S i) (boundaries notes) 0.
Proof.
  induction m as [|m IH]; intros Hm Hk Hm0; [congruence|].
  destruct (Z_le_gt_dec k (nth m (boundaries notes) 0)) as [Hle|Hgt].
  - destruct m as [|m].
    + exists 0%nat. split; [lia|].
      rewrite boundaries_first in *. lia.
    + destruct IH as (i & Hi & Hki); [lia | lia | congruence |].
      exists i. split; [lia | exact Hki].
  - exists m. split; [lia | lia].
Qed.

End AscendingNotes.

(** C3. For a non-empty strictly ascending list of MIDI notes in
    [[0,127]] with positive frame counts, the closed key ranges
    [[lokey, hikey]] of the regions tile [[0,127]] end to end, as
    [[0,62]], [[62,66]], [[66,127]] do for notes 60, 64 and 67.  No gaps:
    the first range starts at 0, the last ends at 127, each region's
    [hikey] is the next region's [lokey], and every key lies in some
    range.  No overlaps: two ranges have no key in common but the
    boundary key where adjacent ranges meet.  Each range holds its own
    root note. *)
Theorem C3_key_ranges_chain (notes frames : list Z) :
  notes <> [] ->
  StronglySorted Z.lt notes ->
  Forall (fun a => 0 <= a <= 127) notes ->
  (forall i, (i < length notes)%nat -> 0 < nth i frames 0) ->
  let n := length notes in
  let rs := buildAcDryRegions notes frames in
  let r i := nth i rs no_region in
  length rs = n /\
  sample_lokey (r 0%nat) = 0 /\
  sample_hikey (r (n - 1)%nat) = 127 /\
  (forall i, (S i < n)%nat -> sample_hikey (r i) = sample_lokey (r (S i))) /\
  (forall i, (i < n)%nat ->
     sound_rootnote (r i) = nth i notes 0 /\ in_keys (nth i notes 0) (r i)) /\
  (forall k, 0 <= k <= 127 -> exists i, (i < n)%nat /\ in_keys k (r i)) /\
  (forall i, (S i < n)%nat ->
     in_keys (sample_hikey (r i)) (r i) /\
     in_keys (sample_hikey (r i)) (r (S i))) /\
  (forall k i j, (i < j < n)%nat -> in_keys k (r i) -> in_keys k (r j) ->
     j = S i /\ k = sample_hikey (r i)).
Proof.
  intros Hne Hs Hmidi Hpos n rs r.
  assert (Hr : forall i, (i < n)%nat ->
             r i = region_at notes frames (boundaries notes) i).
  { intros i Hi. apply nth_region_positive; assumption. }
  assert (Hlo : forall i, (i < n)%nat ->
             sample_lokey (r i) = nth i (boundaries notes) 0).
  { intros i Hi. now rewrite Hr. }
  assert (Hhi : forall i, (i < n)%nat ->
             sample_hikey (r i) = nth (S i) (boundaries notes) 0).
  { intros i Hi. rewrite Hr by assumption. unfold region_at.
    cbn [sample_hikey]. replace (i + 1)%nat with (S i) by lia.
    apply nth_indep. rewrite boundaries_length by assumption.
    fold n. lia. }
  assert (Hn : (0 < n)%nat).
  { subst n. destruct notes; [congruence | simpl; lia]. }
  split.
  { subst rs. rewrite buildAcDryRegions_positive by assumption.
    now rewrite length_map, length_seq. }
  split. { rewrite Hlo by lia. apply boundaries_first. }
  split.
  { rewrite Hhi by lia. replace (S (n - 1)) with n by lia.
    apply boundaries_last, Hne. }
  split. { intros i Hi. rewrite Hhi, Hlo by lia. reflexivity. }
  split.
  { intros i Hi. split; [now rewrite Hr|]. unfold in_keys.
    rewrite Hlo, Hhi by assumption. split.
    - apply boundary_le_note; assumption.
    - apply note_le_next_boundary; assumption. }
  split.
  { intros k Hk.
    destruct (boundary_cover notes k n) as (i & Hi & Hki);
      [lia | unfold n; rewrite boundaries_last by assumption; lia | lia |].
    exists i. split; [assumption|]. unfold in_keys.
    now rewrite Hlo, Hhi. }
  split.
  { intros i Hi. unfold in_keys.
    rewrite (Hlo i), (Hlo (S i)), (Hhi i), (Hhi (S i)) by lia.
    pose proof (boundary_le_note notes Hs Hmidi i ltac:(fold n; lia)).
    pose proof (note_le_next_boundary notes Hs Hmidi i ltac:(fold n; lia)).
    pose proof (boundary_le_note notes Hs Hmidi (S i) ltac:(fold n; lia)).
    pose proof (note_le_next_boundary notes Hs Hmidi (S i) ltac:(fold n; lia)).
    lia. }
  intros k i j Hij Hki Hkj. unfold in_keys in Hki, Hkj.
  rewrite Hlo, Hhi in Hki, Hkj by lia.
  destruct (Nat.eq_dec j (S i)) as [->|Hne'].
  - split; [reflexivity|]. rewrite Hhi by lia. lia.
  - pose proof (boundary_strict notes Hs Hmidi (S i) j ltac:(fold n; lia)).
    lia.
Qed.

Lemma sorted_60_64_67 : StronglySorted Z.lt [60; 64; 67].
Proof. repeat constructor; lia. Qed.

Lemma midi_60_64_67 : Forall (fun a => 0 <= a <= 127) [60; 64; 67].
Proof. repeat constructor; lia. Qed.

Lemma positive_frames_3 (f0 f1 f2 : Z) :
  0 < f0 -> 0 < f1 -> 0 < f2 ->
  forall i, (i < 3)%nat -> 0 < nth i [f0; f1; f2] 0.
Proof. intros H0 H1 H2 [|[|[|i]]] Hi; simpl; lia. Qed.

Lemma C3_key_ranges_chain_witness :
  let rs := buildAcDryRegions [60; 64; 67] [5; 6; 7] in
  length rs = 3%nat /\
  sample_hikey (nth 0 rs no_region) = sample_lokey (nth 1 rs no_region).
Proof.
  pose proof (C3_key_ranges_chain [60; 64; 67] [5; 6; 7]
                ltac:(discriminate) sorted_60_64_67 midi_60_64_67
                (positive_frames_3 5 6 7 ltac:(lia) ltac:(lia) ltac:(lia)))
    as H.
  cbv zeta in H. destruct H as (Hlen & _ & _ & Hchain & _).
  split; [exact Hlen | apply (Hchain 0%nat); simpl; lia].
Defined.

Example key_ranges_60_64_67 :
  map (fun r => (sample_lokey r, sample_hikey r))
      (buildAcDryRegions [60; 64; 67] [5; 6; 7])
  = [(0, 62); (62, 66); (66, 127)].
Proof. reflexivity. Qed.

(** ** WAV header parser *)

Import WavInfo.

Lemma view_bytes_in (view : list byte) (off : Z) (n : nat) :
  0 <= off -> off + Z.of_nat n <= Z.of_nat (length view) ->
  view_bytes view off n = Ok (bytes_at view off n).
Proof.
  intros H0 H1. unfold view_bytes.
  destruct (0 <=? off) eqn:E0; [|apply Z.leb_gt in E0; lia].
  destruct (off + Z.of_nat n <=? Z.of_nat (length view)) eqn:E1;
    [|apply Z.leb_gt in E1; lia].
  reflexivity.
Qed.

Lemma skipn_cons_nth {A : Type} (l : list A) (k : nat) (d : A) :
  (k < length l)%nat -> skipn k l = nth k l d :: skipn (S k) l.
Proof.
  revert l. induction k as [|k IH]; intros [|a l] Hk; simpl in *; try lia.
  - reflexivity.
  - apply IH. lia.
Qed.

Lemma bytes_at_1 (view : list byte) (off : Z) :
  0 <= off -> off + 1 <= Z.of_nat (length view) ->
  bytes_at view off 1 = [nth (Z.to_nat off) view Byte.x00].
Proof.
  intros H0 H1. unfold bytes_at.
  rewrite (skipn_cons_nth view (Z.to_nat off) Byte.x00) by lia.
  reflexivity.
Qed.

Lemma bytes_at_4 (view : list byte) (off : Z) :
  0 <= off -> off + 4 <= Z.of_nat (length view) ->
  bytes_at view off 4
  = [nth (Z.to_nat off) view Byte.x00; nth (Z.to_nat (off + 1)) view Byte.x00;
     nth (Z.to_nat (off + 2)) view Byte.x00;
     nth (Z.to_nat (off + 3)) view Byte.x00].
Proof.
  intros H0 H1. unfold bytes_at.
  rewrite (skipn_cons_nth view (Z.to_nat off) Byte.x00) by lia.
  rewrite (skipn_cons_nth view (S (Z.to_nat off)) Byte.x00) by lia.
  rewrite (skipn_cons_nth view (S (S (Z.to_nat off))) Byte.x00) by lia.
  rewrite (skipn_cons_nth view (S (S (S (Z.to_nat off)))) Byte.x00) by lia.
  cbn [firstn].
  replace (Z.to_nat (off + 1)) with (S (Z.to_nat off)) by lia.
  replace (Z.to_nat (off + 2)) with (S (S (Z.to_nat off))) by lia.
  replace (Z.to_nat (off + 3)) with (S (S (S (Z.to_nat off)))) by lia.
  reflexivity.
Qed.

Lemma getUint8_in (view : list byte) (off : Z) :
  0 <= off -> off + 1 <= Z.of_nat (length view) ->
  getUint8 view off = Ok (byte.unsigned (nth (Z.to_nat off) view Byte.x00)).
Proof.
  intros H0 H1. unfold getUint8.
  rewrite view_bytes_in by (simpl; lia). cbn [bind].
  rewrite bytes_at_1, le_combine_1 by lia. reflexivity.
Qed.

Lemma readAscii4_in (view : list byte) (off : Z) :
  0 <= off -> off + 4 <= Z.of_nat (length view) ->
  readAscii4 view off = Ok (codes_at view off).
Proof.
  intros H0 H1. unfold readAscii4.
  rewrite !getUint8_in by lia. cbn [bind]. unfold codes_at.
  rewrite bytes_at_4 by lia. reflexivity.
Qed.

Lemma getUint16_in (view : list byte) (off : Z) :
  0 <= off -> off + 2 <= Z.of_nat (length view) ->
  getUint16 view off = Ok (le_combine (bytes_at view off 2)).
Proof.
  intros H0 H1. unfold getUint16.
  rewrite view_bytes_in by (simpl; lia). reflexivity.
Qed.

Lemma getUint32_in (view : list byte) (off : Z) :
  0 <= off -> off + 4 <= Z.of_nat (length view) ->
  getUint32 view off = Ok (size_at view off).
Proof.
  intros H0 H1. unfold getUint32.
  rewrite view_bytes_in by (simpl; lia). reflexivity.
Qed.

Lemma str_eqb_fmt_data (s : list Z) :
  str_eqb s "fmt "%string = true -> str_eqb s "data"%string = false.
Proof.
  unfold str_eqb.
  destruct (list_eq_dec Z.eq_dec s _) as [->|]; [|discriminate].
  intros _. destruct (list_eq_dec Z.eq_dec _ _) as [E|]; [|reflexivity].
  vm_compute in E. discriminate.
Qed.

(** The loop condition and the [break], read off the buffer. *)
Lemma scan_step_stop (view : list byte) (st : scan_state) :
  0 <= offset st -> chunk_at view (offset st) = None ->
  scan_step view st = Ok None.
Proof.
  intros H0 Hc. unfold scan_step, chunk_at in *.
  destruct (0 <=? offset st) eqn:E0; [|apply Z.leb_gt in E0; lia].
  cbn [andb] in Hc.
  destruct (offset st + 8 <=? Z.of_nat (length view)) eqn:E1;
    [|reflexivity].
  apply Z.leb_le in E1.
  rewrite readAscii4_in, getUint32_in by lia. cbn [bind].
  destruct (Z.of_nat (length view) <? _); [reflexivity | discriminate].
Qed.

Lemma scan_step_chunk (view : list byte) (st : scan_state) (c : chunk) :
  0 <= offset st -> chunk_at view (offset st) = Some c ->
  scan_step view st = Ok (Some (apply_chunk view st c)).
Proof.
  intros H0 Hc. unfold scan_step, chunk_at in *.
  destruct (0 <=? offset st) eqn:E0; [|apply Z.leb_gt in E0; lia].
  cbn [andb] in Hc.
  destruct (offset st + 8 <=? Z.of_nat (length view)) eqn:E1;
    [|discriminate].
  apply Z.leb_le in E1.
  rewrite readAscii4_in, getUint32_in by lia. cbn [bind].
  pose proof (le_combine_bound (bytes_at view (offset st + 4) 4)) as Hsz.
  fold (size_at view (offset st + 4)) in Hsz.
  destruct (Z.of_nat (length view) <? _) eqn:E2; [discriminate|].
  apply Z.ltb_ge in E2. injection Hc as <-.
  unfold apply_chunk, is_fmt16, is_fmt, is_data, fmt_fields, next_offset,
    read_fmt.
  cbn [chunkId chunkSize chunkDataOffset].
  destruct (str_eqb _ "fmt "%string) eqn:Ef.
  - cbn [andb negb].
    destruct (16 <=? _) eqn:E16.
    + apply Z.leb_le in E16.
      rewrite !getUint16_in, getUint32_in by lia. reflexivity.
    + destruct st; reflexivity.
  - cbn [andb negb]. destruct (str_eqb _ "data"%string); destruct st; reflexivity.
Qed.

Lemma chunk_at_offset (view : list byte) (off : Z) (c : chunk) :
  chunk_at view off = Some c ->
  0 <= off /\ off + 8 <= next_offset c /\ chunkDataOffset c = off + 8
  /\ chunkDataOffset c + chunkSize c <= Z.of_nat (length view)
  /\ 0 <= chunkSize c.
Proof.
  unfold chunk_at. intros Hc.
  destruct (0 <=? off) eqn:E0; [|discriminate]. apply Z.leb_le in E0.
  destruct (off + 8 <=? _) eqn:E1; [|discriminate].
  cbn [andb] in Hc.
  pose proof (le_combine_bound (bytes_at view (off + 4) 4)) as Hsz.
  fold (size_at view (off + 4)) in Hsz.
  destruct (Z.of_nat (length view) <? _) eqn:E2; [discriminate|].
  apply Z.ltb_ge in E2. injection Hc as <-. unfold next_offset.
  cbn [chunkSize chunkDataOffset].
  pose proof (Z.mod_pos_bound (size_at view (off + 4)) 2 ltac:(lia)).
  lia.
Qed.

Lemma scan_unfold (view : list byte) (st : scan_state) :
  scan view st
  = match scan_step view st with
    | Ok (Some st') => scan view st'
    | Ok None => Ok st
    | Throw e => Throw e
    end.
Proof.
  rewrite scan_equation_1.
  destruct (inspect (scan_step view st)) as [[[st'|]|e] E];
    cbn [scan_unfold_clause_1]; rewrite E; reflexivity.
Qed.

Lemma walk_unfold (view : list byte) (off : Z) :
  walk view off
  = match chunk_at view off with
    | Some c => c :: walk view (next_offset c)
    | None => []
    end.
Proof.
  rewrite walk_equation_1.
  destruct (inspect (chunk_at view off)) as [[c|] E];
    cbn [walk_unfold_clause_1]; rewrite E; reflexivity.
Qed.

(** The loop ends, raises nothing, and its final state is the fold of
    [apply_chunk] over the chunks walked. *)
Lemma scan_walk (view : list byte) (n : nat) :
  forall st, 0 <= offset st ->
    (Z.to_nat (Z.of_nat (length view) - offset st) <= n)%nat ->
    scan view st
    = Ok (fold_left (apply_chunk view) (walk view (offset st)) st).
Proof.
  induction n as [|n IH]; intros st H0 Hn;
    rewrite scan_unfold, walk_unfold;
    destruct (chunk_at view (offset st)) as [c|] eqn:Hc.
  - apply chunk_at_offset in Hc. unfold next_offset in Hc. lia.
  - now rewrite scan_step_stop.
  - rewrite (scan_step_chunk view st c) by assumption.
    pose proof (chunk_at_offset _ _ _ Hc) as (_ & Hnext & _ & Hend & Hsz).
    assert (Hoff : offset (apply_chunk view st c) = next_offset c).
    { unfold apply_chunk. destruct (is_fmt16 c);
        [destruct (fmt_fields view c) as [[? ?] ?]|]; reflexivity. }
    destruct (Z_le_gt_dec (next_offset c) (Z.of_nat (length view))).
    + rewrite IH by (rewrite Hoff; lia). rewrite Hoff. reflexivity.
    + rewrite scan_unfold, (walk_unfold view (next_offset c)).
      assert (Hnone : chunk_at view (next_offset c) = None).
      { unfold chunk_at.
        destruct (next_offset c + 8 <=? Z.of_nat (length view)) eqn:E;
          [apply Z.leb_le in E; lia|].
        now rewrite andb_false_r. }
      rewrite Hnone, scan_step_stop
        by (rewrite Hoff; first [lia | exact Hnone]).
      reflexivity.
  - now rewrite scan_step_stop.
Qed.

Lemma scan_total (view : list byte) (st : scan_state) :
  0 <= offset st ->
  scan view st = Ok (fold_left (apply_chunk view) (walk view (offset st)) st).
Proof.
  intros H0.
  apply (scan_walk view (Z.to_nat (Z.of_nat (length view) - offset st)));
    [assumption | lia].
Qed.

(** *** The last chunk of a kind *)

Lemma last_such_snoc (p : chunk -> bool) (cs : list chunk) (c : chunk) :
  last_such p (cs ++ [c]) = if p c then Some c else last_such p cs.
Proof.
  unfold last_such. rewrite filter_app. cbn [filter].
  destruct (p c).
  - rewrite map_app. cbn [map]. apply last_last.
  - now rewrite app_nil_r.
Qed.

Lemma is_data_not_fmt (c : chunk) :
  negb (is_fmt c) && is_data c = is_data c.
Proof.
  unfold is_fmt, is_data. destruct (str_eqb (chunkId c) "fmt "%string) eqn:E.
  - now rewrite (str_eqb_fmt_data _ E).
  - reflexivity.
Qed.

Lemma fold_apply_chunk (view : list byte) (cs : list chunk) (st : scan_state) :
  let st' := fold_left (apply_chunk view) cs st in
  fmt_of st' = match last_such is_fmt16 cs with
               | Some c => fmt_fields view c
               | None => fmt_of st
               end /\
  st_dataBytes st' = match last_such is_data cs with
                     | Some c => chunkSize c
                     | None => st_dataBytes st
                     end.
Proof.
  induction cs as [|c cs IH] using rev_ind; [split; reflexivity|].
  cbv zeta in *. rewrite fold_left_app. cbn [fold_left].
  rewrite !last_such_snoc. destruct IH as [IHf IHd].
  unfold apply_chunk at 1 3. rewrite is_data_not_fmt. split.
  - destruct (is_fmt16 c).
    + destruct (fmt_fields view c) as [[ch sr] bits]. reflexivity.
    + exact IHf.
  - destruct (is_fmt16 c);
      [destruct (fmt_fields view c) as [[ch sr] bits]|];
      cbn [st_dataBytes]; destruct (is_data c); auto.
Qed.

Lemma scan_init (buf : list byte) : scan buf init_state = Ok (scan_result buf).
Proof. apply (scan_total buf init_state). simpl. lia. Qed.

(** C8 (as the code has it). The parser ends with the format fields of the
    last [fmt ] chunk of declared size 16 or more among the chunks walked,
    and with the size of the last [data] chunk walked; it ends with zeros
    where there is no such chunk.  A later [fmt ] chunk shorter than 16
    bytes overwrites nothing. *)
Theorem C8_last_chunk_wins (buf : list byte) :
  exists st,
    scan buf init_state = Ok st /\
    fmt_of st = match last_such is_fmt16 (walk buf 12) with
                | Some c => fmt_fields buf c
                | None => (0, 0, 0)
                end /\
    st_dataBytes st = match last_such is_data (walk buf 12) with
                      | Some c => chunkSize c
                      | None => 0
                      end.
Proof.
  exists (scan_result buf). split; [apply scan_init|].
  exact (fold_apply_chunk buf (walk buf 12) init_state).
Qed.

(** C8 as stated fails: in [two_fmt_wav] the last [fmt ] chunk walked is
    the 14-byte one, which stores 1 channel and 22050 Hz, and the parser
    reports the 2 channels and 44100 Hz of the earlier one. *)
Lemma C8_short_fmt_chunk_does_not_overwrite :
  map (fun c => (chunkId c, chunkSize c)) (walk two_fmt_wav 12)
  = [(ascii "fmt ", 16); (ascii "fmt ", 14); (ascii "data", 2)] /\
  (exists c,
     last_such is_fmt (walk two_fmt_wav 12) = Some c /\
     chunkSize c = 14 /\
     fst (fmt_fields two_fmt_wav c) = (1, 22050)) /\
  (exists d,
     readWavInfo two_fmt_wav = Ok (mkWavInfo 2 44100 16 2 d)) /\
  ~ (forall st c,
       scan two_fmt_wav init_state = Ok st ->
       last_such is_fmt (walk two_fmt_wav 12) = Some c ->
       fmt_of st = fmt_fields two_fmt_wav c).
Proof.
  split; [vm_compute; reflexivity|].
  split; [eexists; vm_compute; repeat split|].
  split; [eexists; vm_compute; reflexivity|].
  intros H.
  specialize (H (mkScan 68 2 44100 16 2) (mkChunk (ascii "fmt ") 14 44)
                ltac:(vm_compute; reflexivity) ltac:(vm_compute; reflexivity)).
  vm_compute in H. discriminate.
Qed.

(** *** When the parser fails *)

Lemma readWavInfo_unfold (buf : list byte) :
  12 <= Z.of_nat (length buf) ->
  readWavInfo buf
  = if negb (str_eqb (codes_at buf 0) "RIFF")
       || negb (str_eqb (codes_at buf 8) "WAVE")
    then Throw InvalidRiffWaveHeader
    else
      let st := scan_result buf in
      if (st_channels st =? 0) || (st_sampleRate st =? 0)
         || (st_bitsPerSample st =? 0) || (st_dataBytes st =? 0)
      then Throw MissingFmtOrData
      else
        let byteRate :=
          byte_rate (st_sampleRate st) (st_channels st) (st_bitsPerSample st) in
        if byte_rate_invalid byteRate then Throw InvalidByteRate
        else
          Ok (mkWavInfo (st_channels st) (st_sampleRate st)
                (st_bitsPerSample st) (st_dataBytes st)
                (Number.div (Number.of_Z (st_dataBytes st)) byteRate)).
Proof.
  intros Hlen. unfold readWavInfo.
  destruct (Z.of_nat (length buf) <? 12) eqn:E; [apply Z.ltb_lt in E; lia|].
  rewrite !readAscii4_in by lia. cbn [bind].
  destruct (negb _ || negb _); [reflexivity|].
  rewrite scan_init. reflexivity.
Qed.

Lemma str_eqb_false_iff (s : list Z) (lit : String.string) :
  str_eqb s lit = false <-> s <> ascii lit.
Proof.
  unfold str_eqb. destruct (list_eq_dec Z.eq_dec s (ascii lit)); split;
    intros; congruence.
Qed.

Lemma missing_fmt_or_data_iff (st : scan_state) :
  (st_channels st =? 0) || (st_sampleRate st =? 0)
  || (st_bitsPerSample st =? 0) || (st_dataBytes st =? 0) = true
  <-> missing_fmt_or_data st.
Proof.
  unfold missing_fmt_or_data.
  rewrite !orb_true_iff, !Z.eqb_eq. tauto.
Qed.

(** C4. [readWavInfo] throws exactly when the buffer is shorter than 12
    bytes, or its first four bytes are not [RIFF], or bytes 8 to 11 are not
    [WAVE], or one of channels, sample rate, bits per sample and data
    length is zero when the scan ends, or the byte rate is not finite or
    not positive; it throws nothing but these four errors.  The scan itself
    always ends without an exception, and a chunk whose declared size runs
    past the end of the buffer stops it with the values found so far. *)
Theorem C4_readWavInfo_fails_iff (buf : list byte) :
  let byteLength := Z.of_nat (length buf) in
  (exists st,
     scan buf init_state = Ok st /\
     ((exists e, readWavInfo buf = Throw e) <->
      (byteLength < 12
       \/ codes_at buf 0 <> ascii "RIFF"
       \/ codes_at buf 8 <> ascii "WAVE"
       \/ missing_fmt_or_data st
       \/ byte_rate_invalid
            (byte_rate (st_sampleRate st) (st_channels st)
               (st_bitsPerSample st)) = true))) /\
  (forall e,
     readWavInfo buf = Throw e ->
     In e [FileTooSmall; InvalidRiffWaveHeader; MissingFmtOrData;
           InvalidByteRate]) /\
  (forall st0,
     0 <= offset st0 -> offset st0 + 8 <= byteLength ->
     byteLength < offset st0 + 8 + size_at buf (offset st0 + 4) ->
     scan buf st0 = Ok st0).
Proof.
  intros byteLength. subst byteLength. split; [|split].
  - exists (scan_result buf). split; [apply scan_init|].
    destruct (Z_lt_ge_dec (Z.of_nat (length buf)) 12) as [Hlt|Hge].
    { split; [intros _; left; exact Hlt|]. intros _. exists FileTooSmall.
      unfold readWavInfo.
      destruct (Z.of_nat (length buf) <? 12) eqn:E;
        [reflexivity | apply Z.ltb_ge in E; lia]. }
    rewrite readWavInfo_unfold by lia.
    rewrite <- !str_eqb_false_iff, <- missing_fmt_or_data_iff.
    destruct (str_eqb (codes_at buf 0) "RIFF");
      [|split; [intros _; right; left; reflexivity|]; intros _; eexists;
        reflexivity].
    destruct (str_eqb (codes_at buf 8) "WAVE");
      [|split; [intros _; right; right; left; reflexivity|]; intros _;
        eexists; reflexivity].
    cbn [negb orb]. cbv zeta.
    destruct (_ || _ || _ || _);
      [split; [intros _; do 3 right; left; reflexivity|]; intros _; eexists;
        reflexivity|].
    destruct (byte_rate_invalid _);
      [split; [intros _; do 4 right; reflexivity|]; intros _; eexists;
        reflexivity|].
    split.
    + intros [e He]. discriminate.
    + intros [H|[H|[H|[H|H]]]]; try discriminate. lia.
  - intros e.
    destruct (Z_lt_ge_dec (Z.of_nat (length buf)) 12) as [Hlt|Hge].
    { unfold readWavInfo.
      destruct (Z.of_nat (length buf) <? 12) eqn:E;
        [|apply Z.ltb_ge in E; lia].
      intros [= <-]. simpl. tauto. }
    rewrite readWavInfo_unfold by lia.
    destruct (negb _ || negb _); [intros [= <-]; simpl; tauto|]. cbv zeta.
    destruct (_ || _ || _ || _); [intros [= <-]; simpl; tauto|].
    destruct (byte_rate_invalid _); [intros [= <-]; simpl; tauto|].
    discriminate.
  - intros st0 H0 H8 Hrun. rewrite scan_unfold, scan_step_stop; trivial.
    unfold chunk_at.
    destruct (Z.of_nat (length buf) <? offset st0 + 8 + _) eqn:E;
      [|apply Z.ltb_ge in E; lia].
    now destruct (_ && _).
Qed.

Lemma C4_readWavInfo_fails_iff_witness :
  scan truncated_wav (mkScan 68 2 44100 16 2) = Ok (mkScan 68 2 44100 16 2).
Proof.
  destruct (C4_readWavInfo_fails_iff truncated_wav) as (_ & _ & Htrunc).
  apply Htrunc; vm_compute; congruence.
Defined.

Example truncated_wav_parses :
  exists d, readWavInfo truncated_wav = Ok (mkWavInfo 2 44100 16 2 d).
Proof. eexists. vm_compute. reflexivity. Qed.

Example short_buffer_rejected :
  readWavInfo (char_codes "RIFF") = Throw FileTooSmall.
Proof. reflexivity. Qed.

(** ** PCM16 quantizer *)

Import Quantizer.

Example clampInt16_one : clampInt16 (Number.of_Z 1) = 32767.
Proof. reflexivity. Qed.

Example clampInt16_half :
  clampInt16 (Number.div (Number.of_Z 1) (Number.of_Z 2)) = 16383.
Proof. reflexivity. Qed.

Example clampInt16_minus_half :
  clampInt16 (Number.div (Number.of_Z (-1)) (Number.of_Z 2)) = -16384.
Proof. reflexivity. Qed.

(** *** Shifts, digits and rounding of [SpecFloat] *)

Lemma digits2_pos_bounds (p : positive) :
  2 ^ (Zpos (digits2_pos p) - 1) <= Zpos p < 2 ^ Zpos (digits2_pos p).
Proof.
  induction p as [p IH|p IH|]; cbn [digits2_pos].
  - rewrite Pos2Z.inj_succ.
    replace (Z.succ (Zpos (digits2_pos p)) - 1)
      with (Z.succ (Zpos (digits2_pos p) - 1)) by lia.
    rewrite !Z.pow_succ_r by lia. lia.
  - rewrite Pos2Z.inj_succ.
    replace (Z.succ (Zpos (digits2_pos p)) - 1)
      with (Z.succ (Zpos (digits2_pos p) - 1)) by lia.
    rewrite !Z.pow_succ_r by lia. lia.
  - simpl. lia.
Qed.

Lemma shr_1_m (mrs : shr_record) :
  0 <= shr_m mrs -> shr_m (shr_1 mrs) = shr_m mrs / 2.
Proof.
  destruct mrs as [m r s]. cbn [shr_m]. intros Hm. unfold shr_1.
  destruct m as [|[p|p|]|p]; cbn [shr_m];
    Z.to_euclidean_division_equations; lia.
Qed.

Lemma pow2_xI (p : positive) : 2 ^ Zpos p~1 = 2 * (2 ^ Zpos p * 2 ^ Zpos p).
Proof.
  replace (Zpos p~1) with (1 + (Zpos p + Zpos p)) by lia.
  rewrite !Z.pow_add_r by lia. reflexivity.
Qed.

Lemma pow2_xO (p : positive) : 2 ^ Zpos p~0 = 2 ^ Zpos p * 2 ^ Zpos p.
Proof.
  replace (Zpos p~0) with (Zpos p + Zpos p) by lia.
  rewrite Z.pow_add_r by lia. reflexivity.
Qed.

Lemma pow2_pos (k : Z) : 0 <= k -> 0 < 2 ^ k.
Proof. intros. apply Z.pow_pos_nonneg; lia. Qed.

Lemma iter_shr_1_m (p : positive) :
  forall mrs, 0 <= shr_m mrs ->
    shr_m (iter_pos shr_1 p mrs) = shr_m mrs / 2 ^ Zpos p
    /\ 0 <= shr_m (iter_pos shr_1 p mrs).
Proof.
  induction p as [p IH|p IH|]; intros mrs Hm; cbn [iter_pos].
  - pose proof (pow2_pos (Zpos p) ltac:(lia)) as Hp.
    assert (H1 : 0 <= shr_m (shr_1 mrs)).
    { rewrite shr_1_m by assumption. apply Z.div_pos; lia. }
    destruct (IH _ H1) as [E2 H2]. destruct (IH _ H2) as [E3 H3].
    split; [|exact H3].
    rewrite E3, E2, shr_1_m, pow2_xI by assumption.
    rewrite !Z.div_div by lia. reflexivity.
  - pose proof (pow2_pos (Zpos p) ltac:(lia)) as Hp.
    destruct (IH _ Hm) as [E2 H2]. destruct (IH _ H2) as [E3 H3].
    split; [|exact H3].
    rewrite E3, E2, pow2_xO. rewrite Z.div_div by lia. reflexivity.
  - rewrite shr_1_m by assumption. split; [reflexivity|].
    apply Z.div_pos; lia.
Qed.

Lemma shr_spec (m : Z) (l : location) (e n : Z) :
  0 <= m ->
  snd (shr (shr_record_of_loc m l) e n) = e + Z.max 0 n /\
  shr_m (fst (shr (shr_record_of_loc m l) e n)) = m / 2 ^ Z.max 0 n /\
  0 <= shr_m (fst (shr (shr_record_of_loc m l) e n)).
Proof.
  intros Hm.
  assert (Hrec : shr_m (shr_record_of_loc m l) = m)
    by (destruct l as [|[| |]]; reflexivity).
  unfold shr. destruct n as [|p|p]; cbn [fst snd].
  - rewrite Hrec. simpl. rewrite Z.div_1_r. split; [lia | split; lia].
  - replace (Z.max 0 (Zpos p)) with (Zpos p) by lia.
    destruct (iter_shr_1_m p (shr_record_of_loc m l)) as [E H];
      [rewrite Hrec; exact Hm|].
    rewrite Hrec in E. auto.
  - rewrite Hrec. replace (Z.max 0 (Zneg p)) with 0 by lia.
    simpl. rewrite Z.div_1_r. split; [lia | split; lia].
Qed.

Lemma round_nearest_even_bounds (m : Z) (l : location) :
  m <= round_nearest_even m l <= m + 1.
Proof.
  unfold round_nearest_even.
  destruct l as [|[| |]]; try lia. destruct (Z.even m); lia.
Qed.

(** Rounding a positive mantissa [P] at exponent [E]: the result is no
    larger than [P] plus one unit of the first shift, both read at
    exponent [E]. *)
Lemma binary_round_aux_bound (sx : bool) (P : positive) (E : Z) :
  let k1 := Z.max 0 (fexp Number.prec Number.emax (Zdigits2 (Zpos P) + E) - E) in
  match binary_round_aux Number.prec Number.emax sx (Zpos P) E loc_Exact with
  | S754_finite s m e =>
      s = sx /\ E <= e /\ Zpos m * 2 ^ (e - E) <= Zpos P + 2 ^ k1
  | S754_nan => False
  | _ => True
  end.
Proof.
  intros k1. unfold binary_round_aux, shr_fexp.
  set (n1 := fexp Number.prec Number.emax (Zdigits2 (Zpos P) + E) - E) in *.
  destruct (shr_spec (Zpos P) loc_Exact E n1 ltac:(lia)) as (He1 & Hm1 & Hp1).
  destruct (shr (shr_record_of_loc (Zpos P) loc_Exact) E n1) as [mrs1 e1].
  cbn [fst snd] in He1, Hm1, Hp1. fold k1 in He1, Hm1.
  set (m1 := round_nearest_even (shr_m mrs1) (loc_of_shr_record mrs1)).
  pose proof (round_nearest_even_bounds (shr_m mrs1) (loc_of_shr_record mrs1))
    as Hr. fold m1 in Hr.
  set (n2 := fexp Number.prec Number.emax (Zdigits2 m1 + e1) - e1).
  destruct (shr_spec m1 loc_Exact e1 n2 ltac:(lia)) as (He2 & Hm2 & Hp2).
  destruct (shr (shr_record_of_loc m1 loc_Exact) e1 n2) as [mrs2 e2].
  cbn [fst snd] in He2, Hm2, Hp2.
  destruct (shr_m mrs2) as [|m2|m2] eqn:Em2; [exact I | | lia].
  destruct (e2 <=? Number.emax - Number.prec); [|exact I].
  split; [reflexivity|]. split; [lia|].
  set (k2 := Z.max 0 n2) in *.
  assert (Hk1 : 0 <= k1) by (subst k1; lia).
  assert (Hk2 : 0 <= k2) by (subst k2; lia).
  pose proof (pow2_pos k1 Hk1) as Hq1. pose proof (pow2_pos k2 Hk2) as Hq2.
  replace (e2 - E) with (k2 + k1) by lia.
  rewrite Z.pow_add_r by assumption.
  pose proof (Z.mul_div_le m1 (2 ^ k2) Hq2) as Hd2.
  pose proof (Z.mul_div_le (Zpos P) (2 ^ k1) Hq1) as Hd1.
  rewrite <- Hm2 in Hd2. rewrite <- Hm1 in Hd1.
  assert (Hstep : Zpos m2 * 2 ^ k2 <= m1) by lia.
  transitivity (m1 * 2 ^ k1).
  - rewrite Z.mul_assoc. apply Z.mul_le_mono_nonneg_r; lia.
  - transitivity ((shr_m mrs1 + 1) * 2 ^ k1).
    + apply Z.mul_le_mono_nonneg_r; lia.
    + lia.
Qed.

(** A binary64 mantissa has at most 53 bits, and exactly 53 above the
    subnormal range. *)
Lemma binary64_finite (s : bool) (m : positive) (e : Z) :
  is_binary64 (S754_finite s m e) ->
  Zpos m < 2 ^ 53 /\ (-1074 < e -> 2 ^ 52 <= Zpos m).
Proof.
  unfold is_binary64, valid_binary, bounded, canonical_mantissa, fexp, emin.
  intros H. apply andb_prop in H. destruct H as [H _].
  apply Z.eqb_eq in H. unfold Number.prec, Number.emax in H.
  pose proof (digits2_pos_bounds m) as [Hlo Hhi].
  split.
  - apply Z.lt_le_trans with (1 := Hhi).
    apply Z.pow_le_mono_r; lia.
  - intros He.
    assert (Hd : Zpos (digits2_pos m) = 53) by lia.
    rewrite Hd in Hlo. exact Hlo.
Qed.

(** The integer part of a finite number, from its value scaled to a lower
    exponent. *)
Lemma truncate_abs_bound (m : positive) (e E B : Z) :
  E <= e -> E <= 0 -> 0 <= B ->
  Zpos m * 2 ^ (e - E) < (B + 1) * 2 ^ (- E) ->
  0 <= (if 0 <=? e then Zpos m * 2 ^ e else Zpos m / 2 ^ (- e)) <= B.
Proof.
  intros HEe HE HB Hlt.
  destruct (0 <=? e) eqn:He; [apply Z.leb_le in He | apply Z.leb_gt in He].
  - pose proof (pow2_pos e He) as Hpe.
    pose proof (pow2_pos (- E) ltac:(lia)) as HpE.
    replace (e - E) with (e + - E) in Hlt by lia.
    rewrite Z.pow_add_r, Z.mul_assoc in Hlt by lia.
    apply Z.mul_lt_mono_pos_r in Hlt; [|assumption].
    split; [|lia]. apply Z.mul_nonneg_nonneg; lia.
  - pose proof (pow2_pos (- e) ltac:(lia)) as Hpe.
    pose proof (pow2_pos (e - E) ltac:(lia)) as Hpd.
    split; [apply Z.div_pos; lia|].
    apply Z.lt_succ_r. apply Z.div_lt_upper_bound; [assumption|].
    replace (- E) with (- e + (e - E)) in Hlt by lia.
    rewrite Z.pow_add_r in Hlt by lia.
    replace (Z.succ B) with (B + 1) by lia.
    rewrite (Z.mul_comm (2 ^ (- e))).
    rewrite Z.mul_assoc in Hlt.
    apply Z.mul_lt_mono_pos_r in Hlt; assumption.
Qed.

(** Scaling a binary64 number of magnitude below 1 by a constant [B] of at
    most 2^15, held as mantissa [c] at exponent [ec]: the integer part of
    the rounded product stays within [B] of zero, on the side of the sign. *)
Lemma truncate_mul_bound (s : bool) (m c : positive) (e ec B : Z) :
  Zpos m < 2 ^ 53 -> e <= -53 -> ec <= 0 -> 0 < B <= 2 ^ 15 ->
  Zpos c = B * 2 ^ (- ec) ->
  let t := Number.truncate
             (Number.mul (S754_finite s m e) (S754_finite false c ec)) in
  if s then - B <= t <= 0 else 0 <= t <= B.
Proof.
  intros Hm He Hec HB Hc t. subst t.
  unfold Number.mul, SFmul.
  pose proof (binary_round_aux_bound (xorb s false) (m * c) (e + ec)) as Hb.
  cbv zeta in Hb.
  set (E := e + ec) in *. set (P := (m * c)%positive) in *.
  assert (HP : Zpos P = Zpos m * (B * 2 ^ (- ec)))
    by (subst P; rewrite Pos2Z.inj_mul, Hc; reflexivity).
  pose proof (pow2_pos (- ec) ltac:(lia)) as Hpec.
  pose proof (pow2_pos (- e) ltac:(lia)) as Hpe.
  pose proof (pow2_pos (- E) ltac:(subst E; lia)) as HpE.
  assert (HE2 : 2 ^ (- E) = 2 ^ (- e) * 2 ^ (- ec)).
  { subst E. replace (- (e + ec)) with (- e + - ec) by lia.
    apply Z.pow_add_r; lia. }
  assert (H53 : 2 ^ 53 <= 2 ^ (- e)) by (apply Z.pow_le_mono_r; lia).
  assert (HPlt : Zpos P < B * 2 ^ (- E)).
  { rewrite HP, HE2.
    set (a := 2 ^ (- e)) in *. set (b := 2 ^ (- ec)) in *.
    assert (0 < (a - Zpos m) * (B * b))
      by (apply Z.mul_pos_pos; [lia | apply Z.mul_pos_pos; lia]).
    nia. }
  pose proof (digits2_pos_bounds P) as [Hdlo _].
  assert (Hd : Zpos (digits2_pos P) + E <= 15).
  { assert (H15 : B * 2 ^ (- E) <= 2 ^ (15 - E)).
    { replace (15 - E) with (15 + - E) by lia.
      rewrite Z.pow_add_r by (subst E; lia).
      apply Z.mul_le_mono_nonneg_r; lia. }
    assert (Hlt : 2 ^ (Zpos (digits2_pos P) - 1) < 2 ^ (15 - E)) by lia.
    apply Z.pow_lt_mono_r_iff in Hlt; subst E; lia. }
  set (k1 := Z.max 0 (fexp Number.prec Number.emax (Zdigits2 (Zpos P) + E) - E))
    in *.
  assert (Hk1 : 0 <= k1 <= - 38 - E).
  { subst k1. unfold fexp, emin, Number.prec, Number.emax.
    cbn [Zdigits2]. subst E. lia. }
  assert (H2k : 2 ^ k1 <= 2 ^ (- E))
    by (apply Z.pow_le_mono_r; subst E; lia).
  destruct (binary_round_aux Number.prec Number.emax (xorb s false) (Zpos P) E
              loc_Exact) as [s'|s'| |s' m' e'] eqn:Er.
  - cbn [Number.truncate]. destruct s; lia.
  - cbn [Number.truncate]. destruct s; lia.
  - contradiction.
  - destruct Hb as (Hs & HEe & HV).
    pose proof (truncate_abs_bound m' e' E B HEe ltac:(subst E; lia)
                  ltac:(lia) ltac:(lia)) as Ht.
    cbn [Number.truncate]. rewrite Hs, xorb_false_r.
    destruct s; lia.
Qed.

(** *** The clamp *)

Lemma of_Z_1 : Number.of_Z 1 = one.
Proof. reflexivity. Qed.

Lemma of_Z_m1 : Number.of_Z (-1) = minus_one.
Proof. reflexivity. Qed.

Lemma pow2_52 : 2 ^ 52 = 4503599627370496.
Proof. reflexivity. Qed.

(** A finite binary64 number is clamped to 1, clamped to -1, or left alone,
    and then it is 1, -1 or of magnitude below 1. *)
Lemma clamp_finite (s : bool) (m : positive) (e : Z) :
  is_binary64 (S754_finite s m e) ->
  clamp (S754_finite s m e) = one \/
  clamp (S754_finite s m e) = minus_one \/
  (clamp (S754_finite s m e) = S754_finite s m e /\ e <= -53).
Proof.
  intros Hv. destruct (binary64_finite s m e Hv) as [Hm53 Hm52].
  unfold clamp. rewrite of_Z_1, of_Z_m1.
  destruct (Number.ltb one (S754_finite s m e)) eqn:E1; [left; reflexivity|].
  destruct (Number.ltb (S754_finite s m e) minus_one) eqn:E2;
    [right; left; reflexivity|].
  unfold Number.ltb, SFltb, SFcompare, one, minus_one in E1, E2.
  destruct s.
  - (* negative *)
    destruct (Z.compare_spec e (-52)) as [He|He|He]; try discriminate.
    + subst e. specialize (Hm52 ltac:(lia)).
      destruct (Pos.compare_cont Eq m 4503599627370496) eqn:Hc;
        try discriminate.
      * apply Pos.compare_eq in Hc. subst m. right; left; reflexivity.
      * apply Pos.compare_lt_iff in Hc. apply Pos2Z.pos_lt_pos in Hc.
        rewrite pow2_52 in Hm52. lia.
    + right; right. split; [reflexivity | lia].
  - (* positive *)
    destruct (Z.compare_spec (-52) e) as [He|He|He]; try discriminate.
    + subst e. specialize (Hm52 ltac:(lia)).
      destruct (Pos.compare_cont Eq 4503599627370496 m) eqn:Hc;
        try discriminate.
      * apply Pos.compare_eq in Hc. subst m. left; reflexivity.
      * apply Pos.compare_gt_iff in Hc. apply Pos2Z.pos_lt_pos in Hc.
        rewrite pow2_52 in Hm52. lia.
    + right; right. split; [reflexivity | lia].
Qed.

Lemma clampInt16_eq (x : Number.number) :
  clampInt16 x = Number.ToInt32 (scaled (clamp x)).
Proof. reflexivity. Qed.

Lemma scaled_range (x : Number.number) :
  is_binary64 x ->
  -32768 <= Number.truncate (scaled (clamp x)) <= 32767.
Proof.
  intros Hv. destruct x as [s|s| |s m e].
  - destruct s; vm_compute; split; discriminate.
  - destruct s; vm_compute; split; discriminate.
  - vm_compute; split; discriminate.
  - destruct (clamp_finite s m e Hv) as [-> | [-> | [-> He]]].
    + vm_compute; split; discriminate.
    + vm_compute; split; discriminate.
    + destruct (binary64_finite s m e Hv) as [Hm53 _].
      unfold scaled, Number.ltb, SFltb.
      destruct s.
      * change (SFcompare (S754_finite true m e) (Number.of_Z 0))
          with (Some Lt).
        change (Number.of_Z 32768)
          with (S754_finite false 4503599627370496 (-37)).
        pose proof (truncate_mul_bound true m 4503599627370496 e (-37) 32768
                      Hm53 He ltac:(lia) ltac:(lia) ltac:(reflexivity)) as H.
        cbv beta iota zeta in H. lia.
      * change (SFcompare (S754_finite false m e) (Number.of_Z 0))
          with (Some Gt).
        change (Number.of_Z 32767)
          with (S754_finite false 9006924376834048 (-38)).
        pose proof (truncate_mul_bound false m 9006924376834048 e (-38) 32767
                      Hm53 He ltac:(lia) ltac:(lia) ltac:(reflexivity)) as H.
        cbv beta iota zeta in H. lia.
Qed.

Lemma ToInt32_truncate (y : Number.number) :
  - 2 ^ 31 <= Number.truncate y < 2 ^ 31 ->
  Number.ToInt32 y = Number.truncate y.
Proof.
  intros H. unfold Number.ToInt32.
  change (2 ^ 31) with 2147483648 in *. change (2 ^ 32) with 4294967296 in *.
  destruct (2147483648 <=? Number.truncate y mod 4294967296) eqn:E;
    [apply Z.leb_le in E | apply Z.leb_gt in E];
    Z.to_euclidean_division_equations; lia.
Qed.

Lemma SFcompare_antisym (x y : Number.number) :
  SFcompare y x = option_map CompOpp (SFcompare x y).
Proof.
  destruct x as [sx|sx| |sx mx ex], y as [sy|sy| |sy my ey];
    try destruct sx; try destruct sy; try reflexivity;
    cbn [SFcompare option_map]; rewrite (Z.compare_antisym ey ex);
    destruct (ey ?= ex); cbn [CompOpp]; try reflexivity;
    rewrite (Pos.compare_cont_antisym mx my Eq); cbn [CompOpp];
    try reflexivity.
Qed.

Lemma leb_not_ltb (x y : Number.number) :
  Number.leb x y = true -> Number.ltb y x = false.
Proof.
  unfold Number.leb, Number.ltb, SFleb, SFltb.
  rewrite (SFcompare_antisym x y).
  destruct (SFcompare x y) as [[| |]|]; cbn; congruence.
Qed.

Lemma clamp_in_range (x : Number.number) :
  is_binary64 x -> x <> NaN ->
  Number.leb minus_one (clamp x) = true /\ Number.leb (clamp x) one = true.
Proof.
  intros Hv Hnan. destruct x as [s|s| |s m e].
  - destruct s; split; reflexivity.
  - destruct s; split; reflexivity.
  - now contradiction Hnan.
  - destruct (clamp_finite s m e Hv) as [-> | [-> | [-> He]]];
      [split; reflexivity | split; reflexivity |].
    unfold Number.leb, SFleb, SFcompare, one, minus_one.
    destruct s.
    + destruct (Z.compare_spec (-52) e); try lia; split; reflexivity.
    + destruct (Z.compare_spec e (-52)); try lia; split; reflexivity.
Qed.

Lemma clamp_id (x : Number.number) :
  Number.leb minus_one x = true -> Number.leb x one = true -> clamp x = x.
Proof.
  intros Hlo Hhi. unfold clamp. rewrite of_Z_1, of_Z_m1.
  now rewrite (leb_not_ltb _ _ Hhi), (leb_not_ltb _ _ Hlo).
Qed.

Lemma clamp_above (x : Number.number) :
  Number.ltb one x = true -> clamp x = one.
Proof. intros H. unfold clamp. now rewrite of_Z_1, of_Z_m1, H. Qed.

Lemma clamp_below (x : Number.number) :
  Number.ltb x minus_one = true -> clamp x = minus_one.
Proof.
  intros H. unfold clamp. rewrite of_Z_1, of_Z_m1.
  assert (H1 : Number.ltb one x = false).
  { destruct x as [s|s| |s m e]; try destruct s; try discriminate;
      reflexivity. }
  now rewrite H1, H.
Qed.

Lemma clampInt16_truncate (x : Number.number) :
  is_binary64 x -> clampInt16 x = Number.truncate (scaled (clamp x)).
Proof.
  intros Hv. rewrite clampInt16_eq. apply ToInt32_truncate.
  pose proof (scaled_range x Hv).
  change (2 ^ 31) with 2147483648. lia.
Qed.

(** C5. [clampInt16] clamps its argument to [[-1, 1]]: the clamped value
    lies between -1 and 1 unless the argument is NaN, is the argument
    itself when that lies in the range, and is 1 or -1 when the argument
    is above or below it.  The result is the clamped value times 32768
    when that is negative and times 32767 otherwise, truncated toward
    zero.  In particular 1 gives 32767, -1 gives -32768, 0 gives 0, 2 gives
    32767 and -2 gives -32768. *)
Theorem C5_clampInt16_clamps_scales_truncates (x : Number.number) :
  is_binary64 x ->
  (x <> NaN ->
   Number.leb minus_one (clamp x) = true /\
   Number.leb (clamp x) one = true) /\
  (Number.leb minus_one x = true -> Number.leb x one = true -> clamp x = x) /\
  (Number.ltb one x = true -> clamp x = one) /\
  (Number.ltb x minus_one = true -> clamp x = minus_one) /\
  clampInt16 x
  = Number.truncate
      (if Number.ltb (clamp x) (Number.of_Z 0)
       then Number.mul (clamp x) (Number.of_Z 32768)
       else Number.mul (clamp x) (Number.of_Z 32767)) /\
  clampInt16 (Number.of_Z 1) = 32767 /\
  clampInt16 (Number.of_Z (-1)) = -32768 /\
  clampInt16 (Number.of_Z 0) = 0 /\
  clampInt16 (Number.of_Z 2) = 32767 /\
  clampInt16 (Number.of_Z (-2)) = -32768.
Proof.
  intros Hv.
  split; [now apply clamp_in_range|].
  split; [apply clamp_id|].
  split; [apply clamp_above|].
  split; [apply clamp_below|].
  split; [now apply clampInt16_truncate|].
  repeat split.
Qed.

Lemma C5_clampInt16_clamps_scales_truncates_witness :
  is_binary64 (Number.div (Number.of_Z 1) (Number.of_Z 4)) /\
  clamp (Number.div (Number.of_Z 1) (Number.of_Z 4))
  = Number.div (Number.of_Z 1) (Number.of_Z 4) /\
  clampInt16 (Number.div (Number.of_Z 1) (Number.of_Z 4)) = 8191.
Proof.
  assert (Hv : is_binary64 (Number.div (Number.of_Z 1) (Number.of_Z 4)))
    by reflexivity.
  destruct (C5_clampInt16_clamps_scales_truncates _ Hv)
    as (_ & Hid & _ & _ & Heq & _).
  split; [exact Hv|]. split.
  - apply Hid; reflexivity.
  - rewrite Heq. reflexivity.
Defined.

(** C10. On every binary64 number [clampInt16] returns an integer of the
    int16 range [[-32768, 32767]]; NaN, for which every comparison is
    false, gives 0, and the infinities give the two ends of the range. *)
Theorem C10_clampInt16_int16_range :
  (forall x : Number.number,
     is_binary64 x -> -32768 <= clampInt16 x <= 32767) /\
  Number.ltb (Number.of_Z 1) NaN = false /\
  Number.ltb NaN (Number.of_Z (-1)) = false /\
  Number.ltb NaN (Number.of_Z 0) = false /\
  clampInt16 NaN = 0 /\
  clampInt16 Infinity = 32767 /\
  clampInt16 neg_Infinity = -32768 /\
  clampInt16 (Number.of_Z 1000000) = 32767 /\
  clampInt16 (Number.of_Z (-1000000)) = -32768.
Proof.
  split; [|repeat split].
  intros x Hv. rewrite clampInt16_truncate by assumption.
  now apply scaled_range.
Qed.

Lemma C10_clampInt16_int16_range_witness :
  -32768 <= clampInt16 (Number.div (Number.of_Z (-3)) (Number.of_Z 7)) <= 32767.
Proof.
  destruct C10_clampInt16_int16_range as [H _].
  apply H. reflexivity.
Defined.

(** ** Typed-array loops *)

Lemma store_middle {A : Type} (pre post : list A) (x v : A) :
  store (pre ++ x :: post) (Z.of_nat (length pre)) v = pre ++ v :: post.
Proof.
  unfold store. rewrite length_app. cbn [length].
  destruct (0 <=? Z.of_nat (length pre)) eqn:E0;
    [|apply Z.leb_gt in E0; lia].
  destruct (Z.of_nat (length pre) <? Z.of_nat (length pre + S (length post)))
    eqn:E1; [|apply Z.ltb_ge in E1; lia].
  cbn [andb]. rewrite Nat2Z.id.
  rewrite firstn_app, Nat.sub_diag, firstn_all. cbn [firstn].
  rewrite app_nil_r.
  rewrite skipn_app, skipn_all2 by lia.
  replace (S (length pre) - length pre)%nat with 1%nat by lia.
  reflexivity.
Qed.

(** A loop that rewrites element [i] at turn [i] is a [map] over the
    indices. *)
Lemma for_range_store {A : Type} (g : nat -> A -> A) (d0 : A) (l : list A) :
  forall k, (k <= length l)%nat ->
    for_range 0 k (fun i d => store d (Z.of_nat i) (g i (nth i d d0))) l
    = map (fun i => g i (nth i l d0)) (seq 0 k) ++ skipn k l.
Proof.
  induction k as [|k IH]; intros Hk; [reflexivity|].
  rewrite for_range_S, IH by lia. cbn [Nat.add].
  set (pre := map (fun i => g i (nth i l d0)) (seq 0 k)).
  assert (Hpre : length pre = k) by (subst pre; now rewrite length_map, length_seq).
  rewrite (skipn_cons_nth l k d0) by lia.
  rewrite app_nth2, Hpre, Nat.sub_diag by lia. cbn [nth].
  replace (Z.of_nat k) with (Z.of_nat (length pre)) by now rewrite Hpre.
  rewrite store_middle.
  subst pre. rewrite seq_S, map_app, <- app_assoc. reflexivity.
Qed.

Lemma for_range_store_all {A : Type} (g : nat -> A -> A) (d0 : A) (l : list A) :
  for_range 0 (length l) (fun i d => store d (Z.of_nat i) (g i (nth i d d0))) l
  = map (fun i => g i (nth i l d0)) (seq 0 (length l)).
Proof.
  rewrite for_range_store, skipn_all, app_nil_r by lia. reflexivity.
Qed.

Lemma firstn_S_nth_error {A : Type} (l : list A) (k : nat) (c : A) :
  nth_error l k = Some c -> firstn (S k) l = firstn k l ++ [c].
Proof.
  revert l. induction k as [|k IH]; intros [|a l] H; try discriminate.
  - injection H as ->. reflexivity.
  - cbn [nth_error] in H. cbn [firstn app]. f_equal.
    exact (IH l H).
Qed.

(** ** Channel remixer *)

Import Audio.

Lemma accumulate_map (dst src : Float32Array) :
  Datatypes.length dst = Datatypes.length src ->
  accumulate dst src
  = map (fun i => fround (Number.add (get dst i) (get src i)))
      (seq 0 (Datatypes.length src)).
Proof.
  intros Hlen. unfold accumulate. rewrite <- Hlen.
  exact (for_range_store_all
           (fun i x => fround (Number.add x (get src i))) S754_nan dst).
Qed.

Lemma scale_map (dst : Float32Array) (inv : Number.number) :
  scale dst inv
  = map (fun i => fround (Number.mul (get dst i) inv))
      (seq 0 (Datatypes.length dst)).
Proof.
  exact (for_range_store_all
           (fun i x => fround (Number.mul x inv)) S754_nan dst).
Qed.

Lemma get_map_seq (f : nat -> Number.number) (n i : nat) :
  (i < n)%nat -> get (map f (seq 0 n)) i = f i.
Proof.
  intros Hi. unfold get.
  rewrite (nth_indep _ S754_nan (f 0%nat)) by (now rewrite length_map, length_seq).
  rewrite map_nth, seq_nth by assumption. reflexivity.
Qed.

(** Summing the channels one after the other into [dst] gives, frame by
    frame, the running sum of that frame over the channels. *)
Lemma fold_accumulate (chans : list Float32Array) (n : nat) :
  Forall (fun c => Datatypes.length c = n) chans ->
  forall dst, Datatypes.length dst = n ->
    fold_left accumulate chans dst
    = map (fun i => fold_left (fun acc c => fround (Number.add acc (get c i)))
                      chans (get dst i))
        (seq 0 n).
Proof.
  induction 1 as [|c chans Hc _ IH]; intros dst Hdst.
  - cbn [fold_left]. subst n. unfold get.
    clear. induction dst as [|a dst IH]; [reflexivity|].
    cbn [Datatypes.length seq map nth]. f_equal.
    rewrite <- seq_shift, map_map. exact IH.
  - cbn [fold_left]. rewrite accumulate_map by congruence.
    rewrite Hc, IH by (now rewrite length_map, length_seq).
    apply map_ext_in. intros i Hi. apply in_seq in Hi.
    rewrite get_map_seq by lia. reflexivity.
Qed.

Lemma for_range_r_channels {S : Type} (b : AudioBuffer)
    (f : S -> Float32Array -> S) (s : S) :
  for_range_r 0 (numberOfChannels b)
    (fun ch st => src <- getChannelData b ch ;; Ok (f st src)) s
  = Ok (fold_left f (channelData b) s).
Proof.
  unfold for_range_r, numberOfChannels, getChannelData.
  set (chans := channelData b).
  assert (H : forall k, (k <= Datatypes.length chans)%nat ->
            fold_left (fun acc i => st <- acc ;;
                         src <- match nth_error chans i with
                                | Some c => Ok c
                                | None => Throw IndexSizeError
                                end ;; Ok (f st src))
              (seq 0 k) (Ok s)
            = Ok (fold_left f (firstn k chans) s)).
  { induction k as [|k IH]; intros Hk; [reflexivity|].
    rewrite seq_S, fold_left_app, IH by lia. cbn [fold_left bind Nat.add].
    destruct (nth_error chans k) as [c|] eqn:E;
      [|apply nth_error_None in E; lia].
    cbn [bind].
    rewrite (firstn_S_nth_error chans k c E).
    now rewrite fold_left_app. }
  rewrite H by lia. now rewrite firstn_all.
Qed.

Lemma set_at_whole {A : Type} (target source : list A) :
  Datatypes.length target = Datatypes.length source ->
  set_at target source 0 = Ok source.
Proof.
  intros Hlen. unfold set_at. rewrite Hlen.
  destruct (0 + Z.of_nat (Datatypes.length source)
            <=? Z.of_nat (Datatypes.length source)) eqn:E;
    [|apply Z.leb_gt in E; lia].
  cbn [Z.leb andb Z.to_nat firstn Nat.add app Z.compare].
  rewrite skipn_all2 by lia. now rewrite app_nil_r.
Qed.

Lemma get_silence (n i : nat) :
  (i < n)%nat -> get (repeat (S754_zero false) n) i = S754_zero false.
Proof.
  intros Hi. unfold get. apply nth_repeat_lt. exact Hi.
Qed.

Lemma downmix_channel (chans : list Float32Array) (n : nat) :
  Forall (fun c => Datatypes.length c = n) chans ->
  scale (fold_left accumulate chans (fill0 (repeat (S754_zero false) n)))
    (Number.div (Number.of_Z 1)
       (Number.of_Z (Z.of_nat (Datatypes.length chans))))
  = map (mean_at chans) (seq 0 n).
Proof.
  intros Hall. unfold fill0. rewrite repeat_length.
  rewrite (fold_accumulate chans n Hall) by apply repeat_length.
  rewrite scale_map, length_map, length_seq.
  apply map_ext_in. intros i Hi. apply in_seq in Hi.
  rewrite get_map_seq, get_silence by lia. reflexivity.
Qed.

Lemma createBuffer_ok (channels : Z) (len : nat) (rate : Number.number) :
  1 <= channels -> (0 < len)%nat ->
  createBuffer channels len rate
  = Ok (mkAudioBuffer rate len
          (repeat (repeat (S754_zero false) len) (Z.to_nat channels))).
Proof.
  intros Hch Hlen. unfold createBuffer.
  destruct (channels <? 1) eqn:E; [apply Z.ltb_lt in E; lia|].
  destruct (len =? 0)%nat eqn:E0; [apply Nat.eqb_eq in E0; lia|].
  reflexivity.
Qed.


Lemma toTargetChannels_mono (buffer : AudioBuffer) :
  well_formed buffer ->
  toTargetChannels buffer 1
  = Ok (mkAudioBuffer (sampleRate buffer) (length buffer)
          [map (mean_at (channelData buffer)) (seq 0 (length buffer))]).
Proof.
  intros (Hlen & Hne & Hall). unfold toTargetChannels.
  rewrite createBuffer_ok by (assumption || lia). cbn [bind].
  change (1 =? 1) with true. cbv iota.
  change (Z.to_nat 1) with 1%nat. cbn [repeat].
  unfold getChannelData at 1. cbn [channelData nth_error bind].
  rewrite (for_range_r_channels buffer accumulate). cbn [bind].
  unfold numberOfChannels.
  rewrite (downmix_channel (channelData buffer) (length buffer) Hall).
  reflexivity.
Qed.

Lemma toTargetChannels_stereo (buffer : AudioBuffer) (c0 c1 : Float32Array) :
  well_formed buffer ->
  (channelData buffer = [c0] /\ c1 = c0) \/
  (exists rest, channelData buffer = c0 :: c1 :: rest) ->
  toTargetChannels buffer 2
  = Ok (mkAudioBuffer (sampleRate buffer) (length buffer) [c0; c1]).
Proof.
  intros (Hlen & Hne & Hall) Hch. unfold toTargetChannels.
  rewrite createBuffer_ok by (assumption || lia). cbn [bind].
  change (2 =? 1) with false. cbv iota.
  change (Z.to_nat 2) with 2%nat. cbn [repeat].
  unfold getChannelData at 1 2. cbn [channelData nth_error bind].
  unfold numberOfChannels, getChannelData.
  destruct Hch as [[E ->] | [rest E]]; rewrite E in *;
    cbn [Datatypes.length Nat.eqb nth_error bind].
  - apply Forall_inv in Hall.
    rewrite !set_at_whole by (now rewrite repeat_length). reflexivity.
  - pose proof (Forall_inv Hall) as H0.
    pose proof (Forall_inv (Forall_inv_tail Hall)) as H1.
    cbn beta in H0, H1.
    rewrite !set_at_whole by (now rewrite repeat_length). reflexivity.
Qed.

(** C7. On a buffer as the platform makes them (at least one frame, at
    least one channel, every channel of the buffer's length) and a target
    of 1 or 2 channels the remixer returns, without raising, a well-formed
    buffer with the target number of channels and the frame count of its
    input.  For target 1 the one channel holds, frame by frame, the mean
    of all source channels as the code computes it: the sum of the
    channels' samples, accumulated in the binary32 output array, times the
    binary64 number [1 / N], stored as binary32 ([mean_at]); channels
    holding 1, 2, 3 and 6 give 3.  For target 2 and a mono source both
    channels are the source channel; for target 2 and two or more source
    channels the output is source channels 0 and 1, and the further
    channels are dropped. *)
Theorem C7_toTargetChannels (buffer : AudioBuffer) (channels : Z) :
  well_formed buffer ->
  channels = 1 \/ channels = 2 ->
  (exists out,
     toTargetChannels buffer channels = Ok out /\
     length out = length buffer /\
     well_formed out /\
     numberOfChannels out = Z.to_nat channels /\
     (channels = 1 ->
      channelData out
      = [map (mean_at (channelData buffer)) (seq 0 (length buffer))]) /\
     (channels = 2 -> numberOfChannels buffer = 1%nat ->
      exists src, channelData buffer = [src] /\ channelData out = [src; src]) /\
     (channels = 2 -> (2 <= numberOfChannels buffer)%nat ->
      exists c0 c1 rest,
        channelData buffer = c0 :: c1 :: rest /\ channelData out = [c0; c1])) /\
  toTargetChannels four_channel_frame 1
  = Ok (mkAudioBuffer (Number.of_Z 44100) 1 [[Number.of_Z 3]]) /\
  toTargetChannels four_channel_frame 2
  = Ok (mkAudioBuffer (Number.of_Z 44100) 1
          [[Number.of_Z 1]; [Number.of_Z 2]]).
Proof.
  intros Hwf Hch. split; [|split; reflexivity].
  pose proof Hwf as (Hlen & Hne & Hall).
  destruct Hch as [-> | ->].
  - eexists. split; [now apply toTargetChannels_mono|].
    cbn [length channelData]. split; [reflexivity|]. split.
    { split; [exact Hlen|]. split; [discriminate|].
      constructor; [|constructor].
      cbn [length]. now rewrite length_map, length_seq. }
    split; [reflexivity|]. split; [reflexivity|].
    split; intros; discriminate.
  - unfold numberOfChannels.
    destruct (channelData buffer) as [|c0 [|c1 rest]] eqn:E; [congruence| |].
    + eexists. split.
      { apply (toTargetChannels_stereo buffer c0 c0 Hwf). left. now split. }
      cbn [length channelData]. split; [reflexivity|]. split.
      { apply Forall_inv in Hall.
        split; [exact Hlen|]. split; [discriminate|].
        repeat constructor; exact Hall. }
      split; [reflexivity|]. split; [intros; discriminate|]. split.
      * intros _ _. exists c0. split; reflexivity.
      * cbn [Datatypes.length]. intros _ H. lia.
    + eexists. split.
      { apply (toTargetChannels_stereo buffer c0 c1 Hwf). right.
        now exists rest. }
      cbn [length channelData]. split; [reflexivity|]. split.
      { pose proof (Forall_inv Hall) as H0.
        pose proof (Forall_inv (Forall_inv_tail Hall)) as H1.
        split; [exact Hlen|]. split; [discriminate|].
        repeat constructor; assumption. }
      split; [reflexivity|]. split; [intros; discriminate|]. split.
      * cbn [Datatypes.length]. intros _ H. discriminate.
      * intros _ _. exists c0, c1, rest. split; reflexivity.
Qed.

Lemma four_channel_frame_wf : well_formed four_channel_frame.
Proof.
  split; [cbn; lia|]. split; [discriminate | repeat constructor].
Qed.

Lemma C7_toTargetChannels_witness :
  exists out,
    toTargetChannels four_channel_frame 1 = Ok out /\
    channelData out = [[Number.of_Z 3]].
Proof.
  destruct (C7_toTargetChannels four_channel_frame 1 four_channel_frame_wf
              (or_introl eq_refl))
    as ((out & Hout & _ & _ & _ & Hmean & _) & _).
  exists out. split; [exact Hout|].
  rewrite (Hmean eq_refl). reflexivity.
Defined.

Example no_frames_no_remix :
  toTargetChannels (mkAudioBuffer (Number.of_Z 22050) 0 [[]]) 1
  = Throw NotSupportedError.
Proof. reflexivity. Qed.

Example mono_to_stereo :
  toTargetChannels (mkAudioBuffer (Number.of_Z 22050) 2
                      [[Number.of_Z 1; Number.of_Z 0]]) 2
  = Ok (mkAudioBuffer (Number.of_Z 22050) 2
          [[Number.of_Z 1; Number.of_Z 0]; [Number.of_Z 1; Number.of_Z 0]]).
Proof. reflexivity. Qed.

(** ** Sequential writes into a fresh array *)

Lemma zeros_app (a b : nat) : zeros (a + b) = zeros a ++ zeros b.
Proof. apply repeat_app. Qed.

Lemma zeros_length (n : nat) : Datatypes.length (zeros n) = n.
Proof. apply repeat_length. Qed.

Lemma store_at_end {A : Type} (done rest : list A) (x v : A) (off : Z) :
  off = Z.of_nat (Datatypes.length done) ->
  store (done ++ x :: rest) off v = done ++ v :: rest.
Proof. intros ->. apply store_middle. Qed.

(** Writing the elements of [bs] one by one from [off] on replaces the
    [old] elements that were there. *)
Lemma write_each {A : Type} (bs done rest : list A) (d : A) (off : Z) :
  off = Z.of_nat (Datatypes.length done) ->
  forall k old, (k <= Datatypes.length bs)%nat ->
    Datatypes.length old = Datatypes.length bs ->
    for_range 0 k (fun i a => store a (off + Z.of_nat i) (nth i bs d))
      (done ++ old ++ rest)
    = done ++ firstn k bs ++ skipn k old ++ rest.
Proof.
  intros Hoff. induction k as [|k IH]; intros old Hk Hold; [reflexivity|].
  rewrite for_range_S, IH by lia. cbn [Nat.add].
  rewrite (skipn_cons_nth old k d) by lia.
  rewrite (firstn_S_nth_error bs k (nth k bs d))
    by (apply nth_error_nth'; lia).
  cbn [app]. rewrite (app_assoc done), <- (app_assoc (firstn k bs) [_]).
  rewrite store_at_end.
  - rewrite <- !app_assoc. reflexivity.
  - rewrite length_app, length_firstn, Hoff. lia.
Qed.

Lemma writeAsciiTo_seq (done old rest : list byte) (off : Z)
    (s : String.string) :
  off = Z.of_nat (Datatypes.length done) ->
  Datatypes.length old = Datatypes.length (char_codes s) ->
  writeAsciiTo (done ++ old ++ rest) off s = done ++ char_codes s ++ rest.
Proof.
  intros Hoff Hold. unfold writeAsciiTo.
  rewrite (write_each (char_codes s) done rest Byte.x00 off Hoff _ old)
    by lia.
  rewrite firstn_all, skipn_all2 by lia. reflexivity.
Qed.

Lemma set_at_seq {A : Type} (done old rest src : list A) (off : Z) :
  off = Z.of_nat (Datatypes.length done) ->
  Datatypes.length old = Datatypes.length src ->
  set_at (done ++ old ++ rest) src off = Ok (done ++ src ++ rest).
Proof.
  intros -> Hold. unfold set_at. rewrite !length_app.
  destruct (0 <=? Z.of_nat (Datatypes.length done)) eqn:E0;
    [|apply Z.leb_gt in E0; lia].
  destruct (Z.of_nat (Datatypes.length done)
            + Z.of_nat (Datatypes.length src)
            <=? Z.of_nat (Datatypes.length done
                          + (Datatypes.length old + Datatypes.length rest)))
    eqn:E1; [|apply Z.leb_gt in E1; lia].
  cbn [andb]. rewrite Nat2Z.id.
  rewrite firstn_app, Nat.sub_diag, firstn_all. cbn [firstn].
  rewrite app_nil_r.
  rewrite skipn_app, skipn_all2 by lia.
  replace (Datatypes.length done + Datatypes.length src
           - Datatypes.length done)%nat
    with (Datatypes.length old) by lia.
  rewrite skipn_app, skipn_all, Nat.sub_diag. reflexivity.
Qed.

Lemma setUint32_seq (done old rest : list byte) (off v : Z) :
  off = Z.of_nat (Datatypes.length done) ->
  Datatypes.length old = 4%nat ->
  setUint32 (done ++ old ++ rest) off v = Ok (done ++ le_split 4 v ++ rest).
Proof.
  intros Hoff Hold. unfold setUint32.
  apply set_at_seq; [assumption | now rewrite length_le_split].
Qed.

Lemma setUint16_seq (done old rest : list byte) (off v : Z) :
  off = Z.of_nat (Datatypes.length done) ->
  Datatypes.length old = 2%nat ->
  setUint16 (done ++ old ++ rest) off v = Ok (done ++ le_split 2 v ++ rest).
Proof.
  intros Hoff Hold. unfold setUint16.
  apply set_at_seq; [assumption | now rewrite length_le_split].
Qed.

(** The same, for an array given up to its decomposition. *)
Lemma writeAsciiTo_at (arr done old rest : list byte) (off : Z)
    (s : String.string) :
  arr = done ++ old ++ rest ->
  off = Z.of_nat (Datatypes.length done) ->
  Datatypes.length old = Datatypes.length (char_codes s) ->
  writeAsciiTo arr off s = done ++ char_codes s ++ rest.
Proof. intros ->. apply writeAsciiTo_seq. Qed.

Lemma set_at_at {A : Type} (arr done old rest src : list A) (off : Z) :
  arr = done ++ old ++ rest ->
  off = Z.of_nat (Datatypes.length done) ->
  Datatypes.length old = Datatypes.length src ->
  set_at arr src off = Ok (done ++ src ++ rest).
Proof. intros ->. apply set_at_seq. Qed.

Lemma setUint32_at (arr done old rest : list byte) (off v : Z) :
  arr = done ++ old ++ rest ->
  off = Z.of_nat (Datatypes.length done) ->
  Datatypes.length old = 4%nat ->
  setUint32 arr off v = Ok (done ++ le_split 4 v ++ rest).
Proof. intros ->. apply setUint32_seq. Qed.

Lemma setUint16_at (arr done old rest : list byte) (off v : Z) :
  arr = done ++ old ++ rest ->
  off = Z.of_nat (Datatypes.length done) ->
  Datatypes.length old = 2%nat ->
  setUint16 arr off v = Ok (done ++ le_split 2 v ++ rest).
Proof. intros ->. apply setUint16_seq. Qed.

(** An array under construction splits into what is written, the part
    to overwrite and the rest. *)
Ltac split_tac :=
  first [ apply app_assoc
        | rewrite app_nil_r; apply app_assoc
        | reflexivity ].

(** Offsets are lengths of what was written so far. *)
Ltac offset_tac :=
  rewrite ?length_app, ?length_le_split, ?zeros_length;
  repeat match goal with
         | |- context [Datatypes.length (char_codes ?s)] =>
             change (Datatypes.length (char_codes s)) with 4%nat
         end;
  cbn [Nat.add]; reflexivity.

(** ** Chunk builders *)

Import Chunks.

Lemma pcm_bytes_length (pcm : Audio.Int16Array) :
  Datatypes.length (pcm_bytes pcm) = (2 * Datatypes.length pcm)%nat.
Proof.
  unfold pcm_bytes. induction pcm as [|v pcm IH]; [reflexivity|].
  cbn [flat_map]. rewrite length_app, IH, length_le_split.
  cbn [Datatypes.length]. lia.
Qed.

Lemma buildDataChunk_eq (pcm : Audio.Int16Array) :
  buildDataChunk pcm
  = Ok (char_codes "data"
        ++ le_split 4 (Z.of_nat (Datatypes.length (pcm_bytes pcm)))
        ++ pcm_bytes pcm).
Proof.
  unfold buildDataChunk.
  pose proof (pcm_bytes_length pcm) as Hlen.
  set (bytes := pcm_bytes pcm) in *.
  assert (Heven : Z.of_nat (Datatypes.length bytes) mod 2 = 0).
  { rewrite Hlen, Nat2Z.inj_mul, Z.mul_comm. apply Z.mod_mul. lia. }
  rewrite Heven. cbn [Z.eqb].
  replace (Z.to_nat (8 + Z.of_nat (Datatypes.length bytes) + 0))
    with (4 + (4 + Datatypes.length bytes))%nat by lia.
  rewrite !zeros_app.
  erewrite (writeAsciiTo_at _ [] (zeros 4)); [|reflexivity..].
  erewrite (setUint32_at _ (char_codes "data") (zeros 4)); [|reflexivity..].
  cbn [bind]. rewrite Z.add_0_r.
  erewrite (set_at_at _ (char_codes "data" ++ le_split 4 _) (zeros _) []);
    [| now rewrite <- app_assoc, app_nil_r
     | rewrite length_app, length_le_split; reflexivity
     | apply zeros_length ].
  cbn [bind]. rewrite app_nil_r, <- app_assoc. reflexivity.
Qed.

Lemma list_payload_length (regions : list RegionMapper.AcDryRegion) :
  Z.of_nat (Datatypes.length (list_payload regions))
  = 4 + 4 + 4 + Z.of_nat (Datatypes.length (tngeJson regions)).
Proof.
  unfold list_payload. rewrite !length_app, length_le_split.
  change (Datatypes.length (char_codes "INFO")) with 4%nat.
  change (Datatypes.length (char_codes "TNGE")) with 4%nat. lia.
Qed.

Lemma buildListChunkTnge_eq (regions : list RegionMapper.AcDryRegion) :
  let payload := list_payload regions in
  buildListChunkTnge regions
  = Ok (char_codes "LIST"
        ++ le_split 4 (Z.of_nat (Datatypes.length payload)
                       + Z.of_nat (Datatypes.length (pad_of payload)))
        ++ payload ++ pad_of payload).
Proof.
  intros payload. subst payload. unfold buildListChunkTnge, pad_of.
  rewrite list_payload_length. unfold list_payload.
  set (json := tngeJson regions).
  set (n := Datatypes.length json).
  destruct ((4 + 4 + 4 + Z.of_nat n) mod 2 =? 0) eqn:Hpar.
  - cbn [Z.eqb Datatypes.length Z.of_nat]. rewrite !Z.add_0_r.
    replace (Z.to_nat (8 + (4 + 4 + 4 + Z.of_nat n)))
      with (4 + (4 + (4 + (4 + (4 + n)))))%nat by lia.
    rewrite !zeros_app.
    erewrite (writeAsciiTo_at _ [] (zeros 4)); [|reflexivity..].
    erewrite (setUint32_at _ (char_codes "LIST") (zeros 4)); [|reflexivity..].
    cbn [bind].
    erewrite (writeAsciiTo_at _ (char_codes "LIST" ++ le_split 4 _) (zeros 4)
                _ _ "INFO");
      [| split_tac | offset_tac | reflexivity].
    erewrite (writeAsciiTo_at _ (_ ++ char_codes "INFO") (zeros 4) _ _ "TNGE");
      [| split_tac | offset_tac | reflexivity].
    erewrite (setUint32_at _ (_ ++ char_codes "TNGE") (zeros 4));
      [| split_tac | offset_tac | reflexivity].
    cbn [bind].
    erewrite (set_at_at _ (_ ++ le_split 4 (Z.of_nat n)) (zeros n) [] json);
      [| split_tac
       | offset_tac
       | apply zeros_length ].
    cbn [bind]. rewrite !app_nil_r, <- !app_assoc. reflexivity.
  - cbn [Z.eqb Datatypes.length Z.of_nat Pos.of_succ_nat].
    replace (Z.to_nat (8 + (4 + 4 + 4 + Z.of_nat n + 1)))
      with (4 + (4 + (4 + (4 + (4 + (n + 1))))))%nat by lia.
    rewrite !zeros_app.
    erewrite (writeAsciiTo_at _ [] (zeros 4)); [|reflexivity..].
    erewrite (setUint32_at _ (char_codes "LIST") (zeros 4)); [|reflexivity..].
    cbn [bind].
    erewrite (writeAsciiTo_at _ (char_codes "LIST" ++ le_split 4 _) (zeros 4)
                _ _ "INFO");
      [| split_tac | offset_tac | reflexivity].
    erewrite (writeAsciiTo_at _ (_ ++ char_codes "INFO") (zeros 4) _ _ "TNGE");
      [| split_tac | offset_tac | reflexivity].
    erewrite (setUint32_at _ (_ ++ char_codes "TNGE") (zeros 4));
      [| split_tac | offset_tac | reflexivity].
    cbn [bind].
    erewrite (set_at_at _ (_ ++ le_split 4 (Z.of_nat n)) (zeros n) (zeros 1)
                json);
      [| split_tac
       | offset_tac
       | apply zeros_length ].
    cbn [bind].
    rewrite (app_assoc _ json).
    change (zeros 1) with [Byte.x00].
    rewrite store_at_end
      by (rewrite !length_app, !length_le_split; fold n;
          change (Datatypes.length (char_codes "LIST")) with 4%nat;
          change (Datatypes.length (char_codes "INFO")) with 4%nat;
          change (Datatypes.length (char_codes "TNGE")) with 4%nat; lia).
    rewrite <- !app_assoc. reflexivity.
Qed.

Lemma buildFmtChunkPcm_eq (channels : Z) (sampleRate : Number.number)
    (bitsPerSample : Z) :
  let bytesPerSample :=
    Number.div (Number.of_Z bitsPerSample) (Number.of_Z 8) in
  let blockAlign := Number.mul (Number.of_Z channels) bytesPerSample in
  let byteRate := Number.mul sampleRate blockAlign in
  buildFmtChunkPcm channels sampleRate bitsPerSample
  = Ok (char_codes "fmt " ++ le_split 4 16
        ++ le_split 2 1 ++ le_split 2 channels
        ++ le_split 4 (Number.ToUint32 sampleRate)
        ++ le_split 4 (Number.ToUint32 byteRate)
        ++ le_split 2 (Number.ToUint16 blockAlign)
        ++ le_split 2 bitsPerSample).
Proof.
  intros bps ba br. unfold buildFmtChunkPcm. fold bps. fold ba. fold br.
  change (zeros (Z.to_nat (8 + 16)))
    with (zeros 4 ++ zeros 4 ++ zeros 2 ++ zeros 2 ++ zeros 4 ++ zeros 4
          ++ zeros 2 ++ zeros 2).
  erewrite (writeAsciiTo_at _ [] (zeros 4)); [|reflexivity..].
  erewrite (setUint32_at _ (char_codes "fmt ") (zeros 4)); [|reflexivity..].
  cbn [bind].
  erewrite (setUint16_at _ (char_codes "fmt " ++ le_split 4 16) (zeros 2));
    [| split_tac | offset_tac | reflexivity].
  cbn [bind].
  erewrite (setUint16_at _ (_ ++ le_split 2 1) (zeros 2));
    [| split_tac | offset_tac | reflexivity].
  cbn [bind].
  erewrite (setUint32_at _ (_ ++ le_split 2 channels) (zeros 4));
    [| split_tac | offset_tac | reflexivity].
  cbn [bind].
  erewrite (setUint32_at _ (_ ++ le_split 4 (Number.ToUint32 sampleRate))
              (zeros 4));
    [| split_tac | offset_tac | reflexivity].
  cbn [bind].
  erewrite (setUint16_at _ (_ ++ le_split 4 (Number.ToUint32 br)) (zeros 2));
    [| split_tac | offset_tac | reflexivity].
  cbn [bind].
  erewrite (setUint16_at _ (_ ++ le_split 2 (Number.ToUint16 ba)) (zeros 2) []);
    [| split_tac | offset_tac | reflexivity].
  cbn [bind]. rewrite app_nil_r, <- !app_assoc. reflexivity.
Qed.

Lemma buildSmplChunk_eq (sampleRate : Number.number) :
  let samplePeriod :=
    if Number.ltb (Number.of_Z 0) sampleRate
    then Number.floorZ
           (Number.mul (Number.div (Number.of_Z 1) sampleRate)
              (Number.of_Z 1000000000))
    else 0 in
  buildSmplChunk sampleRate
  = Ok (char_codes "smpl" ++ le_split 4 36
        ++ le_split 4 0 ++ le_split 4 0 ++ le_split 4 samplePeriod
        ++ le_split 4 60 ++ le_split 4 0 ++ le_split 4 0 ++ le_split 4 0
        ++ le_split 4 0 ++ le_split 4 0).
Proof.
  intros sp. unfold buildSmplChunk. fold sp.
  change (zeros (Z.to_nat (8 + 36)))
    with (zeros 4 ++ zeros 4 ++ zeros 4 ++ zeros 4 ++ zeros 4 ++ zeros 4
          ++ zeros 4 ++ zeros 4 ++ zeros 4 ++ zeros 4 ++ zeros 4).
  erewrite (writeAsciiTo_at _ [] (zeros 4)); [|reflexivity..].
  erewrite (setUint32_at _ (char_codes "smpl") (zeros 4)); [|reflexivity..].
  cbn [bind].
  erewrite (setUint32_at _ (char_codes "smpl" ++ le_split 4 36) (zeros 4));
    [| split_tac | offset_tac | reflexivity].
  cbn [bind].
  erewrite (setUint32_at _ (_ ++ le_split 4 0) (zeros 4));
    [| split_tac | offset_tac | reflexivity].
  cbn [bind].
  erewrite (setUint32_at _ (_ ++ le_split 4 0) (zeros 4));
    [| split_tac | offset_tac | reflexivity].
  cbn [bind].
  erewrite (setUint32_at _ (_ ++ le_split 4 sp) (zeros 4));
    [| split_tac | offset_tac | reflexivity].
  cbn [bind].
  erewrite (setUint32_at _ (_ ++ le_split 4 60) (zeros 4));
    [| split_tac | offset_tac | reflexivity].
  cbn [bind].
  erewrite (setUint32_at _ (_ ++ le_split 4 0) (zeros 4));
    [| split_tac | offset_tac | reflexivity].
  cbn [bind].
  erewrite (setUint32_at _ (_ ++ le_split 4 0) (zeros 4));
    [| split_tac | offset_tac | reflexivity].
  cbn [bind].
  erewrite (setUint32_at _ (_ ++ le_split 4 0) (zeros 4));
    [| split_tac | offset_tac | reflexivity].
  cbn [bind].
  erewrite (setUint32_at _ (_ ++ le_split 4 0) (zeros 4) []);
    [| split_tac | offset_tac | reflexivity].
  cbn [bind]. rewrite app_nil_r, <- !app_assoc. reflexivity.
Qed.

(** The size field of a serialized chunk. *)
Lemma declared_size_eq (id rest : list byte) (v : Z) :
  Datatypes.length id = 4%nat ->
  declared_size (id ++ le_split 4 v ++ rest) = v mod 2 ^ 32.
Proof.
  intros Hid. unfold declared_size.
  rewrite skipn_app, skipn_all2, Hid, Nat.sub_diag by lia.
  cbn [skipn app].
  rewrite firstn_app, length_le_split, Nat.sub_diag, firstn_all2
    by (rewrite length_le_split; lia).
  cbn [firstn]. rewrite app_nil_r. apply le_combine_split.
Qed.

Lemma body_eq (id rest : list byte) (v : Z) :
  Datatypes.length id = 4%nat -> body (id ++ le_split 4 v ++ rest) = rest.
Proof.
  intros Hid. unfold body.
  rewrite skipn_app, Hid. 
  destruct id as [|a [|b [|c [|d [|e id]]]]]; try discriminate.
  reflexivity.
Qed.

Lemma skipn_prefix {A : Type} (a rest : list A) (n : nat) :
  Datatypes.length a = n -> skipn n (a ++ rest) = rest.
Proof.
  intros <-. rewrite skipn_app, skipn_all, Nat.sub_diag. reflexivity.
Qed.

(** The TNGE sub-chunk starts 12 bytes into the LIST chunk. *)
Lemma list_chunk_tnge (v : Z) (json rest : list byte) :
  skipn 12 (char_codes "LIST" ++ le_split 4 v
            ++ (char_codes "INFO" ++ char_codes "TNGE" ++ json) ++ rest)
  = char_codes "TNGE" ++ json ++ rest.
Proof.
  rewrite <- !app_assoc.
  rewrite (app_assoc (char_codes "LIST")), (app_assoc (_ ++ le_split 4 v)).
  rewrite skipn_prefix by offset_tac. reflexivity.
Qed.

Lemma pad_of_cases (payload : list byte) :
  (Z.of_nat (Datatypes.length payload) mod 2 = 1 /\ pad_of payload = [Byte.x00])
  \/ (Z.of_nat (Datatypes.length payload) mod 2 = 0 /\ pad_of payload = []).
Proof.
  unfold pad_of.
  destruct (Z.of_nat (Datatypes.length payload) mod 2 =? 0) eqn:E.
  - right. apply Z.eqb_eq in E. now split.
  - left. apply Z.eqb_neq in E. split; [|reflexivity].
    pose proof (Z.mod_pos_bound (Z.of_nat (Datatypes.length payload)) 2
                  ltac:(lia)). lia.
Qed.

(** C1 (as the code has it). The data chunk holds two bytes per sample,
    so its payload is never odd, it gets no pad byte, and its size field is
    the payload length.  The LIST chunk holds ["INFO" + "TNGE" +
    uint32(jsonLength) + json]; when that has odd length exactly one zero
    byte follows it, and none otherwise; the size field at offset 4 counts
    the pad byte, so it is the even, padded length, while the inner TNGE
    size field is the JSON length without the pad.  The [fmt ] and [smpl]
    chunks have fixed payloads of 16 and 36 bytes and size fields 16 and
    36.  (Size fields hold their value modulo 2^32.) *)
Theorem C1_chunk_size_and_padding (pcm : Audio.Int16Array)
    (regions : list RegionMapper.AcDryRegion) :
  let data := pcm_bytes pcm in
  let payload := list_payload regions in
  let len (l : list byte) := Z.of_nat (Datatypes.length l) in
  (exists chunk,
     buildDataChunk pcm = Ok chunk /\
     len data mod 2 = 0 /\
     body chunk = data /\
     declared_size chunk = len data mod 2 ^ 32) /\
  (exists chunk,
     buildListChunkTnge regions = Ok chunk /\
     body chunk = payload ++ pad_of payload /\
     (len payload mod 2 = 1 -> pad_of payload = [Byte.x00]) /\
     (len payload mod 2 = 0 -> pad_of payload = []) /\
     len (body chunk) mod 2 = 0 /\
     declared_size chunk = len (body chunk) mod 2 ^ 32 /\
     declared_size (skipn 12 chunk) = len (tngeJson regions) mod 2 ^ 32) /\
  (forall channels sampleRate bitsPerSample,
   exists chunk,
     buildFmtChunkPcm channels sampleRate bitsPerSample = Ok chunk /\
     len (body chunk) = 16 /\ declared_size chunk = 16) /\
  (forall sampleRate,
   exists chunk,
     buildSmplChunk sampleRate = Ok chunk /\
     len (body chunk) = 36 /\ declared_size chunk = 36).
Proof.
  intros data payload len. split; [|split; [|split]].
  3:{ intros channels sampleRate bitsPerSample.
      eexists. split; [apply buildFmtChunkPcm_eq|].
      rewrite body_eq, declared_size_eq by reflexivity.
      split; [|reflexivity]. unfold len.
      rewrite !length_app, !length_le_split. reflexivity. }
  3:{ intros sampleRate.
      eexists. split; [apply buildSmplChunk_eq|].
      rewrite body_eq, declared_size_eq by reflexivity.
      split; [|reflexivity]. unfold len.
      rewrite !length_app, !length_le_split. reflexivity. }
  - eexists. split; [apply buildDataChunk_eq|]. fold data.
    split.
    { unfold len, data. rewrite pcm_bytes_length, Nat2Z.inj_mul, Z.mul_comm.
      apply Z.mod_mul. lia. }
    split; [now apply body_eq|]. now apply declared_size_eq.
  - eexists. split; [apply buildListChunkTnge_eq|]. cbv zeta. fold payload.
    rewrite body_eq by reflexivity.
    split; [reflexivity|].
    destruct (pad_of_cases payload) as [[Hodd Hpad] | [Heven Hpad]];
      fold (len payload) in *.
    + split; [intros _; exact Hpad|]. split; [intros H; lia|].
      rewrite Hpad. unfold len. rewrite length_app, Nat2Z.inj_add.
      cbn [Datatypes.length Z.of_nat Pos.of_succ_nat].
      fold (len payload).
      split; [Z.to_euclidean_division_equations; lia|].
      split; [now apply declared_size_eq|].
      unfold payload, list_payload.
      rewrite list_chunk_tnge, <- app_assoc. now apply declared_size_eq.
    + split; [intros H; lia|]. split; [intros _; exact Hpad|].
      rewrite Hpad. unfold len. rewrite length_app, Nat2Z.inj_add.
      cbn [Datatypes.length Z.of_nat].
      fold (len payload).
      split; [Z.to_euclidean_division_equations; lia|].
      split; [now apply declared_size_eq|].
      unfold payload, list_payload.
      rewrite list_chunk_tnge, <- app_assoc. now apply declared_size_eq.
Qed.

Lemma C1_chunk_size_and_padding_witness :
  exists chunk,
    buildListChunkTnge [] = Ok chunk /\
    Chunks.pad_of (list_payload []) = [Byte.x00] /\
    declared_size chunk = 204.
Proof.
  destruct (C1_chunk_size_and_padding [] []) as
    (_ & (chunk & Hc & Hbody & Hodd & _ & _ & Hsize & _) & _).
  exists chunk. split; [exact Hc|].
  split; [apply Hodd; vm_compute; reflexivity|].
  rewrite Hsize, Hbody. vm_compute. reflexivity.
Defined.

(** C1 as stated fails for the LIST chunk: with no regions the unpadded
    payload is 203 bytes long, one zero byte follows it, and the size field
    holds 204. *)
Lemma C1_list_size_counts_the_pad :
  exists chunk,
    buildListChunkTnge [] = Ok chunk /\
    Z.of_nat (Datatypes.length (list_payload [])) = 203 /\
    body chunk = list_payload [] ++ [Byte.x00] /\
    declared_size chunk = 204 /\
    declared_size chunk <> Z.of_nat (Datatypes.length (list_payload [])).
Proof.
  eexists. split; [vm_compute; reflexivity|].
  split; [vm_compute; reflexivity|].
  split; [vm_compute; reflexivity|].
  split; [vm_compute; reflexivity|].
  vm_compute. discriminate.
Qed.

(** ** Kit encoder *)

Import KitEncoder.

Section EncoderFacts.

Variable Blob : Type.
Variable decodeToAudioBuffer : Blob -> result Audio.AudioBuffer.
Variable offlineRender :
  Audio.AudioBuffer -> Number.number -> result Audio.AudioBuffer.
Variable options : ExportOptions.t.

Local Notation "'render_'" :=
  (render Blob decodeToAudioBuffer offlineRender options).
Local Notation "'collect_item_'" :=
  (collect_item Blob decodeToAudioBuffer offlineRender options).

Lemma for_of_cons {A S : Type} (body : S -> A -> result S) (x : A)
    (xs : list A) (s s' : S) :
  body s x = Ok s' -> for_of body (x :: xs) s = for_of body xs s'.
Proof.
  intros H. unfold for_of. cbn [fold_left bind]. now rewrite H.
Qed.

(** The first loop keeps exactly the items of a positive frame count, in
    order. *)
Lemma collect_loop (pairs : list (item Blob * Audio.AudioBuffer)) :
  Forall (fun p => render_ (fst p) = Ok (snd p)) pairs ->
  forall st,
    for_of collect_item_ (map fst pairs) st
    = Ok (mkCollected
            (rendered st ++ map snd (kept pairs))
            (notes st ++ map (fun p => note (fst p)) (kept pairs))
            (frameLengths st ++ map frames_of (kept pairs))
            (totalFrames st + fold_right Z.add 0 (map frames_of (kept pairs)))).
Proof.
  induction 1 as [|[it b] pairs Hr _ IH]; intros st.
  - cbn. rewrite !app_nil_r, Z.add_0_r. now destruct st.
  - cbn [map fst snd] in *.
    unfold kept. cbn [filter snd]. fold (kept pairs).
    assert (Hstep : collect_item_ st it
                    = if Z.of_nat (Audio.length b) <=? 0 then Ok st
                      else Ok (mkCollected (rendered st ++ [b])
                                 (notes st ++ [note it])
                                 (frameLengths st ++ [Z.of_nat (Audio.length b)])
                                 (totalFrames st + Z.of_nat (Audio.length b)))).
    { unfold collect_item. now rewrite Hr. }
    destruct (Z.of_nat (Audio.length b) <=? 0) eqn:E; cbn [negb].
    + rewrite (for_of_cons _ _ _ _ _ Hstep). apply IH.
    + rewrite (for_of_cons _ _ _ _ _ Hstep), IH.
      cbn [rendered notes frameLengths totalFrames map fold_right fst snd].
      unfold frames_of. cbn [snd].
      rewrite <- !app_assoc. cbn [app]. f_equal. f_equal. lia.
Qed.

Lemma kept_positive (pairs : list (item Blob * Audio.AudioBuffer)) :
  Forall (fun f => 0 < f) (map frames_of (kept pairs)).
Proof.
  induction pairs as [|p pairs IH]; [constructor|].
  unfold kept. cbn [filter]. fold (kept pairs).
  destruct (Z.of_nat (Audio.length (snd p)) <=? 0) eqn:E; cbn [negb map].
  - exact IH.
  - constructor; [|exact IH]. apply Z.leb_gt in E. exact E.
Qed.

Lemma Forall2_combine {A B : Type} (P : A -> B -> Prop) (l1 : list A)
    (l2 : list B) :
  Forall2 P l1 l2 ->
  Forall (fun p => P (fst p) (snd p)) (combine l1 l2)
  /\ map fst (combine l1 l2) = l1.
Proof.
  induction 1 as [|a b l1 l2 Hab _ [IH1 IH2]]; [split; constructor|].
  cbn [combine map fst]. split; [now constructor | now rewrite IH2].
Qed.

Lemma Forall_nth_positive (l : list Z) :
  Forall (fun f => 0 < f) l ->
  forall i, (i < Datatypes.length l)%nat -> 0 < nth i l 0.
Proof.
  intros H i Hi. rewrite Forall_forall in H. apply H, nth_In, Hi.
Qed.

End EncoderFacts.


(** *** The parser walks what the builders write *)

Lemma bytes_at_here (pre x post : list byte) (off : Z) (n : nat) :
  off = Z.of_nat (Datatypes.length pre) -> n = Datatypes.length x ->
  WavInfo.bytes_at (pre ++ x ++ post) off n = x.
Proof.
  intros -> ->. unfold WavInfo.bytes_at. rewrite Nat2Z.id.
  rewrite skipn_prefix by reflexivity.
  rewrite firstn_app, Nat.sub_diag, firstn_all. cbn [firstn].
  apply app_nil_r.
Qed.

Lemma pad_of_length (payload : list byte) :
  Z.of_nat (Datatypes.length (pad_of payload))
  = Z.of_nat (Datatypes.length payload) mod 2.
Proof.
  destruct (pad_of_cases payload) as [[H ->] | [H ->]]; rewrite H; reflexivity.
Qed.

Lemma chunk_bytes_length (id : String.string) (payload : list byte) :
  Datatypes.length (char_codes id) = 4%nat ->
  Z.of_nat (Datatypes.length (chunk_bytes id payload))
  = 8 + Z.of_nat (Datatypes.length payload)
    + Z.of_nat (Datatypes.length payload) mod 2.
Proof.
  intros Hid. unfold chunk_bytes.
  rewrite !length_app, length_le_split, Hid, !Nat2Z.inj_add, pad_of_length.
  lia.
Qed.

(** At the start of a serialized chunk the parser finds its tag and its
    payload length, and steps to the byte after its padding. *)
Lemma chunk_at_chunk_bytes (pre post : list byte) (id : String.string)
    (payload : list byte) :
  Datatypes.length (char_codes id) = 4%nat ->
  Z.of_nat (Datatypes.length payload) < 2 ^ 32 ->
  let view := pre ++ chunk_bytes id payload ++ post in
  let off := Z.of_nat (Datatypes.length pre) in
  exists c,
    WavInfo.chunk_at view off = Some c /\
    WavInfo.chunkId c = WavInfo.ascii id /\
    WavInfo.chunkSize c = Z.of_nat (Datatypes.length payload) /\
    WavInfo.next_offset c
    = Z.of_nat (Datatypes.length (pre ++ chunk_bytes id payload)).
Proof.
  intros Hid Hsz view off.
  assert (Hlen : Z.of_nat (Datatypes.length view)
                 = off + (8 + Z.of_nat (Datatypes.length payload)
                          + Z.of_nat (Datatypes.length payload) mod 2)
                   + Z.of_nat (Datatypes.length post)).
  { subst view off. rewrite !length_app, !Nat2Z.inj_add.
    rewrite chunk_bytes_length by assumption. lia. }
  pose proof (Z.mod_pos_bound (Z.of_nat (Datatypes.length payload)) 2
                ltac:(lia)) as Hmod.
  assert (Hid_at : WavInfo.codes_at view off = WavInfo.ascii id).
  { unfold WavInfo.codes_at, WavInfo.ascii. f_equal.
    subst view. unfold chunk_bytes. rewrite <- !app_assoc.
    apply bytes_at_here; [reflexivity | now rewrite Hid]. }
  assert (Hsize_at : WavInfo.size_at view (off + 4)
                     = Z.of_nat (Datatypes.length payload)).
  { unfold WavInfo.size_at. subst view. unfold chunk_bytes.
    rewrite <- !app_assoc, (app_assoc pre).
    rewrite bytes_at_here
      by (rewrite ?length_app, ?length_le_split, ?Hid; subst off; lia).
    rewrite le_combine_split. apply Z.mod_small. lia. }
  unfold WavInfo.chunk_at.
  destruct (0 <=? off) eqn:E0; [|apply Z.leb_gt in E0; lia].
  destruct (off + 8 <=? Z.of_nat (Datatypes.length view)) eqn:E1;
    [|apply Z.leb_gt in E1; lia].
  cbn [andb]. rewrite Hsize_at.
  destruct (Z.of_nat (Datatypes.length view) <? _) eqn:E2;
    [apply Z.ltb_lt in E2; lia|].
  eexists. split; [reflexivity|].
  cbn [WavInfo.chunkId WavInfo.chunkSize].
  split; [exact Hid_at|]. split; [reflexivity|].
  unfold WavInfo.next_offset. cbn [WavInfo.chunkDataOffset WavInfo.chunkSize].
  rewrite length_app, Nat2Z.inj_add, chunk_bytes_length by assumption.
  subst off. lia.
Qed.

(** Walking a sequence of serialized chunks gives back their tags and
    payload lengths. *)
Lemma walk_chunk_bytes (chunks : list (String.string * list byte)) :
  Forall (fun c => Datatypes.length (char_codes (fst c)) = 4%nat
                   /\ Z.of_nat (Datatypes.length (snd c)) < 2 ^ 32) chunks ->
  forall pre,
    map tag_and_size
      (WavInfo.walk
         (pre ++ concat (map (fun c => chunk_bytes (fst c) (snd c)) chunks))
         (Z.of_nat (Datatypes.length pre)))
    = map (fun c => (WavInfo.ascii (fst c),
                     Z.of_nat (Datatypes.length (snd c)))) chunks.
Proof.
  induction 1 as [|[id payload] chunks [Hid Hsz] _ IH]; intros pre.
  - cbn [map concat]. rewrite app_nil_r, walk_unfold.
    unfold WavInfo.chunk_at.
    destruct (Z.of_nat (Datatypes.length pre) + 8
              <=? Z.of_nat (Datatypes.length pre)) eqn:E;
      [apply Z.leb_le in E; lia|].
    now rewrite andb_false_r.
  - cbn [map concat fst snd] in *. rewrite walk_unfold.
    destruct (chunk_at_chunk_bytes pre
                (concat (map (fun c => chunk_bytes (fst c) (snd c)) chunks))
                id payload Hid Hsz) as (c & Hc & Hcid & Hcsz & Hnext).
    cbv zeta in Hc. rewrite Hc. cbn [map]. unfold tag_and_size at 1.
    rewrite Hcid, Hcsz, Hnext. f_equal.
    rewrite app_assoc. apply IH.
Qed.

(** *** The file the encoder assembles *)

Lemma chunk_bytes_even (id : String.string) (payload : list byte) (n : Z) :
  Z.of_nat (Datatypes.length payload) = n -> n mod 2 = 0 ->
  chunk_bytes id payload = char_codes id ++ le_split 4 n ++ payload.
Proof.
  intros <- Heven. unfold chunk_bytes, pad_of. rewrite Heven.
  cbn [Z.eqb]. now rewrite app_nil_r.
Qed.

(** The RIFF envelope: [RIFF], the size of all that follows it, [WAVE],
    and the four chunks in order. *)
Lemma assemble_eq (st : collected) (options : ExportOptions.t)
    (pw : Audio.Int16Array * Z) (fmtChunk listChunk smplChunk dataChunk : list byte) :
  for_of (write_pcm (ExportOptions.channels options)) (rendered st)
    (repeat 0 (Z.to_nat (totalFrames st * ExportOptions.channels options))
       : Audio.Int16Array, 0)
  = Ok pw ->
  buildFmtChunkPcm (ExportOptions.channels options)
    (ExportOptions.sampleRate options) 16 = Ok fmtChunk ->
  buildListChunkTnge (kit_regions st) = Ok listChunk ->
  buildSmplChunk (ExportOptions.sampleRate options) = Ok smplChunk ->
  buildDataChunk (fst pw) = Ok dataChunk ->
  assemble st options
  = Ok (mkExport
          (char_codes "RIFF"
           ++ le_split 4 (4 + len fmtChunk + len listChunk + len smplChunk
                          + len dataChunk)
           ++ char_codes "WAVE"
           ++ fmtChunk ++ listChunk ++ smplChunk ++ dataChunk)
          (Number.div (Number.of_Z (totalFrames st))
             (ExportOptions.sampleRate options))).
Proof.
  intros Hpcm Hfmt Hlist Hsmpl Hdata. unfold assemble. cbv zeta.
  rewrite Hpcm. cbn [bind]. rewrite Hfmt. cbn [bind].
  rewrite Hlist. cbn [bind]. rewrite Hsmpl. cbn [bind].
  rewrite Hdata. cbn [bind].
  fold (len fmtChunk) (len listChunk) (len smplChunk) (len dataChunk).
  set (riffSize := 4 + len fmtChunk + len listChunk + len smplChunk
                   + len dataChunk).
  replace (Z.to_nat (8 + riffSize))
    with (4 + (4 + (4 + (Datatypes.length fmtChunk
                         + (Datatypes.length listChunk
                            + (Datatypes.length smplChunk
                               + Datatypes.length dataChunk))))))%nat
    by (subst riffSize; unfold len; lia).
  rewrite !zeros_app.
  erewrite (writeAsciiTo_at _ [] (zeros 4) _ 0 "RIFF"); [|reflexivity..].
  erewrite (setUint32_at _ (char_codes "RIFF") (zeros 4)); [|reflexivity..].
  cbn [bind].
  erewrite (writeAsciiTo_at _ (char_codes "RIFF" ++ le_split 4 riffSize)
              (zeros 4) _ 8 "WAVE");
    [| split_tac | offset_tac | reflexivity].
  erewrite (set_at_at _ (_ ++ char_codes "WAVE") (zeros _) _ fmtChunk);
    [| split_tac | offset_tac | apply zeros_length].
  cbn [bind].
  erewrite (set_at_at _ (_ ++ fmtChunk) (zeros _) _ listChunk);
    [| split_tac
     | rewrite !length_app, length_le_split; unfold len;
       change (Datatypes.length (char_codes "RIFF")) with 4%nat;
       change (Datatypes.length (char_codes "WAVE")) with 4%nat; lia
     | apply zeros_length].
  cbn [bind].
  erewrite (set_at_at _ (_ ++ listChunk) (zeros _) _ smplChunk);
    [| split_tac
     | rewrite !length_app, length_le_split; unfold len;
       change (Datatypes.length (char_codes "RIFF")) with 4%nat;
       change (Datatypes.length (char_codes "WAVE")) with 4%nat; lia
     | apply zeros_length].
  cbn [bind].
  erewrite (set_at_at _ (_ ++ smplChunk) (zeros _) [] dataChunk);
    [| split_tac
     | rewrite !length_app, length_le_split; unfold len;
       change (Datatypes.length (char_codes "RIFF")) with 4%nat;
       change (Datatypes.length (char_codes "WAVE")) with 4%nat; lia
     | apply zeros_length].
  cbn [bind]. rewrite app_nil_r, <- !app_assoc. reflexivity.
Qed.

Lemma zero_over_positive (sr : Number.number) :
  Number.ltb (Number.of_Z 0) sr = true ->
  Number.div (Number.of_Z 0) sr = S754_zero false.
Proof.
  destruct sr as [s|s| |s m e]; try destruct s; try discriminate;
    reflexivity.
Qed.

Lemma collect_nil (Blob : Type)
    (decodeToAudioBuffer : Blob -> result Audio.AudioBuffer)
    (offlineRender : Audio.AudioBuffer -> Number.number
                     -> result Audio.AudioBuffer)
    (options : ExportOptions.t) :
  collect Blob decodeToAudioBuffer offlineRender [] options
  = Ok (mkCollected [] [] [] 0).
Proof. reflexivity. Qed.

(** C9. With no items the kit encoder succeeds, for every positive sample
    rate: it returns [RIFF], the size of the rest, [WAVE], and the [fmt ],
    [LIST], [smpl] and [data] chunks, 300 bytes in all, and duration 0.
    The header parser walks exactly these four chunks; the [LIST] chunk
    holds the TNGE JSON with [regions] as the empty array; the [data]
    chunk has an empty payload. *)
Theorem C9_empty_kit (Blob : Type)
    (decodeToAudioBuffer : Blob -> result Audio.AudioBuffer)
    (offlineRender : Audio.AudioBuffer -> Number.number
                     -> result Audio.AudioBuffer)
    (sampleRate : Number.number) (channels : Z) :
  Number.ltb (Number.of_Z 0) sampleRate = true ->
  exists fmtBody smplBody,
    Datatypes.length fmtBody = 16%nat /\
    Datatypes.length smplBody = 36%nat /\
    let wav :=
      char_codes "RIFF" ++ le_split 4 292 ++ char_codes "WAVE"
      ++ chunk_bytes "fmt " fmtBody
      ++ chunk_bytes "LIST" (list_payload [] ++ [Byte.x00])
      ++ chunk_bytes "smpl" smplBody
      ++ chunk_bytes "data" [] in
    exportAcDryKitWavPcm16 Blob decodeToAudioBuffer offlineRender []
      (ExportOptions.mk sampleRate channels)
    = Ok (mkExport wav (S754_zero false)) /\
    len wav = 300 /\
    map tag_and_size (WavInfo.walk wav 12)
    = [(WavInfo.ascii "fmt ", 16); (WavInfo.ascii "LIST", 204);
       (WavInfo.ascii "smpl", 36); (WavInfo.ascii "data", 0)] /\
    list_payload []
    = char_codes "INFO" ++ char_codes "TNGE" ++ le_split 4 191
      ++ char_codes (tnge_json []) ++ [Byte.x00] /\
    String.substring 177 13 (tnge_json [])
    = String.append (json_member "regions" "[]") "}".
Proof.
  intros Hsr.
  set (options := ExportOptions.mk sampleRate channels).
  pose proof (buildFmtChunkPcm_eq channels sampleRate 16) as Hfmt.
  pose proof (buildSmplChunk_eq sampleRate) as Hsmpl.
  cbv zeta in Hfmt, Hsmpl.
  match type of Hfmt with
  | _ = Ok (_ ++ _ ++ ?b) => set (fmtBody := b) in *
  end.
  match type of Hsmpl with
  | _ = Ok (_ ++ _ ++ ?b) => set (smplBody := b) in *
  end.
  assert (Hfl : Datatypes.length fmtBody = 16%nat)
    by (subst fmtBody; rewrite !length_app, !length_le_split; reflexivity).
  assert (Hsl : Datatypes.length smplBody = 36%nat)
    by (subst smplBody; rewrite !length_app, !length_le_split; reflexivity).
  exists fmtBody, smplBody. split; [exact Hfl|]. split; [exact Hsl|].
  assert (Efmt : chunk_bytes "fmt " fmtBody
                 = char_codes "fmt " ++ le_split 4 16 ++ fmtBody)
    by (apply chunk_bytes_even; [now rewrite Hfl | reflexivity]).
  assert (Esmpl : chunk_bytes "smpl" smplBody
                  = char_codes "smpl" ++ le_split 4 36 ++ smplBody)
    by (apply chunk_bytes_even; [now rewrite Hsl | reflexivity]).
  assert (Hlist : buildListChunkTnge []
                  = Ok (chunk_bytes "LIST" (list_payload [] ++ [Byte.x00])))
    by (vm_compute; reflexivity).
  assert (Hdata : buildDataChunk [] = Ok (chunk_bytes "data" []))
    by reflexivity.
  cbv zeta. split.
  { unfold exportAcDryKitWavPcm16. rewrite collect_nil. cbn [bind].
    rewrite (assemble_eq (mkCollected [] [] [] 0) options ([], 0)
               (chunk_bytes "fmt " fmtBody)
               (chunk_bytes "LIST" (list_payload [] ++ [Byte.x00]))
               (chunk_bytes "smpl" smplBody) (chunk_bytes "data" [])).
    - unfold options.
      cbn [totalFrames ExportOptions.sampleRate ExportOptions.channels].
      rewrite (zero_over_positive _ Hsr).
      do 3 f_equal; unfold len;
        rewrite Efmt, Esmpl, !length_app, !length_le_split, Hfl, Hsl;
        vm_compute; reflexivity.
    - reflexivity.
    - rewrite Efmt. exact Hfmt.
    - exact Hlist.
    - rewrite Esmpl. exact Hsmpl.
    - exact Hdata. }
  split.
  { unfold len. rewrite Efmt, Esmpl, !length_app, !length_le_split, Hfl, Hsl.
    vm_compute. reflexivity. }
  split.
  { pose proof (walk_chunk_bytes
                  [("fmt "%string, fmtBody);
                   ("LIST"%string, list_payload [] ++ [Byte.x00]);
                   ("smpl"%string, smplBody); ("data"%string, [])]) as Hw.
    cbn [map concat fst snd] in Hw.
    specialize (Hw ltac:(repeat constructor; cbn [fst snd];
                         rewrite ?Hfl, ?Hsl; try reflexivity)
                   (char_codes "RIFF" ++ le_split 4 292 ++ char_codes "WAVE")).
    rewrite app_nil_r, <- !app_assoc in Hw.
    change (Z.of_nat (Datatypes.length
              (char_codes "RIFF" ++ le_split 4 292 ++ char_codes "WAVE")))
      with 12 in Hw.
    rewrite Hw, Hfl, Hsl. reflexivity. }
  split; reflexivity.
Qed.

Lemma C9_empty_kit_witness :
  exists wav,
    exportAcDryKitWavPcm16 Audio.AudioBuffer decode_id render_id []
      options_22050_mono
    = Ok (mkExport wav (S754_zero false)) /\
    len wav = 300.
Proof.
  destruct (C9_empty_kit Audio.AudioBuffer decode_id render_id
              (Number.of_Z 22050) 1 eq_refl)
    as (fmtBody & smplBody & _ & _ & H).
  cbv zeta in H. destruct H as (Hexp & Hlen & _).
  eexists. split; [exact Hexp | exact Hlen].
Defined.

Example empty_kit_has_no_data_for_the_parser :
  WavInfo.readWavInfo (exported_bytes empty_kit) = Throw MissingFmtOrData.
Proof. vm_compute. reflexivity. Qed.

Example two_note_kit_round_trip :
  exists d,
    WavInfo.readWavInfo (exported_bytes two_note_kit)
    = Ok (WavInfo.mkWavInfo 1 22050 16 6 d).
Proof. eexists. vm_compute. reflexivity. Qed.

(** 33075 frames at 22050 Hz last a second and a half. *)
Example duration_of_33075_frames :
  Number.div (Number.of_Z 33075) (Number.of_Z 22050)
  = Number.div (Number.of_Z 3) (Number.of_Z 2).
Proof. reflexivity. Qed.

(** * Further properties *)

(** ** Region mapper: skipped items and frame offsets *)

Import RegionLoop.

Lemma chain_app (notes frames bnds : list Z) (l1 l2 : list nat) (cf : Z) :
  chain notes frames bnds (l1 ++ l2) cf
  = chain notes frames bnds l1 cf
    ++ chain notes frames bnds l2 (cf + frames_total frames l1).
Proof.
  revert cf. induction l1 as [|i l1 IH]; intros cf.
  - cbn. now rewrite Z.add_0_r.
  - cbn [app chain]. rewrite IH. unfold frames_total. cbn [map fold_right].
    now rewrite Z.add_assoc.
Qed.

Lemma frames_total_app (frames : list Z) (l1 l2 : list nat) :
  frames_total frames (l1 ++ l2)
  = frames_total frames l1 + frames_total frames l2.
Proof.
  unfold frames_total. induction l1 as [|i l1 IH]; cbn [app map fold_right];
    lia.
Qed.

Lemma region_loop_general (notes frames bnds : list Z) (k : nat) :
  let idx := filter (fun i => 0 <? nth i frames 0) (seq 0 k) in
  for_range 0 k (region_step notes frames bnds) (0, [])
  = (frames_total frames idx, chain notes frames bnds idx 0).
Proof.
  induction k as [|k IH]; [reflexivity|].
  cbv zeta in *. rewrite for_range_S, IH. cbn [Nat.add].
  rewrite seq_S, filter_app. cbn [Nat.add filter].
  unfold region_step.
  destruct (nth k frames 0 <=? 0) eqn:E.
  - apply Z.leb_le in E.
    destruct (0 <? nth k frames 0) eqn:E'; [apply Z.ltb_lt in E'; lia|].
    now rewrite app_nil_r.
  - apply Z.leb_gt in E.
    destruct (0 <? nth k frames 0) eqn:E'; [|apply Z.ltb_ge in E'; lia].
    assert (H1 : frames_total frames [k] = nth k frames 0)
      by (unfold frames_total; cbn [map fold_right]; lia).
    rewrite chain_app, frames_total_app, H1. cbn [chain].
    rewrite Z.add_0_l. reflexivity.
Qed.

Lemma chain_contiguous (notes frames bnds : list Z) (idx : list nat) :
  Forall (fun i => 0 < nth i frames 0) idx ->
  forall cf,
    contiguous_from cf (chain notes frames bnds idx cf) /\
    last_end (chain notes frames bnds idx cf) 
    = match idx with [] => 0 | _ => cf + frames_total frames idx end.
Proof.
  induction 1 as [|i idx Hi _ IH]; intros cf; [split; reflexivity|].
  cbn [chain contiguous_from sample_start sample_end].
  destruct (IH (cf + nth i frames 0)) as [IHc IHl].
  split; [split; [reflexivity | split; [lia | exact IHc]]|].
  unfold last_end in *. unfold frames_total. cbn [map fold_right].
  destruct idx as [|j idx].
  - cbn. lia.
  - change (last (?r :: chain notes frames bnds (j :: idx) ?c) ?d)
      with (last (chain notes frames bnds (j :: idx) c) d).
    rewrite IHl. unfold frames_total. cbn [map fold_right]. lia.
Qed.

Lemma kept_indices_positive (notes frames : list Z) :
  Forall (fun i => 0 < nth i frames 0) (kept_indices notes frames).
Proof.
  unfold kept_indices. apply Forall_forall. intros i Hi.
  apply filter_In in Hi. destruct Hi as [_ Hi]. now apply Z.ltb_lt in Hi.
Qed.

Lemma chain_keys (notes frames bnds : list Z) (l : list nat) (cf : Z) :
  Datatypes.length (chain notes frames bnds l cf) = Datatypes.length l /\
  map (fun r => (sound_rootnote r, sample_lokey r, sample_hikey r))
      (chain notes frames bnds l cf)
  = map (fun i => (nth i notes 0, nth i bnds 0, nth (i + 1) bnds 127)) l.
Proof.
  revert cf. induction l as [|i l IH]; intros cf; [split; reflexivity|].
  cbn [chain Datatypes.length map sound_rootnote sample_lokey sample_hikey].
  destruct (IH (cf + nth i frames 0)) as [IH1 IH2].
  split; [now rewrite IH1 | now rewrite IH2].
Qed.

(** X1. Whatever the frame counts, [buildAcDryRegions] returns one region
    for each index of a positive frame count, in order, and no other; the
    region of index [i] has the root note [notes[i]] and the keys
    [boundaries[i]] and [boundaries[i+1]] of the boundaries of all notes,
    skipped ones included. *)
Theorem X1_regions_of_kept_indices (notes frames : list Z) :
  let idx := kept_indices notes frames in
  let b := boundaries notes in
  Datatypes.length (buildAcDryRegions notes frames) = Datatypes.length idx /\
  map (fun r => (sound_rootnote r, sample_lokey r, sample_hikey r))
      (buildAcDryRegions notes frames)
  = map (fun i => (nth i notes 0, nth i b 0, nth (i + 1) b 127)) idx.
Proof.
  intros idx b. subst idx b. unfold buildAcDryRegions, kept_indices.
  destruct (Datatypes.length notes =? 0)%nat eqn:E.
  - apply Nat.eqb_eq in E. rewrite E. split; reflexivity.
  - rewrite region_loop_general. cbn [snd]. apply chain_keys.
Qed.

(** X2. Whatever the frame counts, the regions of [buildAcDryRegions] lie
    end to end in the frame stream: the first starts at frame 0, each is
    non-empty and starts where the one before it ends, and the last ends at
    the sum of the positive frame counts. *)
Theorem X2_regions_are_contiguous (notes frames : list Z) :
  let rs := buildAcDryRegions notes frames in
  contiguous_from 0 rs /\
  last_end rs = frames_total frames (kept_indices notes frames).
Proof.
  intros rs. subst rs. unfold buildAcDryRegions.
  destruct (Datatypes.length notes =? 0)%nat eqn:E.
  - apply Nat.eqb_eq in E. unfold kept_indices. rewrite E.
    split; reflexivity.
  - rewrite region_loop_general. cbn [snd]. fold (kept_indices notes frames).
    destruct (chain_contiguous notes frames (boundaries notes)
                (kept_indices notes frames)
                (kept_indices_positive notes frames) 0) as [Hc Hl].
    split; [exact Hc|]. rewrite Hl.
    destruct (kept_indices notes frames); reflexivity.
Qed.

Example skipped_note_keeps_its_boundaries :
  buildAcDryRegions [60; 64; 67] [5; 0; 7]
  = [mkRegion 0 5 0 62 60; mkRegion 5 12 66 127 67].
Proof. reflexivity. Qed.

(** ** Region mapper: boundaries and the regions of the kept indices *)

Lemma buildAcDryRegions_chain (notes frames : list Z) :
  buildAcDryRegions notes frames
  = chain notes frames (boundaries notes) (kept_indices notes frames) 0.
Proof.
  unfold buildAcDryRegions, kept_indices.
  destruct (Datatypes.length notes =? 0)%nat eqn:E.
  - apply Nat.eqb_eq in E. now rewrite E.
  - now rewrite region_loop_general.
Qed.

Lemma kept_indices_spec (notes frames : list Z) (i : nat) :
  In i (kept_indices notes frames)
  <-> (i < Datatypes.length notes)%nat /\ 0 < nth i frames 0.
Proof.
  unfold kept_indices. rewrite filter_In, in_seq, Z.ltb_lt. lia.
Qed.

Lemma kept_indices_all (notes frames : list Z) :
  (forall i, (i < Datatypes.length notes)%nat -> 0 < nth i frames 0) ->
  kept_indices notes frames = seq 0 (Datatypes.length notes).
Proof.
  intros Hpos. unfold kept_indices.
  apply forallb_filter_id, forallb_forall. intros i Hi.
  apply in_seq in Hi. apply Z.ltb_lt, Hpos. lia.
Qed.

Lemma chain_nth (notes frames bnds : list Z) (l : list nat) (cf : Z)
    (j : nat) :
  (j < Datatypes.length l)%nat ->
  let i := nth j l 0%nat in
  let r := nth j (chain notes frames bnds l cf) no_region in
  sound_rootnote r = nth i notes 0 /\
  sample_lokey r = nth i bnds 0 /\
  sample_hikey r = nth (i + 1) bnds 127.
Proof.
  revert cf j. induction l as [|i0 l IH]; intros cf j Hj;
    [cbn in Hj; lia|].
  destruct j as [|j]; cbn [chain nth].
  - repeat split.
  - apply IH. cbn [Datatypes.length] in Hj. lia.
Qed.

(** C6. With [n] the number of notes, the boundary list starts with [0],
    holds [floor((prev + cur + 1) / 2)] at index [i] for each pair of
    adjacent notes [notes[i-1]], [notes[i]], and, when there is a note,
    has [n + 1] entries and ends with [127]; for no notes the mapper
    returns no region before it makes the list.  The mapper returns one
    region for each index of a positive frame count, in order: the
    region of such an index [i] has the key range
    [[boundaries[i], boundaries[i+1]]] and the root note [notes[i]].  So
    when every frame count is positive, as the encoder passes them, there
    are [n] regions and region [i] is that of index [i].  Notes
    [[60, 64, 67]] give the boundaries [[0, 62, 66, 127]], also when the
    middle file has no frames and the regions are those of 60 and 67. *)
Theorem C6_boundaries_and_regions (notes frames : list Z) :
  let n := Datatypes.length notes in
  let b := boundaries notes in
  let rs := buildAcDryRegions notes frames in
  let idx := kept_indices notes frames in
  (notes = [] -> rs = []) /\
  (notes <> [] -> Datatypes.length b = S n /\ nth n b 0 = 127) /\
  nth 0 b 0 = 0 /\
  (forall i, (1 <= i < n)%nat ->
     nth i b 0 = (nth (i - 1) notes 0 + nth i notes 0 + 1) / 2) /\
  Datatypes.length rs = Datatypes.length idx /\
  (forall j, (j < Datatypes.length idx)%nat ->
     let i := nth j idx 0%nat in
     let r := nth j rs no_region in
     (i < n)%nat /\ 0 < nth i frames 0 /\
     sample_lokey r = nth i b 0 /\
     sample_hikey r = nth (S i) b 0 /\
     sound_rootnote r = nth i notes 0) /\
  ((forall i, (i < n)%nat -> 0 < nth i frames 0) ->
   idx = seq 0 n /\
   Datatypes.length rs = n /\
   forall i, (i < n)%nat ->
     let r := nth i rs no_region in
     sample_lokey r = nth i b 0 /\
     sample_hikey r = nth (S i) b 0 /\
     sound_rootnote r = nth i notes 0) /\
  boundaries [60; 64; 67] = [0; 62; 66; 127] /\
  buildAcDryRegions [60; 64; 67] [5; 0; 7]
  = [mkRegion 0 5 0 62 60; mkRegion 5 12 66 127 67].
Proof.
  intros n b rs idx.
  assert (Hrs : rs = chain notes frames b idx 0)
    by apply buildAcDryRegions_chain.
  assert (Hlen : Datatypes.length rs = Datatypes.length idx)
    by (rewrite Hrs; apply chain_keys).
  assert (Hreg : forall j, (j < Datatypes.length idx)%nat ->
            let i := nth j idx 0%nat in
            let r := nth j rs no_region in
            (i < n)%nat /\ 0 < nth i frames 0 /\
            sample_lokey r = nth i b 0 /\
            sample_hikey r = nth (S i) b 0 /\
            sound_rootnote r = nth i notes 0).
  { intros j Hj i r.
    assert (Hi : (i < n)%nat /\ 0 < nth i frames 0)
      by (apply kept_indices_spec, nth_In, Hj).
    destruct Hi as [Hi Hf].
    destruct (chain_nth notes frames b idx 0 j Hj) as (Hroot & Hlo & Hhi).
    fold i in Hroot, Hlo, Hhi. rewrite <- Hrs in Hroot, Hlo, Hhi.
    fold r in Hroot, Hlo, Hhi.
    split; [exact Hi|]. split; [exact Hf|]. split; [exact Hlo|].
    split; [|exact Hroot].
    rewrite Hhi. replace (i + 1)%nat with (S i) by lia.
    apply nth_indep. subst b. rewrite boundaries_length; [fold n; lia|].
    intros ->. cbn in Hi. lia. }
  split; [intros ->; reflexivity|].
  split.
  { intros Hne. split; [now apply boundaries_length|].
    now apply boundaries_last. }
  split; [apply boundaries_first|].
  split; [intros i Hi; now apply boundaries_mid|].
  split; [exact Hlen|].
  split; [exact Hreg|].
  split; [|split; reflexivity].
  intros Hpos.
  assert (Hidx : idx = seq 0 n) by now apply kept_indices_all.
  split; [exact Hidx|].
  split; [now rewrite Hlen, Hidx, length_seq|].
  intros i Hi.
  assert (Hj : (i < Datatypes.length idx)%nat)
    by now rewrite Hidx, length_seq.
  destruct (Hreg i Hj) as (_ & _ & H). cbv zeta in H.
  rewrite Hidx, seq_nth in H by exact Hi. exact H.
Qed.

Lemma C6_boundaries_and_regions_witness :
  nth 1 (boundaries [60; 64; 67]) 0 = 62 /\
  sample_hikey (nth 1 (buildAcDryRegions [60; 64; 67] [5; 6; 7]) no_region)
  = 66 /\
  sound_rootnote (nth 1 (buildAcDryRegions [60; 64; 67] [5; 0; 7]) no_region)
  = 67.
Proof.
  split; [|split].
  - pose proof (C6_boundaries_and_regions [60; 64; 67] [5; 6; 7]) as H.
    cbv zeta in H. destruct H as (_ & _ & _ & Hmid & _).
    rewrite (Hmid 1%nat) by (simpl; lia). reflexivity.
  - pose proof (C6_boundaries_and_regions [60; 64; 67] [5; 6; 7]) as H.
    cbv zeta in H. destruct H as (_ & _ & _ & _ & _ & _ & Hall & _).
    destruct (Hall (positive_frames_3 5 6 7 ltac:(lia) ltac:(lia)
                      ltac:(lia))) as (_ & _ & Hr).
    destruct (Hr 1%nat ltac:(simpl; lia)) as (_ & Hhi & _).
    rewrite Hhi. reflexivity.
  - pose proof (C6_boundaries_and_regions [60; 64; 67] [5; 0; 7]) as H.
    cbv zeta in H. destruct H as (_ & _ & _ & _ & _ & Hreg & _).
    destruct (Hreg 1%nat ltac:(simpl; lia)) as (_ & _ & _ & _ & Hroot).
    rewrite Hroot. reflexivity.
Defined.

(** ** WAV header parser: what a successful parse guarantees *)

Import WavBounds.

Lemma bytes_at_length (view : list byte) (off : Z) (n : nat) :
  (Datatypes.length (bytes_at view off n) <= n)%nat.
Proof. unfold bytes_at. apply firstn_le_length. Qed.

Lemma le_combine_bytes_at_bound (view : list byte) (off : Z) (n : nat) :
  0 <= le_combine (bytes_at view off n) < 2 ^ (8 * Z.of_nat n).
Proof.
  pose proof (le_combine_bound (bytes_at view off n)) as [H0 H1].
  pose proof (bytes_at_length view off n) as Hl.
  split; [exact H0|].
  apply Z.lt_le_trans with (1 := H1).
  apply Z.pow_le_mono_r; lia.
Qed.

(** Every chunk walked lies inside the buffer, after the 12-byte header
    and its own 8-byte header. *)
Lemma walk_in_buffer (view : list byte) (n : nat) :
  forall off, 0 <= off ->
    (Z.to_nat (Z.of_nat (Datatypes.length view) - off) <= n)%nat ->
    Forall (fun c => off + 8 <= chunkDataOffset c
                     /\ chunkDataOffset c + chunkSize c
                        <= Z.of_nat (Datatypes.length view)
                     /\ 0 <= chunkSize c)
           (walk view off).
Proof.
  induction n as [|n IH]; intros off H0 Hn; rewrite walk_unfold;
    destruct (chunk_at view off) as [c|] eqn:Hc; [| constructor | | constructor].
  - apply chunk_at_offset in Hc. unfold next_offset in Hc. lia.
  - pose proof (chunk_at_offset _ _ _ Hc) as (_ & Hnext & Hcdo & Hend & Hsz).
    constructor; [lia|].
    destruct (Z_le_gt_dec (next_offset c) (Z.of_nat (Datatypes.length view))).
    + eapply Forall_impl; [|apply (IH (next_offset c)); lia].
      cbn beta. intros c' H. lia.
    + rewrite walk_unfold.
      assert (Hnone : chunk_at view (next_offset c) = None).
      { unfold chunk_at.
        destruct (next_offset c + 8 <=? Z.of_nat (Datatypes.length view)) eqn:E;
          [apply Z.leb_le in E; lia|].
        now rewrite andb_false_r. }
      rewrite Hnone. constructor.
Qed.

Lemma walk_12_in_buffer (view : list byte) :
  Forall (fun c => 20 <= chunkDataOffset c
                   /\ chunkDataOffset c + chunkSize c
                      <= Z.of_nat (Datatypes.length view)
                   /\ 0 <= chunkSize c)
         (walk view 12).
Proof.
  eapply Forall_impl;
    [|apply (walk_in_buffer view
               (Z.to_nat (Z.of_nat (Datatypes.length view) - 12)) 12); lia].
  cbn beta. intros c H. lia.
Qed.

Lemma apply_chunk_in_bounds (view : list byte) (st : scan_state) (c : chunk) :
  20 <= chunkDataOffset c ->
  chunkDataOffset c + chunkSize c <= Z.of_nat (Datatypes.length view) ->
  0 <= chunkSize c ->
  in_bounds view st -> in_bounds view (apply_chunk view st c).
Proof.
  intros Hcdo Hend Hsz (Hch & Hsr & Hbits & Hd0 & Hd). unfold apply_chunk.
  assert (Hdata : 0 <= (if negb (is_fmt c) && is_data c
                        then chunkSize c else st_dataBytes st)
                  /\ ((if negb (is_fmt c) && is_data c
                       then chunkSize c else st_dataBytes st) = 0
                      \/ (if negb (is_fmt c) && is_data c
                          then chunkSize c else st_dataBytes st) + 20
                         <= Z.of_nat (Datatypes.length view))).
  { destruct (negb (is_fmt c) && is_data c); [split; [lia | right; lia]|].
    split; assumption. }
  destruct (is_fmt16 c).
  - unfold fmt_fields.
    pose proof (le_combine_bytes_at_bound view (chunkDataOffset c + 2) 2).
    pose proof (le_combine_bytes_at_bound view (chunkDataOffset c + 4) 4).
    pose proof (le_combine_bytes_at_bound view (chunkDataOffset c + 14) 2).
    unfold in_bounds.
    cbn [st_channels st_sampleRate st_bitsPerSample st_dataBytes].
    change (8 * Z.of_nat 2) with 16 in *. change (8 * Z.of_nat 4) with 32 in *.
    tauto.
  - unfold in_bounds.
    cbn [st_channels st_sampleRate st_bitsPerSample st_dataBytes]. tauto.
Qed.

Lemma scan_result_in_bounds (view : list byte) :
  in_bounds view (scan_result view).
Proof.
  unfold scan_result.
  assert (Hinit : in_bounds view init_state).
  { unfold in_bounds, init_state.
    cbn [st_channels st_sampleRate st_bitsPerSample st_dataBytes].
    repeat split; try lia; left; reflexivity. }
  pose proof (walk_12_in_buffer view) as Hw.
  revert Hinit. generalize init_state.
  induction Hw as [|c cs (Hcdo & Hend & Hsz) _ IH]; intros st Hst;
    [exact Hst|].
  cbn [fold_left]. apply IH. now apply apply_chunk_in_bounds.
Qed.

(** X3. When [readWavInfo] returns, the four integers it reports are
    positive and fit their fields: channels and bits per sample below
    2^16, sample rate below 2^32, and the data length at most the buffer
    length less the 20 bytes that precede the first possible payload; the
    duration is the data length over the byte rate, which is finite and
    positive. *)
Theorem X3_readWavInfo_result_bounds (buf : list byte) (info : WavInfo.WavInfo) :
  readWavInfo buf = Ok info ->
  1 <= WavInfo.channels info < 2 ^ 16 /\
  1 <= WavInfo.sampleRate info < 2 ^ 32 /\
  1 <= WavInfo.bitsPerSample info < 2 ^ 16 /\
  1 <= WavInfo.dataBytes info <= Z.of_nat (Datatypes.length buf) - 20 /\
  let byteRate :=
    byte_rate (WavInfo.sampleRate info) (WavInfo.channels info) (WavInfo.bitsPerSample info) in
  Number.isFinite byteRate = true /\
  Number.leb byteRate (Number.of_Z 0) = false /\
  WavInfo.durationSec info = Number.div (Number.of_Z (WavInfo.dataBytes info)) byteRate.
Proof.
  intros Hok.
  destruct (Z_lt_ge_dec (Z.of_nat (Datatypes.length buf)) 12) as [Hlt|Hge].
  { unfold readWavInfo in Hok.
    destruct (Z.of_nat (Datatypes.length buf) <? 12) eqn:E;
      [discriminate | apply Z.ltb_ge in E; lia]. }
  rewrite readWavInfo_unfold in Hok by lia.
  destruct (negb _ || negb _); [discriminate|]. cbv zeta in Hok.
  destruct (_ || _ || _ || _) eqn:Hzero; [discriminate|].
  destruct (byte_rate_invalid _) eqn:Hrate; [discriminate|].
  injection Hok as <-.
  cbn [WavInfo.channels WavInfo.sampleRate WavInfo.bitsPerSample WavInfo.dataBytes WavInfo.durationSec].
  pose proof (scan_result_in_bounds buf) as (Hch & Hsr & Hbits & Hd0 & Hd).
  apply orb_false_elim in Hzero. destruct Hzero as [Hzero Hz4].
  apply orb_false_elim in Hzero. destruct Hzero as [Hzero Hz3].
  apply orb_false_elim in Hzero. destruct Hzero as [Hz1 Hz2].
  apply Z.eqb_neq in Hz1, Hz2, Hz3, Hz4.
  unfold byte_rate_invalid in Hrate.
  apply orb_false_elim in Hrate. destruct Hrate as [Hfin Hpos].
  apply negb_false_iff in Hfin.
  repeat split; try lia; assumption.
Qed.

Lemma X3_readWavInfo_result_bounds_witness :
  exists info,
    readWavInfo two_fmt_wav = Ok info /\
    1 <= WavInfo.dataBytes info <= Z.of_nat (Datatypes.length two_fmt_wav) - 20.
Proof.
  eexists. split; [vm_compute; reflexivity|].
  eapply X3_readWavInfo_result_bounds. vm_compute. reflexivity.
Defined.

(** ** PCM interleaving *)

Import Pcm.

Lemma ToInt16_id (v : Z) : int16 v -> Audio.ToInt16 v = v.
Proof.
  unfold int16, Audio.ToInt16. intros H.
  change (2 ^ 15) with 32768 in *. change (2 ^ 16) with 65536.
  Z.to_euclidean_division_equations. lia.
Qed.

Lemma clampInt16_int16 (x : Number.number) :
  is_binary64 x -> int16 (clampInt16 x).
Proof.
  intros Hv. rewrite clampInt16_truncate by assumption.
  pose proof (scaled_range x Hv). unfold int16.
  change (2 ^ 15) with 32768. lia.
Qed.

Lemma get_binary64 (c : Audio.Float32Array) (i : nat) :
  Forall is_binary64 c -> is_binary64 (Audio.get c i).
Proof.
  intros Hc. unfold Audio.get.
  destruct (Nat.lt_ge_cases i (Datatypes.length c)) as [Hi|Hi].
  - rewrite Forall_forall in Hc. apply Hc, nth_In, Hi.
  - rewrite nth_overflow by assumption. reflexivity.
Qed.

Lemma flat_map_pairs_length {A : Type} (g h : nat -> A) (k : nat) :
  forall s,
    Datatypes.length (flat_map (fun i => [g i; h i]) (seq s k)) = (2 * k)%nat.
Proof.
  induction k as [|k IH]; intros s; [reflexivity|].
  cbn [seq flat_map app Datatypes.length]. rewrite IH. lia.
Qed.

(** A loop that writes elements [2i] and [2i+1] at turn [i]. *)
Lemma for_range_store_pairs {A : Type} (g h : nat -> A) (out : list A) :
  forall k, (2 * k <= Datatypes.length out)%nat ->
    for_range 0 k
      (fun i o => store (store o (Z.of_nat i * 2) (g i))
                    (Z.of_nat i * 2 + 1) (h i)) out
    = flat_map (fun i => [g i; h i]) (seq 0 k) ++ skipn (2 * k) out.
Proof.
  induction k as [|k IH]; intros Hk; [reflexivity|].
  rewrite for_range_S, IH by lia. cbn [Nat.add].
  set (pre := flat_map (fun i => [g i; h i]) (seq 0 k)).
  assert (Hpre : Datatypes.length pre = (2 * k)%nat).
  { subst pre. apply flat_map_pairs_length. }
  destruct (skipn (2 * k) out) as [|a [|b rest]] eqn:Hs.
  - apply (f_equal (@Datatypes.length A)) in Hs.
    rewrite length_skipn in Hs. cbn in Hs. lia.
  - apply (f_equal (@Datatypes.length A)) in Hs.
    rewrite length_skipn in Hs. cbn in Hs. lia.
  - rewrite store_at_end by lia.
    replace (pre ++ g k :: b :: rest) with ((pre ++ [g k]) ++ b :: rest)
      by now rewrite <- app_assoc.
    rewrite store_at_end by (rewrite length_app; cbn; lia).
    rewrite seq_S, flat_map_app. cbn [Nat.add flat_map app].
    fold pre. rewrite <- !app_assoc. cbn [app]. do 3 f_equal.
    replace (2 * S k)%nat with (2 + 2 * k)%nat by lia.
    rewrite <- skipn_skipn, Hs. reflexivity.
Qed.

Lemma interleave_mono (b : Audio.AudioBuffer) (c0 : Audio.Float32Array)
    (rest : list Audio.Float32Array) :
  Audio.channelData b = c0 :: rest ->
  Audio.interleavePcm16 b 1
  = Ok (map (fun i => Audio.ToInt16 (clampInt16 (Audio.get c0 i)))
          (seq 0 (Audio.length b))).
Proof.
  intros Hc. unfold Audio.interleavePcm16, Audio.getChannelData.
  rewrite Hc. cbn [Z.eqb Pos.eqb nth_error bind]. f_equal.
  rewrite Z.mul_1_r, Nat2Z.id.
  pose proof (for_range_store_all
                (fun i (_ : Z) => Audio.ToInt16 (clampInt16 (Audio.get c0 i)))
                0 (repeat 0 (Audio.length b))) as H.
  rewrite repeat_length in H. exact H.
Qed.

Lemma interleave_stereo (b : Audio.AudioBuffer) (l r : Audio.Float32Array)
    (rest : list Audio.Float32Array) :
  Audio.channelData b = l :: r :: rest ->
  Audio.interleavePcm16 b 2
  = Ok (flat_map (fun i => [Audio.ToInt16 (clampInt16 (Audio.get l i));
                            Audio.ToInt16 (clampInt16 (Audio.get r i))])
          (seq 0 (Audio.length b))).
Proof.
  intros Hc. unfold Audio.interleavePcm16, Audio.getChannelData.
  rewrite Hc. cbn [Z.eqb Pos.eqb nth_error bind]. f_equal.
  rewrite for_range_store_pairs by (rewrite repeat_length; lia).
  rewrite skipn_all2 by (rewrite repeat_length; lia).
  apply app_nil_r.
Qed.

(** X4. On a buffer whose samples are binary64 data, [interleavePcm16]
    returns the quantized samples frame by frame: for target 1, one value
    [clampInt16(ch0[i])] per frame; for target 2, [clampInt16(l[i])] then
    [clampInt16(r[i])] for each frame.  There are [frames * channels]
    values and each is a 16-bit signed integer.  On a buffer with a single
    channel and target 2 it raises the [IndexSizeError] of
    [getChannelData(1)]. *)
Theorem X4_interleavePcm16 (b : Audio.AudioBuffer) :
  samples_ok b ->
  (forall c0 rest, Audio.channelData b = c0 :: rest ->
     Audio.interleavePcm16 b 1 = Ok (quantized_mono c0 (Audio.length b))
     /\ Datatypes.length (quantized_mono c0 (Audio.length b)) = Audio.length b
     /\ Forall int16 (quantized_mono c0 (Audio.length b))) /\
  (forall l r rest, Audio.channelData b = l :: r :: rest ->
     Audio.interleavePcm16 b 2 = Ok (quantized_stereo l r (Audio.length b))
     /\ Datatypes.length (quantized_stereo l r (Audio.length b))
        = (2 * Audio.length b)%nat
     /\ Forall int16 (quantized_stereo l r (Audio.length b))) /\
  (forall c0, Audio.channelData b = [c0] ->
     Audio.interleavePcm16 b 2 = Throw IndexSizeError).
Proof.
  intros Hok. unfold samples_ok in Hok. split; [|split].
  - intros c0 rest Hc. rewrite Hc in Hok. apply Forall_inv in Hok.
    rewrite (interleave_mono b c0 rest Hc). unfold quantized_mono.
    split; [|split].
    + apply f_equal. apply map_ext. intros i.
      apply ToInt16_id, clampInt16_int16, get_binary64, Hok.
    + now rewrite length_map, length_seq.
    + apply Forall_forall. intros v Hv. apply in_map_iff in Hv.
      destruct Hv as (i & <- & _).
      apply clampInt16_int16, get_binary64, Hok.
  - intros l r rest Hc. rewrite Hc in Hok.
    pose proof (Forall_inv Hok) as Hl.
    pose proof (Forall_inv (Forall_inv_tail Hok)) as Hr.
    rewrite (interleave_stereo b l r rest Hc). unfold quantized_stereo.
    split; [|split].
    + apply f_equal. apply flat_map_ext. intros i.
      rewrite !ToInt16_id
        by (apply clampInt16_int16, get_binary64; assumption).
      reflexivity.
    + apply flat_map_pairs_length.
    + apply Forall_forall. intros v Hv. apply in_flat_map in Hv.
      destruct Hv as (i & _ & [<- | [<- | []]]);
        apply clampInt16_int16, get_binary64; assumption.
  - intros c0 Hc. unfold Audio.interleavePcm16, Audio.getChannelData.
    rewrite Hc. reflexivity.
Qed.

Lemma X4_interleavePcm16_witness :
  Audio.interleavePcm16
    (Audio.mkAudioBuffer (Number.of_Z 22050) 2
       [[Number.of_Z 1; Number.of_Z 0]; [Number.of_Z (-1); Number.of_Z 2]]) 2
  = Ok [32767; -32768; 0; 32767].
Proof.
  set (b := Audio.mkAudioBuffer (Number.of_Z 22050) 2
       [[Number.of_Z 1; Number.of_Z 0]; [Number.of_Z (-1); Number.of_Z 2]]).
  assert (Hok : samples_ok b) by (repeat constructor).
  destruct (X4_interleavePcm16 b Hok) as (_ & Hst & _).
  destruct (Hst _ _ _ eq_refl) as (H & _). rewrite H. reflexivity.
Defined.

(** ** The scan over a serialized chunk sequence *)

Import Walked.

Lemma chunk_at_serialized (pre post : list byte) (id : String.string)
    (payload : list byte) :
  Datatypes.length (char_codes id) = 4%nat ->
  len payload < 2 ^ 32 ->
  chunk_at (pre ++ chunk_bytes id payload ++ post) (len pre)
  = Some (mkChunk (ascii id) (len payload) (len pre + 8)).
Proof.
  intros Hid Hsz.
  destruct (chunk_at_chunk_bytes pre post id payload Hid Hsz)
    as (c & Hc & Hcid & Hcsz & _).
  cbv zeta in Hc. unfold len. rewrite Hc.
  pose proof (chunk_at_offset _ _ _ Hc) as (_ & _ & Hcdo & _).
  destruct c as [cid csz cdo]. cbn in Hcid, Hcsz, Hcdo. now subst.
Qed.

Lemma walk_serialized (chunks : list (String.string * list byte)) :
  serializable chunks ->
  forall pre,
    walk (pre ++ serialized chunks) (len pre) = walked (len pre) chunks.
Proof.
  unfold serializable, serialized.
  induction 1 as [|[id payload] chunks [Hid Hsz] _ IH]; intros pre.
  - cbn [map concat walked]. rewrite app_nil_r, walk_unfold.
    unfold chunk_at, len.
    destruct (Z.of_nat (Datatypes.length pre) + 8
              <=? Z.of_nat (Datatypes.length pre)) eqn:E;
      [apply Z.leb_le in E; lia|].
    now rewrite andb_false_r.
  - cbn [map concat fst snd walked] in *. rewrite walk_unfold.
    rewrite chunk_at_serialized by assumption. f_equal.
    unfold next_offset. cbn [chunkDataOffset chunkSize].
    specialize (IH (pre ++ chunk_bytes id payload)).
    rewrite <- app_assoc in IH.
    replace (len pre + 8 + len payload + len payload mod 2)
      with (len (pre ++ chunk_bytes id payload)); [exact IH|].
    unfold len at 1. rewrite length_app, Nat2Z.inj_add.
    rewrite chunk_bytes_length by assumption. unfold len. lia.
Qed.

(** X5. On a buffer that is some prefix followed by chunks serialized one
    after the other (tag, 32-bit little-endian payload length, payload, and
    a zero byte after a payload of odd length), the scanning loop started
    at the end of the prefix visits exactly those chunks, each with its tag,
    its payload length and the offset of its payload, stepping over every
    pad byte, and ends without an exception. *)
Theorem X5_scan_visits_serialized_chunks
    (pre : list byte) (chunks : list (String.string * list byte))
    (st : scan_state) :
  serializable chunks ->
  offset st = len pre ->
  let view := pre ++ serialized chunks in
  walk view (len pre) = walked (len pre) chunks /\
  scan view st = Ok (fold_left (apply_chunk view) (walked (len pre) chunks) st).
Proof.
  intros Hs Hoff view. subst view.
  pose proof (walk_serialized chunks Hs pre) as Hw.
  split; [exact Hw|].
  rewrite scan_total by (rewrite Hoff; unfold len; lia).
  now rewrite Hoff, Hw.
Qed.

Lemma X5_scan_visits_serialized_chunks_witness :
  scan (char_codes "RIFF" ++ le_split 4 26 ++ char_codes "WAVE"
        ++ chunk_bytes "JUNK" [Byte.x01; Byte.x02; Byte.x03]
        ++ chunk_bytes "data" [Byte.x05; Byte.x06]) init_state
  = Ok (mkScan 34 0 0 0 2).
Proof.
  pose proof (X5_scan_visits_serialized_chunks
                (char_codes "RIFF" ++ le_split 4 26 ++ char_codes "WAVE")
                [("JUNK"%string, [Byte.x01; Byte.x02; Byte.x03]);
                 ("data"%string, [Byte.x05; Byte.x06])]
                init_state) as H.
  cbv zeta in H.
  destruct H as [_ H].
  - repeat constructor.
  - reflexivity.
  - etransitivity; [|etransitivity; [exact H|]]; [reflexivity|].
    vm_compute. reflexivity.
Defined.

(** ** Arithmetic on normal numbers *)

Import Normal.

Lemma digits2_pos_unique (p : positive) (k : Z) :
  2 ^ (k - 1) <= Zpos p < 2 ^ k -> Zpos (digits2_pos p) = k.
Proof.
  intros [Hlo Hhi]. pose proof (digits2_pos_bounds p) as [Dlo Dhi].
  set (d := Zpos (digits2_pos p)) in *.
  assert (Hd : 0 < d) by (subst d; lia).
  destruct (Z_lt_ge_dec k 1) as [Hk|Hk].
  { assert (2 ^ k <= 2 ^ 0) by (destruct (Z_lt_ge_dec k 0);
      [rewrite Z.pow_neg_r by lia; cbn; lia
      | apply Z.pow_le_mono_r; lia]).
    cbn in *. lia. }
  destruct (Z.lt_trichotomy d k) as [Hlt | [Heq | Hgt]]; [|exact Heq|].
  - assert (2 ^ d <= 2 ^ (k - 1)) by (apply Z.pow_le_mono_r; lia). lia.
  - assert (2 ^ k <= 2 ^ (d - 1)) by (apply Z.pow_le_mono_r; lia). lia.
Qed.

Lemma pow2_split (a b : Z) : 0 <= a -> 0 <= b -> 2 ^ (a + b) = 2 ^ a * 2 ^ b.
Proof. intros. apply Z.pow_add_r; assumption. Qed.

(** A quotient by a power of two keeps the leading 53 bits. *)
Lemma div_pow2_bounds (M d : Z) :
  53 <= d -> 2 ^ (d - 1) <= M < 2 ^ d ->
  2 ^ 52 <= M / 2 ^ (d - 53) < 2 ^ 53.
Proof.
  intros Hd [Hlo Hhi].
  pose proof (pow2_pos (d - 53) ltac:(lia)) as Hp.
  assert (E1 : 2 ^ (d - 1) = 2 ^ 52 * 2 ^ (d - 53))
    by (rewrite <- pow2_split by lia; f_equal; lia).
  assert (E2 : 2 ^ d = 2 ^ 53 * 2 ^ (d - 53))
    by (rewrite <- pow2_split by lia; f_equal; lia).
  rewrite E1 in Hlo. rewrite E2 in Hhi.
  split.
  - apply Z.div_le_lower_bound; lia.
  - apply Z.div_lt_upper_bound; lia.
Qed.

(** Rounding a mantissa of at least 53 bits, far from overflow and
    underflow, gives a positive normal number. *)
Lemma binary_round_aux_normal (M : positive) (E : Z) (l : location) :
  let d := Zpos (digits2_pos M) in
  53 <= d -> -1000 <= d + E <= 1000 ->
  normal_pos (d + E - 53) (d + E - 52)
    (binary_round_aux Number.prec Number.emax false (Zpos M) E l).
Proof.
  intros d Hd HdE. unfold binary_round_aux, shr_fexp.
  pose proof (digits2_pos_bounds M) as HM. fold d in HM.
  assert (Hn1 : fexp Number.prec Number.emax (Zdigits2 (Zpos M) + E) - E
                = d - 53).
  { unfold fexp, emin, Number.prec, Number.emax. cbn [Zdigits2]. fold d. lia. }
  rewrite Hn1.
  destruct (shr_spec (Zpos M) l E (d - 53) ltac:(lia)) as (He1 & Hm1 & _).
  destruct (shr (shr_record_of_loc (Zpos M) l) E (d - 53)) as [mrs1 e1].
  cbn [fst snd] in He1, Hm1.
  replace (Z.max 0 (d - 53)) with (d - 53) in He1, Hm1 by lia.
  pose proof (div_pow2_bounds (Zpos M) d Hd HM) as Hb1. rewrite <- Hm1 in Hb1.
  pose proof (round_nearest_even_bounds (shr_m mrs1) (loc_of_shr_record mrs1))
    as Hr.
  set (M2 := round_nearest_even (shr_m mrs1) (loc_of_shr_record mrs1)) in *.
  change (2 ^ 52) with 4503599627370496 in *.
  change (2 ^ 53) with 9007199254740992 in *.
  destruct M2 as [|p2|p2] eqn:EM2; try lia.
  destruct (Z_lt_ge_dec (Zpos p2) 9007199254740992) as [Hlt|Hge].
  - (* no carry: 53 bits *)
    assert (Hd2 : Zpos (digits2_pos p2) = 53)
      by (apply digits2_pos_unique;
          change (2 ^ (53 - 1)) with 4503599627370496;
          change (2 ^ 53) with 9007199254740992; lia).
    assert (Hn2 : fexp Number.prec Number.emax (Zdigits2 (Zpos p2) + e1) - e1
                  = 0).
    { unfold fexp, emin, Number.prec, Number.emax. cbn [Zdigits2].
      rewrite Hd2. lia. }
    rewrite Hn2. cbn [shr fst snd].
    replace (shr_m (shr_record_of_loc (Zpos p2) loc_Exact)) with (Zpos p2)
      by reflexivity.
    destruct (e1 <=? Number.emax - Number.prec) eqn:Ee;
      [|apply Z.leb_gt in Ee; unfold Number.emax, Number.prec in Ee; lia].
    exists p2, e1. split; [reflexivity|]. split; [exact Hd2 | lia].
  - (* carry: the mantissa is 2^53 *)
    assert (Hp2 : Zpos p2 = 9007199254740992) by lia.
    injection Hp2 as ->.
    assert (Hn2 : fexp Number.prec Number.emax
                    (Zdigits2 9007199254740992 + e1) - e1 = 1).
    { unfold fexp, emin, Number.prec, Number.emax.
      change (Zdigits2 9007199254740992) with 54. lia. }
    rewrite Hn2. cbn [shr fst snd].
    change (shr_m (iter_pos shr_1 1
                     (shr_record_of_loc 9007199254740992 loc_Exact)))
      with 4503599627370496.
    destruct (e1 + 1 <=? Number.emax - Number.prec) eqn:Ee;
      [|apply Z.leb_gt in Ee; unfold Number.emax, Number.prec in Ee; lia].
    exists 4503599627370496%positive, (e1 + 1).
    split; [reflexivity|]. split; [reflexivity | lia].
Qed.

Lemma normal_mantissa (m : positive) :
  Zpos (digits2_pos m) = 53 -> 2 ^ 52 <= Zpos m < 2 ^ 53.
Proof.
  intros H. pose proof (digits2_pos_bounds m) as Hb. rewrite H in Hb.
  exact Hb.
Qed.

Lemma mul_normal (a b c d : Z) (x y : Number.number) :
  normal_pos a b x -> normal_pos c d y ->
  -500 <= a -> b <= 400 -> -500 <= c -> d <= 400 ->
  normal_pos (a + c + 52) (b + d + 54) (Number.mul x y).
Proof.
  intros (mx & ex & -> & Hdx & Hex) (my & ey & -> & Hdy & Hey) Ha Hb Hc Hd.
  unfold Number.mul, SFmul. cbn [xorb].
  pose proof (normal_mantissa mx Hdx) as Hmx.
  pose proof (normal_mantissa my Hdy) as Hmy.
  change (2 ^ 52) with 4503599627370496 in *.
  change (2 ^ 53) with 9007199254740992 in *.
  assert (Hprod : 2 ^ 104 <= Zpos (mx * my) < 2 ^ 106).
  { rewrite Pos2Z.inj_mul.
    change (2 ^ 104) with (4503599627370496 * 4503599627370496).
    change (2 ^ 106) with (9007199254740992 * 9007199254740992).
    split; [apply Z.mul_le_mono_nonneg; lia | apply Z.mul_lt_mono_nonneg; lia]. }
  assert (Hdig : Zpos (digits2_pos (mx * my)) = 105
                 \/ Zpos (digits2_pos (mx * my)) = 106).
  { destruct (Z_lt_ge_dec (Zpos (mx * my)) (2 ^ 105)) as [Hlt|Hge].
    - left. apply digits2_pos_unique. change (105 - 1) with 104. lia.
    - right. apply digits2_pos_unique. change (106 - 1) with 105. lia. }
  pose proof (binary_round_aux_normal (mx * my) (ex + ey) loc_Exact) as H.
  cbv zeta in H.
  destruct H as (m & e & Hr & Hdm & He); [lia | lia |].
  exists m, e. split; [exact Hr|]. split; [exact Hdm | lia].
Qed.

Lemma div_normal (a b c d : Z) (x y : Number.number) :
  normal_pos a b x -> normal_pos c d y ->
  -400 <= a -> b <= 400 -> -400 <= c -> d <= 400 ->
  normal_pos (a - d - 53) (b - c - 51) (Number.div x y).
Proof.
  intros (mx & ex & -> & Hdx & Hex) (my & ey & -> & Hdy & Hey) Ha Hb Hc Hd.
  unfold Number.div, SFdiv, SFdiv_core_binary. cbn [xorb Zdigits2].
  rewrite Hdx, Hdy.
  pose proof (normal_mantissa mx Hdx) as Hmx.
  pose proof (normal_mantissa my Hdy) as Hmy.
  change (2 ^ 52) with 4503599627370496 in *.
  change (2 ^ 53) with 9007199254740992 in *.
  assert (He' : Z.min (fexp Number.prec Number.emax (53 + ex - (53 + ey)))
                  (ex - ey) = ex - ey - 53)
    by (unfold fexp, emin, Number.prec, Number.emax; lia).
  rewrite He'.
  replace (ex - ey - (ex - ey - 53)) with 53 by lia.
  rewrite Z.shiftl_mul_pow2 by lia.
  change (2 ^ 53) with 9007199254740992.
  pose proof (Z.div_eucl_eq (Zpos mx * 9007199254740992) (Zpos my)
                ltac:(lia)) as Heq.
  pose proof (Z.mod_pos_bound (Zpos mx * 9007199254740992) (Zpos my)
                ltac:(lia)) as Hmod.
  unfold Z.modulo in Hmod.
  destruct (Z.div_eucl (Zpos mx * 9007199254740992) (Zpos my)) as [q r].
  assert (Hq : 2 ^ 52 <= q < 2 ^ 54).
  { change (2 ^ 52) with 4503599627370496.
    change (2 ^ 54) with 18014398509481984. nia. }
  destruct q as [|pq|pq]; try (change (2 ^ 52) with 4503599627370496 in Hq; lia).
  assert (Hdig : Zpos (digits2_pos pq) = 53 \/ Zpos (digits2_pos pq) = 54).
  { destruct (Z_lt_ge_dec (Zpos pq) (2 ^ 53)) as [Hlt|Hge].
    - left. apply digits2_pos_unique. change (53 - 1) with 52. lia.
    - right. apply digits2_pos_unique. change (54 - 1) with 53. lia. }
  pose proof (binary_round_aux_normal pq (ex - ey - 53)
                (new_location (Zpos my) r)) as H.
  cbv zeta in H.
  destruct H as (m & e & Hr & Hdm & He); [lia | lia |].
  exists m, e. split; [exact Hr|]. split; [exact Hdm | lia].
Qed.

Lemma iter_xO (k p : positive) :
  Zpos (Pos.iter xO p k) = Zpos p * 2 ^ Zpos k.
Proof.
  induction k as [|k IH] using Pos.peano_ind.
  - cbn [Pos.iter]. lia.
  - rewrite Pos.iter_succ, Pos2Z.inj_xO, IH, Pos2Z.inj_succ.
    rewrite Z.pow_succ_r by lia. lia.
Qed.

(** A positive integer below 2^53 is a normal number. *)
Lemma of_Z_normal (z : Z) :
  1 <= z < 2 ^ 32 -> normal_pos (-52) (-20) (Number.of_Z z).
Proof.
  intros Hz. destruct z as [|p|p]; try lia.
  unfold Number.of_Z, binary_normalize, binary_round, shl_align.
  pose proof (digits2_pos_bounds p) as Hp.
  set (d := Zpos (digits2_pos p)) in *.
  assert (Hd : 1 <= d <= 32).
  { split; [subst d; lia|].
    destruct (Z_le_gt_dec d 32) as [H|H]; [exact H|].
    assert (2 ^ 32 <= 2 ^ (d - 1)) by (apply Z.pow_le_mono_r; lia). lia. }
  assert (Hf : fexp Number.prec Number.emax (d + 0) = d - 53)
    by (unfold fexp, emin, Number.prec, Number.emax; lia).
  rewrite Hf, Z.sub_0_r.
  destruct (d - 53) as [|k|k] eqn:Ek; try lia.
  assert (Hk : Zpos k = 53 - d) by lia.
  pose proof (iter_xO k p) as Hs.
  set (mz := Pos.iter xO p k) in *.
  assert (Hmz : Zpos (digits2_pos mz) = 53).
  { apply digits2_pos_unique. rewrite Hs, Hk.
    pose proof (pow2_pos (53 - d) ltac:(lia)) as Hpp.
    assert (E1 : 2 ^ (53 - 1) = 2 ^ (d - 1) * 2 ^ (53 - d))
      by (rewrite <- pow2_split by lia; f_equal; lia).
    assert (E2 : 2 ^ 53 = 2 ^ d * 2 ^ (53 - d))
      by (rewrite <- pow2_split by lia; f_equal; lia).
    rewrite E1, E2. split; [apply Z.mul_le_mono_nonneg_r; lia|].
    apply Z.mul_lt_mono_pos_r; lia. }
  pose proof (binary_round_aux_normal mz (Zneg k) loc_Exact) as H.
  cbv zeta in H. rewrite Hmz in H.
  destruct H as (m & e & Hr & Hdm & He); [lia | lia |].
  exists m, e. split; [exact Hr|]. split; [exact Hdm | lia].
Qed.

Lemma normal_pos_valid (a b : Z) (x : Number.number) :
  normal_pos a b x ->
  Number.isFinite x = true /\ Number.leb x (Number.of_Z 0) = false.
Proof. intros (m & e & -> & _). split; reflexivity. Qed.

Lemma byte_rate_normal (sampleRate channels bitsPerSample : Z) :
  1 <= sampleRate < 2 ^ 32 -> 1 <= channels < 2 ^ 32 ->
  1 <= bitsPerSample < 2 ^ 32 ->
  normal_pos (-137) 120 (WavInfo.byte_rate sampleRate channels bitsPerSample).
Proof.
  intros Hsr Hch Hbits. unfold WavInfo.byte_rate. cbv zeta.
  pose proof (of_Z_normal sampleRate Hsr) as Nsr.
  pose proof (of_Z_normal channels Hch) as Nch.
  pose proof (of_Z_normal bitsPerSample Hbits) as Nbits.
  pose proof (of_Z_normal 8 ltac:(split; [lia | reflexivity])) as N8.
  pose proof (mul_normal _ _ _ _ _ _ Nsr Nch
                ltac:(lia) ltac:(lia) ltac:(lia) ltac:(lia)) as N1.
  pose proof (div_normal _ _ _ _ _ _ Nbits N8
                ltac:(lia) ltac:(lia) ltac:(lia) ltac:(lia)) as N2.
  pose proof (mul_normal _ _ _ _ _ _ N1 N2
                ltac:(lia) ltac:(lia) ltac:(lia) ltac:(lia)) as N3.
  destruct N3 as (m & e & Hr & Hd & He).
  exists m, e. split; [exact Hr|]. split; [exact Hd | lia].
Qed.

Lemma byte_rate_valid (sampleRate channels bitsPerSample : Z) :
  1 <= sampleRate < 2 ^ 32 -> 1 <= channels < 2 ^ 32 ->
  1 <= bitsPerSample < 2 ^ 32 ->
  WavInfo.byte_rate_invalid
    (WavInfo.byte_rate sampleRate channels bitsPerSample) = false.
Proof.
  intros Hsr Hch Hbits.
  destruct (normal_pos_valid _ _ _
              (byte_rate_normal _ _ _ Hsr Hch Hbits)) as [Hfin Hpos].
  unfold WavInfo.byte_rate_invalid. now rewrite Hfin, Hpos.
Qed.

(** X18. The byte rate check of [readWavInfo] never fails.  For a sample
    rate, a channel count and a bit depth that are positive integers below
    2^32, [sampleRate * channels * (bitsPerSample / 8)] computed in
    binary64 is a positive normal number: finite and above 0.  The scan
    only produces such values, so no buffer makes [readWavInfo] throw the
    byte rate error. *)
Theorem X18_byte_rate_check_never_fails :
  (forall sampleRate channels bitsPerSample,
     1 <= sampleRate < 2 ^ 32 -> 1 <= channels < 2 ^ 32 ->
     1 <= bitsPerSample < 2 ^ 32 ->
     let byteRate := WavInfo.byte_rate sampleRate channels bitsPerSample in
     Number.isFinite byteRate = true /\
     Number.leb byteRate (Number.of_Z 0) = false) /\
  (forall buf, WavInfo.readWavInfo buf <> Throw InvalidByteRate).
Proof.
  split.
  { intros sr ch bits Hsr Hch Hbits byteRate.
    apply (normal_pos_valid _ _ _ (byte_rate_normal _ _ _ Hsr Hch Hbits)). }
  intros buf Hthrow.
  destruct (Z_lt_ge_dec (Z.of_nat (Datatypes.length buf)) 12) as [Hlt|Hge].
  { unfold WavInfo.readWavInfo in Hthrow.
    destruct (Z.of_nat (Datatypes.length buf) <? 12) eqn:E;
      [discriminate | apply Z.ltb_ge in E; lia]. }
  rewrite readWavInfo_unfold in Hthrow by lia.
  destruct (negb _ || negb _); [discriminate|]. cbv zeta in Hthrow.
  destruct (_ || _ || _ || _) eqn:Hzero; [discriminate|].
  pose proof (scan_result_in_bounds buf) as (Hch & Hsr & Hbits & _).
  apply orb_false_elim in Hzero. destruct Hzero as [Hzero _].
  apply orb_false_elim in Hzero. destruct Hzero as [Hzero Hz3].
  apply orb_false_elim in Hzero. destruct Hzero as [Hz1 Hz2].
  apply Z.eqb_neq in Hz1, Hz2, Hz3.
  change (2 ^ 16) with 65536 in *. change (2 ^ 32) with 4294967296 in *.
  rewrite byte_rate_valid in Hthrow
    by (change (2 ^ 32) with 4294967296; lia).
  discriminate.
Qed.

Lemma X18_byte_rate_check_never_fails_witness :
  Number.isFinite (WavInfo.byte_rate 44100 2 16) = true /\
  WavInfo.readWavInfo WavInfo.two_fmt_wav <> Throw InvalidByteRate.
Proof.
  destruct X18_byte_rate_check_never_fails as [Hrate Hread].
  split; [|apply Hread].
  apply (Hrate 44100 2 16); split; reflexivity || discriminate.
Defined.

(** ** The whole kit export *)

Import KitLayout.

Lemma toTargetChannels_shape (buffer out : Audio.AudioBuffer) (channels : Z) :
  channels = 1 \/ channels = 2 ->
  Audio.toTargetChannels buffer channels = Ok out ->
  Datatypes.length (Audio.channelData out) = Z.to_nat channels
  /\ Audio.length out = Audio.length buffer.
Proof.
  intros Hch. unfold Audio.toTargetChannels.
  destruct (Audio.length buffer) as [|n] eqn:En.
  { unfold Audio.createBuffer. cbn [Nat.eqb]. rewrite orb_true_r.
    discriminate. }
  rewrite createBuffer_ok by lia. cbn [bind].
  destruct Hch as [-> | ->].
  - change (1 =? 1) with true. cbv iota.
    change (Z.to_nat 1) with 1%nat. cbn [repeat].
    unfold Audio.getChannelData at 1. cbn [Audio.channelData nth_error bind].
    destruct (Audio.for_range_r _ _ _ _) as [d|e]; cbn [bind];
      [|discriminate].
    intros [= <-]. split; reflexivity.
  - change (2 =? 1) with false. cbv iota.
    change (Z.to_nat 2) with 2%nat. cbn [repeat].
    unfold Audio.getChannelData at 1 2.
    cbn [Audio.channelData nth_error bind].
    destruct (Audio.numberOfChannels buffer =? 1)%nat.
    + destruct (Audio.getChannelData buffer 0) as [src|e]; cbn [bind];
        [|discriminate].
      destruct (set_at _ src 0) as [l|e]; cbn [bind]; [|discriminate].
      intros [= <-]. split; reflexivity.
    + destruct (Audio.getChannelData buffer 0) as [src0|e]; cbn [bind];
        [|discriminate].
      destruct (set_at _ src0 0) as [l|e]; cbn [bind]; [|discriminate].
      destruct (Audio.getChannelData buffer 1) as [src1|e]; cbn [bind];
        [|discriminate].
      destruct (set_at _ src1 0) as [r|e]; cbn [bind]; [|discriminate].
      intros [= <-]. split; reflexivity.
Qed.


Lemma interleave_shape (b : Audio.AudioBuffer) (channels : Z) :
  channels = 1 \/ channels = 2 ->
  Datatypes.length (Audio.channelData b) = Z.to_nat channels ->
  exists c,
    Audio.interleavePcm16 b channels = Ok c
    /\ Z.of_nat (Datatypes.length c) = Z.of_nat (Audio.length b) * channels.
Proof.
  intros [-> | ->] Hn.
  - destruct (Audio.channelData b) as [|c0 [|c1 rest]] eqn:E;
      try discriminate.
    eexists. split; [apply (interleave_mono b c0 [] E)|].
    rewrite length_map, length_seq. lia.
  - destruct (Audio.channelData b) as [|l [|r [|x rest]]] eqn:E;
      try discriminate.
    eexists. split; [apply (interleave_stereo b l r [] E)|].
    rewrite flat_map_pairs_length. lia.
Qed.

(** The second loop: the chunks land one after the other. *)
Lemma write_loop (channels : Z) (bufs : list Audio.AudioBuffer)
    (chunks : list Audio.Int16Array) :
  Forall2 (fun b c => Audio.interleavePcm16 b channels = Ok c) bufs chunks ->
  forall done rest : Audio.Int16Array,
    Datatypes.length rest = Datatypes.length (concat chunks) ->
    for_of (write_pcm channels) bufs
      (done ++ rest, Z.of_nat (Datatypes.length done))
    = Ok (done ++ concat chunks,
          Z.of_nat (Datatypes.length (done ++ concat chunks))).
Proof.
  induction 1 as [|b c bufs chunks Hc _ IH]; intros done rest Hlen.
  - cbn [concat] in *. destruct rest; [|discriminate].
    rewrite !app_nil_r. reflexivity.
  - cbn [concat] in *. rewrite length_app in Hlen.
    assert (Hstep : write_pcm channels
                      (done ++ rest, Z.of_nat (Datatypes.length done)) b
                    = Ok ((done ++ c) ++ skipn (Datatypes.length c) rest,
                          Z.of_nat (Datatypes.length (done ++ c)))).
    { unfold write_pcm. rewrite Hc. cbn [bind].
      rewrite <- (firstn_skipn (Datatypes.length c) rest) at 1.
      rewrite set_at_seq;
        [| reflexivity | rewrite length_firstn; lia].
      cbn [bind]. rewrite <- app_assoc, length_app. do 2 f_equal.
      lia. }
    rewrite (for_of_cons _ _ _ _ _ Hstep).
    rewrite IH by (rewrite length_skipn; lia).
    now rewrite <- !app_assoc.
Qed.

Lemma chunks_total {A : Type} (channels : Z) (frames : A -> Z)
    (pairs : list A) (chunks : list Audio.Int16Array) :
  Forall2 (fun p c => Z.of_nat (Datatypes.length c) = frames p * channels)
    pairs chunks ->
  Z.of_nat (Datatypes.length (concat chunks))
  = fold_right Z.add 0 (map frames pairs) * channels.
Proof.
  induction 1 as [|p c pairs chunks Hc _ IH]; [reflexivity|].
  cbn [concat map fold_right].
  rewrite length_app, Nat2Z.inj_add, Hc, IH. lia.
Qed.

Lemma list_body_even (regions : list RegionMapper.AcDryRegion) :
  len (list_body regions) mod 2 = 0.
Proof.
  unfold list_body, len. rewrite length_app, Nat2Z.inj_add.
  destruct (pad_of_cases (list_payload regions)) as [[H ->] | [H ->]];
    cbn [Datatypes.length].
  - rewrite Z.add_mod, H by lia. reflexivity.
  - rewrite Z.add_0_r. exact H.
Qed.

Lemma fmt_payload_length (channels : Z) (sampleRate : Number.number)
    (bits : Z) :
  Datatypes.length (fmt_payload channels sampleRate bits) = 16%nat.
Proof.
  unfold fmt_payload. cbv zeta. rewrite !length_app, !length_le_split.
  reflexivity.
Qed.

Lemma smpl_payload_length (sampleRate : Number.number) :
  Datatypes.length (smpl_payload sampleRate) = 36%nat.
Proof.
  unfold smpl_payload. rewrite !length_app, !length_le_split. reflexivity.
Qed.

Lemma pcm_bytes_even (pcm : Audio.Int16Array) :
  len (pcm_bytes pcm) mod 2 = 0.
Proof.
  unfold len. rewrite pcm_bytes_length, Nat2Z.inj_mul, Z.mul_comm.
  apply Z.mod_mul. lia.
Qed.

(** The four builders produce the four chunks of [kit_chunks]. *)
Lemma builders_serialized (options : ExportOptions.t)
    (regions : list RegionMapper.AcDryRegion) (pcm : Audio.Int16Array) :
  buildFmtChunkPcm (ExportOptions.channels options)
    (ExportOptions.sampleRate options) 16
  = Ok (chunk_bytes "fmt " (fmt_payload (ExportOptions.channels options)
                              (ExportOptions.sampleRate options) 16))
  /\ buildListChunkTnge regions = Ok (chunk_bytes "LIST" (list_body regions))
  /\ buildSmplChunk (ExportOptions.sampleRate options)
     = Ok (chunk_bytes "smpl" (smpl_payload (ExportOptions.sampleRate options)))
  /\ buildDataChunk pcm = Ok (chunk_bytes "data" (pcm_bytes pcm)).
Proof.
  split; [|split; [|split]].
  - rewrite (chunk_bytes_even _ _ 16);
      [| now rewrite fmt_payload_length | reflexivity].
    apply buildFmtChunkPcm_eq.
  - rewrite (chunk_bytes_even _ _ _ eq_refl (list_body_even regions)).
    pose proof (buildListChunkTnge_eq regions) as H. cbv zeta in H.
    rewrite H. unfold list_body, len.
    rewrite length_app, Nat2Z.inj_add, <- ?app_assoc. reflexivity.
  - rewrite (chunk_bytes_even _ _ 36);
      [| now rewrite smpl_payload_length | reflexivity].
    apply buildSmplChunk_eq.
  - rewrite (chunk_bytes_even _ _ _ eq_refl (pcm_bytes_even pcm)).
    apply buildDataChunk_eq.
Qed.

Lemma Forall_exists_Forall2 {A B : Type} (P : A -> B -> Prop) (l : list A) :
  Forall (fun a => exists b, P a b) l -> exists l', Forall2 P l l'.
Proof.
  induction 1 as [|a l [b Hb] _ [l' IH]].
  - exists []. constructor.
  - exists (b :: l'). now constructor.
Qed.

Lemma serialized_four (a b c d : String.string * list byte) :
  serialized [a; b; c; d]
  = chunk_bytes (fst a) (snd a) ++ chunk_bytes (fst b) (snd b)
    ++ chunk_bytes (fst c) (snd c) ++ chunk_bytes (fst d) (snd d).
Proof.
  unfold serialized. cbn [map concat]. now rewrite app_nil_r.
Qed.

Section KitExport.

Variable Blob : Type.
Variable decodeToAudioBuffer : Blob -> result Audio.AudioBuffer.
Variable offlineRender :
  Audio.AudioBuffer -> Number.number -> result Audio.AudioBuffer.
Variable options : ExportOptions.t.

Local Notation "'render_'" :=
  (render Blob decodeToAudioBuffer offlineRender options).
Local Notation "'export_'" :=
  (exportAcDryKitWavPcm16 Blob decodeToAudioBuffer offlineRender).
Local Notation "'channels_'" := (ExportOptions.channels options).
Local Notation "'sampleRate_'" := (ExportOptions.sampleRate options).

Lemma render_shape (it : item Blob) (b : Audio.AudioBuffer) :
  channels_ = 1 \/ channels_ = 2 ->
  render_ it = Ok b ->
  Datatypes.length (Audio.channelData b) = Z.to_nat channels_.
Proof.
  intros Hch. unfold render.
  destruct (decodeToAudioBuffer (file it)) as [d|e]; cbn [bind];
    [|discriminate].
  destruct (resample _ _ _) as [rs|e]; cbn [bind]; [|discriminate].
  intros H. now apply (toTargetChannels_shape rs b _ Hch).
Qed.

(** When every item renders the export succeeds, and its bytes are the
    RIFF/WAVE file of the four kit chunks. *)
Lemma kit_export_general (items : list (item Blob))
    (bufs : list Audio.AudioBuffer) :
  channels_ = 1 \/ channels_ = 2 ->
  Forall2 (fun it b => render_ it = Ok b) (sort_by_note items) bufs ->
  let pairs := kept (combine (sort_by_note items) bufs) in
  let total := fold_right Z.add 0 (map frames_of pairs) in
  let regions :=
    RegionMapper.buildAcDryRegions (map (fun p => note (fst p)) pairs)
      (map frames_of pairs) in
  exists chunks,
    Forall2 (fun p c =>
               Audio.interleavePcm16 (snd p) channels_ = Ok c
               /\ Z.of_nat (Datatypes.length c) = frames_of p * channels_)
      pairs chunks /\
    Z.of_nat (Datatypes.length (concat chunks)) = total * channels_ /\
    export_ items options
    = Ok (mkExport (riff_wave (kit_chunks options regions (concat chunks)))
            (Number.div (Number.of_Z total) sampleRate_)).
Proof.
  intros Hch Hall pairs total regions.
  destruct (Forall2_combine _ _ _ Hall) as [Hrender Hfst].
  pose proof (collect_loop Blob decodeToAudioBuffer offlineRender options
                _ Hrender (mkCollected [] [] [] 0)) as Hloop.
  rewrite Hfst in Hloop.
  cbn [rendered notes frameLengths totalFrames app] in Hloop.
  fold pairs in Hloop. rewrite Z.add_0_l in Hloop. fold total in Hloop.
  assert (Hkept : Forall (fun p => exists c,
                            Audio.interleavePcm16 (snd p) channels_ = Ok c
                            /\ Z.of_nat (Datatypes.length c)
                               = frames_of p * channels_) pairs).
  { apply Forall_forall. intros p Hp.
    apply filter_In in Hp. destruct Hp as [Hp _].
    rewrite Forall_forall in Hrender. specialize (Hrender p Hp).
    apply (interleave_shape (snd p) _ Hch).
    apply (render_shape (fst p)); assumption. }
  destruct (Forall_exists_Forall2 _ _ Hkept) as [chunks Hchunks].
  exists chunks. split; [exact Hchunks|].
  assert (Htotal : Z.of_nat (Datatypes.length (concat chunks))
                   = total * channels_).
  { apply (chunks_total channels_ frames_of pairs chunks).
    eapply Forall2_impl; [|exact Hchunks]. now intros p c [_ H]. }
  split; [exact Htotal|].
  assert (Hwrite : for_of (write_pcm channels_) (map snd pairs)
                     (repeat 0 (Z.to_nat (total * channels_))
                        : Audio.Int16Array, 0)
                   = Ok (concat chunks,
                         Z.of_nat (Datatypes.length (concat chunks)))).
  { apply (write_loop channels_ (map snd pairs) chunks
             ltac:(clear -Hchunks; induction Hchunks as [|p c ps cs [H _] _ IH];
                   [constructor | now constructor])
             [] (repeat 0 (Z.to_nat (total * channels_)))).
    rewrite repeat_length. lia. }
  destruct (builders_serialized options regions (concat chunks))
    as (Hfmt & Hlist & Hsmpl & Hdata).
  unfold exportAcDryKitWavPcm16. fold (collect Blob decodeToAudioBuffer
                                               offlineRender items options).
  unfold collect. cbv zeta. rewrite Hloop. cbn [bind].
  erewrite assemble_eq;
    [ | exact Hwrite | exact Hfmt | exact Hlist | exact Hsmpl | exact Hdata ].
  cbn [totalFrames]. unfold riff_wave, kit_chunks.
  rewrite serialized_four. cbn [fst snd].
  do 4 f_equal. apply f_equal. unfold len. rewrite !length_app. lia.
Qed.

End KitExport.

(** *** Reading an exported kit back *)

Lemma riff_wave_split (chunks : list (String.string * list byte)) :
  riff_wave chunks
  = (char_codes "RIFF" ++ le_split 4 (4 + len (serialized chunks))
     ++ char_codes "WAVE") ++ serialized chunks.
Proof. unfold riff_wave. now rewrite <- !app_assoc. Qed.

Lemma riff_wave_tags (chunks : list (String.string * list byte)) :
  WavInfo.codes_at (riff_wave chunks) 0 = WavInfo.ascii "RIFF"
  /\ WavInfo.codes_at (riff_wave chunks) 8 = WavInfo.ascii "WAVE".
Proof.
  split; reflexivity.
Qed.

(** The format fields the parser reads in a serialized [fmt ] chunk. *)
Lemma fmt_fields_serialized (pre post : list byte) (channels bits : Z)
    (sampleRate : Number.number) (id : list Z) (size : Z) :
  WavInfo.fmt_fields
    (pre ++ chunk_bytes "fmt " (fmt_payload channels sampleRate bits) ++ post)
    (WavInfo.mkChunk id size (len pre + 8))
  = (channels mod 2 ^ 16, Number.ToUint32 sampleRate, bits mod 2 ^ 16).
Proof.
  unfold WavInfo.fmt_fields. cbn [WavInfo.chunkDataOffset].
  unfold chunk_bytes, fmt_payload. cbv zeta.
  set (br := Number.ToUint32 (Number.mul _ _)).
  set (ba := Number.ToUint16 _).
  rewrite <- !app_assoc.
  f_equal; [f_equal|].
  - rewrite (app_assoc pre), (app_assoc _ (le_split 4 _)),
      (app_assoc _ (le_split 2 1)).
    rewrite bytes_at_here;
      [ apply le_combine_split
      | rewrite !length_app, !length_le_split; unfold len;
        change (Datatypes.length (char_codes "fmt ")) with 4%nat; lia
      | now rewrite length_le_split ].
  - rewrite (app_assoc pre), (app_assoc _ (le_split 4 _)),
      (app_assoc _ (le_split 2 1)), (app_assoc _ (le_split 2 channels)).
    rewrite bytes_at_here;
      [ rewrite le_combine_split; unfold Number.ToUint32;
        apply Z.mod_mod; discriminate
      | rewrite !length_app, !length_le_split; unfold len;
        change (Datatypes.length (char_codes "fmt ")) with 4%nat; lia
      | now rewrite length_le_split ].
  - rewrite (app_assoc pre), (app_assoc _ (le_split 4 _)),
      (app_assoc _ (le_split 2 1)), (app_assoc _ (le_split 2 channels)),
      (app_assoc _ (le_split 4 (Number.ToUint32 sampleRate))),
      (app_assoc _ (le_split 4 br)), (app_assoc _ (le_split 2 ba)).
    rewrite bytes_at_here;
      [ apply le_combine_split
      | rewrite !length_app, !length_le_split; unfold len;
        change (Datatypes.length (char_codes "fmt ")) with 4%nat; lia
      | now rewrite length_le_split ].
Qed.

Lemma riff_wave_length (options : ExportOptions.t)
    (regions : list RegionMapper.AcDryRegion) (pcm : Audio.Int16Array) :
  len (riff_wave (kit_chunks options regions pcm))
  = 96 + len (list_body regions) + 2 * Z.of_nat (Datatypes.length pcm).
Proof.
  unfold riff_wave, kit_chunks. rewrite serialized_four. cbn [fst snd].
  pose proof (list_body_even regions) as Hl.
  pose proof (pcm_bytes_even pcm) as Hp.
  unfold len in *.
  rewrite !length_app, !Nat2Z.inj_add, length_le_split.
  rewrite !chunk_bytes_length by reflexivity.
  rewrite Hl, Hp, fmt_payload_length, smpl_payload_length, pcm_bytes_length.
  change (Datatypes.length (char_codes "RIFF")) with 4%nat.
  change (Datatypes.length (char_codes "WAVE")) with 4%nat.
  change (Z.of_nat 16 mod 2) with 0. change (Z.of_nat 36 mod 2) with 0.
  lia.
Qed.

Lemma scan_kit (options : ExportOptions.t)
    (regions : list RegionMapper.AcDryRegion) (pcm : Audio.Int16Array) :
  len (list_body regions) < 2 ^ 32 ->
  2 * Z.of_nat (Datatypes.length pcm) < 2 ^ 32 ->
  let wav := riff_wave (kit_chunks options regions pcm) in
  WavInfo.scan_result wav
  = WavInfo.mkScan (len wav) (ExportOptions.channels options mod 2 ^ 16)
      (Number.ToUint32 (ExportOptions.sampleRate options)) 16
      (2 * Z.of_nat (Datatypes.length pcm)).
Proof.
  intros Hlist Hpcm wav.
  assert (Hlen : len wav = 96 + len (list_body regions)
                           + 2 * Z.of_nat (Datatypes.length pcm))
    by apply riff_wave_length.
  pose proof (list_body_even regions) as Hl.
  pose proof (pcm_bytes_even pcm) as Hp.
  assert (Hpl : len (pcm_bytes pcm) = 2 * Z.of_nat (Datatypes.length pcm))
    by (unfold len; rewrite pcm_bytes_length; lia).
  assert (Hfl : len (fmt_payload (ExportOptions.channels options)
                       (ExportOptions.sampleRate options) 16) = 16)
    by (unfold len; now rewrite fmt_payload_length).
  assert (Hsl : len (smpl_payload (ExportOptions.sampleRate options)) = 36)
    by (unfold len; now rewrite smpl_payload_length).
  unfold WavInfo.scan_result. rewrite Hlen. subst wav.
  rewrite riff_wave_split.
  set (pre := char_codes "RIFF" ++ _ ++ char_codes "WAVE").
  assert (Hpre : len pre = 12)
    by (unfold len; subst pre; rewrite !length_app, length_le_split;
        reflexivity).
  rewrite <- Hpre at 1.
  rewrite walk_serialized.
  2:{ unfold serializable, kit_chunks.
      repeat constructor; cbn [fst snd]; fold (len (list_body regions));
        fold (len (pcm_bytes pcm));
        rewrite ?fmt_payload_length, ?smpl_payload_length; lia. }
  rewrite Hpre. unfold kit_chunks at 2. cbn [walked fold_left].
  rewrite Hfl, Hsl, Hl, Hpl.
  set (view := pre ++ serialized (kit_chunks options regions pcm)).
  assert (H1 : WavInfo.apply_chunk view WavInfo.init_state
                 (WavInfo.mkChunk (WavInfo.ascii "fmt ") 16 (12 + 8))
               = WavInfo.mkScan 36
                   (ExportOptions.channels options mod 2 ^ 16)
                   (Number.ToUint32 (ExportOptions.sampleRate options)) 16 0).
  { unfold WavInfo.apply_chunk.
    replace (WavInfo.is_fmt16 (WavInfo.mkChunk (WavInfo.ascii "fmt ") 16 (12 + 8)))
      with true by reflexivity.
    subst view. unfold kit_chunks, serialized. cbn [map concat fst snd].
    rewrite <- Hpre at 1. rewrite fmt_fields_serialized. reflexivity. }
  rewrite H1. clear H1.
  unfold WavInfo.apply_chunk, WavInfo.is_fmt16, WavInfo.is_fmt,
    WavInfo.is_data, WavInfo.next_offset.
  cbn [WavInfo.chunkId WavInfo.chunkSize WavInfo.chunkDataOffset
       WavInfo.st_channels WavInfo.st_sampleRate WavInfo.st_bitsPerSample
       WavInfo.st_dataBytes].
  change (WavInfo.str_eqb (WavInfo.ascii "LIST") "fmt ") with false.
  change (WavInfo.str_eqb (WavInfo.ascii "LIST") "data") with false.
  change (WavInfo.str_eqb (WavInfo.ascii "smpl") "fmt ") with false.
  change (WavInfo.str_eqb (WavInfo.ascii "smpl") "data") with false.
  change (WavInfo.str_eqb (WavInfo.ascii "data") "fmt ") with false.
  change (WavInfo.str_eqb (WavInfo.ascii "data") "data") with true.
  cbn [andb negb].
  f_equal.
  replace (2 * Z.of_nat (Datatypes.length pcm) mod 2) with 0
    by (rewrite Z.mul_comm, Z.mod_mul; lia).
  rewrite ?Hl. change (16 mod 2) with 0. change (36 mod 2) with 0. lia.
Qed.

Lemma for_of_throw {A S : Type} (body : S -> A -> result S) (xs : list A)
    (e : exn) :
  fold_left (fun acc x => st <- acc ;; body st x) xs (Throw e) = Throw e.
Proof. induction xs as [|x xs IH]; [reflexivity | exact IH]. Qed.

Section KitExportFacts.

Variable Blob : Type.
Variable decodeToAudioBuffer : Blob -> result Audio.AudioBuffer.
Variable offlineRender :
  Audio.AudioBuffer -> Number.number -> result Audio.AudioBuffer.
Variable options : ExportOptions.t.

Local Notation "'render_'" :=
  (render Blob decodeToAudioBuffer offlineRender options).
Local Notation "'export_'" :=
  (exportAcDryKitWavPcm16 Blob decodeToAudioBuffer offlineRender).
Local Notation "'channels_'" := (ExportOptions.channels options).
Local Notation "'sampleRate_'" := (ExportOptions.sampleRate options).

(** X6. With a target of 1 or 2 channels, when every item decodes and
    renders, [exportAcDryKitWavPcm16] returns without an exception: no
    [getChannelData] and no [set] of the later steps can throw.  The bytes
    are [RIFF], the length of the rest, [WAVE], and the [fmt ], [LIST],
    [smpl] and [data] chunks; the [data] payload is the interleaved PCM of
    the kept buffers one after the other in note order, two bytes per
    sample and [channels] samples per frame; the file is 96 bytes plus the
    padded [LIST] payload plus the PCM bytes long, which is even; the
    duration is the total frame count over the sample rate. *)
Theorem X6_kit_export_succeeds (items : list (item Blob))
    (bufs : list Audio.AudioBuffer) :
  channels_ = 1 \/ channels_ = 2 ->
  Forall2 (fun it b => render_ it = Ok b) (sort_by_note items) bufs ->
  let pairs := kept (combine (sort_by_note items) bufs) in
  let total := fold_right Z.add 0 (map frames_of pairs) in
  let regions :=
    RegionMapper.buildAcDryRegions (map (fun p => note (fst p)) pairs)
      (map frames_of pairs) in
  exists e chunks,
    export_ items options = Ok e /\
    Forall2 (fun p c => Audio.interleavePcm16 (snd p) channels_ = Ok c)
      pairs chunks /\
    wavBytes e = riff_wave (kit_chunks options regions (concat chunks)) /\
    len (pcm_bytes (concat chunks)) = 2 * total * channels_ /\
    len (wavBytes e) = 96 + len (list_body regions) + 2 * total * channels_ /\
    len (wavBytes e) mod 2 = 0 /\
    durationSec e = Number.div (Number.of_Z total) sampleRate_.
Proof.
  intros Hch Hall pairs total regions.
  destruct (kit_export_general Blob decodeToAudioBuffer offlineRender options
              items bufs Hch Hall) as (chunks & Hchunks & Htotal & Hexp).
  fold pairs in Hchunks. fold pairs total in Htotal.
  fold pairs total regions in Hexp.
  eexists. exists chunks. split; [exact Hexp|].
  cbn [wavBytes durationSec].
  split; [eapply Forall2_impl; [|exact Hchunks]; now intros p c [H _]|].
  split; [reflexivity|].
  split; [unfold len; rewrite pcm_bytes_length; lia|].
  assert (Hlen : len (riff_wave (kit_chunks options regions (concat chunks)))
                 = 96 + len (list_body regions) + 2 * total * channels_)
    by (rewrite riff_wave_length; lia).
  split; [exact Hlen|].
  split; [|reflexivity].
  rewrite Hlen. pose proof (list_body_even regions) as Hl.
  replace (96 + len (list_body regions) + 2 * total * channels_)
    with (len (list_body regions) + (48 + total * channels_) * 2) by lia.
  rewrite Z.mod_add by lia. exact Hl.
Qed.

(** X7. The first loop of the kit encoder stops at the first item, in
    note order, that fails to decode or render: the export then throws
    that item's exception, whatever the items after it are, and also when
    the failing file would have had no frames. *)
Theorem X7_first_failure_aborts_export (items pre post : list (item Blob))
    (it : item Blob) (bufs : list Audio.AudioBuffer) (x : exn) :
  sort_by_note items = pre ++ it :: post ->
  Forall2 (fun i b => render_ i = Ok b) pre bufs ->
  render_ it = Throw x ->
  export_ items options = Throw x.
Proof.
  intros Hsort Hpre Hit.
  destruct (Forall2_combine _ _ _ Hpre) as [Hrender Hfst].
  pose proof (collect_loop Blob decodeToAudioBuffer offlineRender options
                _ Hrender (mkCollected [] [] [] 0)) as Hloop.
  rewrite Hfst in Hloop.
  unfold exportAcDryKitWavPcm16, collect. cbv zeta.
  rewrite Hsort. unfold for_of in *. rewrite fold_left_app, Hloop.
  cbn [fold_left bind]. unfold collect_item at 2. rewrite Hit. cbn [bind].
  rewrite for_of_throw. reflexivity.
Qed.

(** X8. The header parser reads an exported kit back.  With a target of
    1 or 2 channels, every item rendering, and a [LIST] payload and PCM
    data below 2^32 bytes, the scan of the exported bytes walks the four
    chunks to the end of the file and ends with the channel count, the
    sample rate as the 32-bit integer stored, 16 bits per sample and
    [2 * totalFrames * channels] data bytes.  [readWavInfo] on these bytes
    throws the missing-data error when no frame was kept or the stored
    rate is 0, and otherwise returns these four values, with the data
    bytes over the byte rate as duration. *)
Theorem X8_kit_round_trip (items : list (item Blob))
    (bufs : list Audio.AudioBuffer) :
  channels_ = 1 \/ channels_ = 2 ->
  Forall2 (fun it b => render_ it = Ok b) (sort_by_note items) bufs ->
  let pairs := kept (combine (sort_by_note items) bufs) in
  let total := fold_right Z.add 0 (map frames_of pairs) in
  let regions :=
    RegionMapper.buildAcDryRegions (map (fun p => note (fst p)) pairs)
      (map frames_of pairs) in
  let rate := Number.ToUint32 sampleRate_ in
  let dataBytes := 2 * total * channels_ in
  len (list_body regions) < 2 ^ 32 ->
  dataBytes < 2 ^ 32 ->
  exists e,
    export_ items options = Ok e /\
    WavInfo.scan (wavBytes e) WavInfo.init_state
    = Ok (WavInfo.mkScan (len (wavBytes e)) channels_ rate 16 dataBytes) /\
    WavInfo.readWavInfo (wavBytes e)
    = if (rate =? 0) || (total =? 0) then Throw MissingFmtOrData
      else Ok (WavInfo.mkWavInfo channels_ rate 16 dataBytes
                 (Number.div (Number.of_Z dataBytes)
                    (WavInfo.byte_rate rate channels_ 16))).
Proof.
  intros Hch Hall pairs total regions rate dataBytes Hlist Hdata.
  destruct (kit_export_general Blob decodeToAudioBuffer offlineRender options
              items bufs Hch Hall) as (chunks & _ & Htotal & Hexp).
  fold pairs total in Htotal. fold pairs total regions in Hexp.
  eexists. split; [exact Hexp|]. cbn [wavBytes].
  assert (Hpcm : 2 * Z.of_nat (Datatypes.length (concat chunks)) = dataBytes)
    by (subst dataBytes; lia).
  pose proof (scan_kit options regions (concat chunks) Hlist
                ltac:(rewrite Hpcm; exact Hdata)) as Hscan.
  cbv zeta in Hscan. rewrite Hpcm in Hscan.
  replace (channels_ mod 2 ^ 16) with channels_ in Hscan
    by (destruct Hch as [-> | ->]; reflexivity).
  fold rate in Hscan.
  split; [rewrite scan_init, Hscan; reflexivity|].
  assert (H12 : 12 <= len (riff_wave (kit_chunks options regions
                                        (concat chunks))))
    by (rewrite riff_wave_length; unfold len; lia).
  rewrite (readWavInfo_unfold _ H12).
  destruct (riff_wave_tags (kit_chunks options regions (concat chunks)))
    as [-> ->].
  change (negb (WavInfo.str_eqb (WavInfo.ascii "RIFF") "RIFF")
          || negb (WavInfo.str_eqb (WavInfo.ascii "WAVE") "WAVE"))
    with false.
  cbv iota zeta. rewrite Hscan.
  cbn [WavInfo.st_channels WavInfo.st_sampleRate WavInfo.st_bitsPerSample
       WavInfo.st_dataBytes].
  replace (channels_ =? 0) with false
    by (destruct Hch as [-> | ->]; reflexivity).
  change (16 =? 0) with false. rewrite orb_false_l, orb_false_r.
  replace (dataBytes =? 0) with (total =? 0).
  2:{ subst dataBytes.
      destruct (Z.eqb_spec total 0) as [E|E];
        destruct (Z.eqb_spec (2 * total * channels_) 0) as [E'|E'];
        try reflexivity; exfalso; destruct Hch as [H|H]; rewrite H in *; lia. }
  destruct ((rate =? 0) || (total =? 0)) eqn:Hzero; [reflexivity|].
  apply orb_false_elim in Hzero. destruct Hzero as [Hrate _].
  apply Z.eqb_neq in Hrate.
  assert (Hr32 : 0 <= rate < 2 ^ 32)
    by (subst rate; unfold Number.ToUint32; apply Z.mod_pos_bound; reflexivity).
  rewrite byte_rate_valid;
    [ reflexivity | lia
    | destruct Hch as [H|H]; rewrite H; split; reflexivity || discriminate
    | split; reflexivity || discriminate ].
Qed.

End KitExportFacts.

Lemma X6_kit_export_succeeds_witness :
  exists e,
    two_note_kit = Ok e /\
    len (wavBytes e) = 564 /\
    durationSec e = Number.div (Number.of_Z 3) (Number.of_Z 22050).
Proof.
  destruct (X6_kit_export_succeeds Audio.AudioBuffer decode_id render_id
              options_22050_mono
              [mkItem 67 (silence 2); mkItem 60 (silence 1)]
              [silence 1; silence 2] (or_introl eq_refl)
              ltac:(repeat constructor))
    as (e & chunks & Hexp & _ & _ & _ & Hlen & _ & Hdur).
  exists e. split; [exact Hexp|]. split; [|exact Hdur].
  rewrite Hlen. vm_compute. reflexivity.
Defined.

Lemma X7_first_failure_aborts_export_witness :
  exportAcDryKitWavPcm16 (option Audio.AudioBuffer) decode_opt render_id
    [mkItem 72 None; mkItem 60 (Some (silence 1)); mkItem 64 None]
    options_22050_mono
  = Throw DecodeError.
Proof.
  apply (X7_first_failure_aborts_export (option Audio.AudioBuffer)
           decode_opt render_id options_22050_mono _
           [mkItem 60 (Some (silence 1))] [mkItem 72 None]
           (mkItem 64 None) [silence 1] DecodeError);
    [reflexivity | repeat constructor | reflexivity].
Defined.

Lemma X8_kit_round_trip_witness :
  exists e,
    two_note_kit = Ok e /\
    WavInfo.readWavInfo (wavBytes e)
    = Ok (WavInfo.mkWavInfo 1 22050 16 6
            (Number.div (Number.of_Z 6) (Number.of_Z 44100))).
Proof.
  destruct (X8_kit_round_trip Audio.AudioBuffer decode_id render_id
              options_22050_mono
              [mkItem 67 (silence 2); mkItem 60 (silence 1)]
              [silence 1; silence 2] (or_introl eq_refl)
              ltac:(repeat constructor)
              ltac:(vm_compute; reflexivity) ltac:(vm_compute; reflexivity))
    as (e & Hexp & _ & Hread).
  exists e. split; [exact Hexp|].
  rewrite Hread. vm_compute. reflexivity.
Defined.

(** ** Kit encoder: items without frames *)


Section KitClaim.

Variable Blob : Type.
Variable decodeToAudioBuffer : Blob -> result Audio.AudioBuffer.
Variable offlineRender :
  Audio.AudioBuffer -> Number.number -> result Audio.AudioBuffer.
Variable options : ExportOptions.t.

Local Notation "'render_'" :=
  (render Blob decodeToAudioBuffer offlineRender options).









End KitClaim.


(** A buffer without frames is not dropped by the loop: the remixer
    throws on it and the export with it. *)
Example kit_of_a_buffer_without_frames :
  exportAcDryKitWavPcm16 Audio.AudioBuffer decode_id render_id
    items_middle_without_frames options_22050_mono
  = Throw NotSupportedError.
Proof. reflexivity. Qed.

(** ** Sorting by note and the first loop *)

Import NoteOrder.


Section SortFacts.

Variable Blob : Type.

Lemma insert_by_note_perm (it : item Blob) (l : list (item Blob)) :
  Permutation (insert_by_note it l) (it :: l).
Proof.
  induction l as [|x l IH]; cbn [insert_by_note]; [reflexivity|].
  destruct (note it <=? note x); [reflexivity|].
  apply perm_trans with (x :: it :: l); [apply perm_skip, IH | apply perm_swap].
Qed.

Lemma insert_by_note_sorted (it : item Blob) (l : list (item Blob)) :
  StronglySorted note_le l -> StronglySorted note_le (insert_by_note it l).
Proof.
  induction 1 as [|x l Hs IH Hall]; cbn [insert_by_note].
  - repeat constructor.
  - destruct (note it <=? note x) eqn:E.
    + apply Z.leb_le in E. constructor; [now constructor|].
      constructor; [exact E|].
      eapply Forall_impl; [|exact Hall]. unfold note_le in *.
      intros a Ha. lia.
    + apply Z.leb_gt in E. constructor; [exact IH|].
      apply (Permutation_Forall (Permutation_sym (insert_by_note_perm it l))).
      constructor; [unfold note_le; lia | exact Hall].
Qed.

Lemma insert_by_note_filter (it : item Blob) (l : list (item Blob)) (n : Z) :
  StronglySorted note_le l ->
  bound_to n (insert_by_note it l) = bound_to n (it :: l).
Proof.
  unfold bound_to.
  induction 1 as [|x l Hs IH Hall]; cbn [insert_by_note]; [reflexivity|].
  destruct (note it <=? note x) eqn:E; [reflexivity|].
  apply Z.leb_gt in E. cbn [filter] in *. rewrite IH.
  destruct (Z.eqb_spec (note it) n) as [Hi|Hi];
    destruct (Z.eqb_spec (note x) n) as [Hx|Hx]; try reflexivity.
  lia.
Qed.

Lemma sort_by_note_perm (items : list (item Blob)) :
  Permutation (sort_by_note items) items.
Proof.
  induction items as [|it items IH]; [reflexivity|].
  cbn [sort_by_note fold_right]. fold (sort_by_note items).
  apply perm_trans with (it :: sort_by_note items);
    [apply insert_by_note_perm | now apply perm_skip].
Qed.

Lemma sort_by_note_sorted (items : list (item Blob)) :
  StronglySorted note_le (sort_by_note items).
Proof.
  induction items as [|it items IH]; [constructor|].
  cbn [sort_by_note fold_right]. fold (sort_by_note items).
  now apply insert_by_note_sorted.
Qed.

Lemma sort_by_note_stable (items : list (item Blob)) (n : Z) :
  bound_to n (sort_by_note items) = bound_to n items.
Proof.
  induction items as [|it items IH]; [reflexivity|].
  cbn [sort_by_note fold_right]. fold (sort_by_note items).
  rewrite insert_by_note_filter by apply sort_by_note_sorted.
  unfold bound_to in *. cbn [filter]. now rewrite IH.
Qed.

(** Non-decreasing notes without repetition are strictly ascending. *)
Lemma sorted_nodup_strict (l : list Z) :
  StronglySorted Z.le l -> NoDup l -> StronglySorted Z.lt l.
Proof.
  induction 1 as [|a l Hs IH Hall]; intros Hnd; [constructor|].
  inversion Hnd as [|? ? Hnotin Hnd']; subst.
  constructor; [now apply IH|].
  rewrite Forall_forall in *. intros b Hb.
  specialize (Hall b Hb).
  assert (a <> b) by (intros ->; contradiction). lia.
Qed.

Lemma sorted_map_note (l : list (item Blob)) :
  StronglySorted note_le l -> StronglySorted Z.le (map note l).
Proof.
  induction 1 as [|a l Hs IH Hall]; [constructor|].
  cbn [map]. constructor; [exact IH|].
  rewrite Forall_forall in *. intros n Hn.
  apply in_map_iff in Hn. destruct Hn as (b & <- & Hb). now apply Hall.
Qed.

(** X9. [[...items].sort((a, b) => a.note - b.note)] returns the same
    items rearranged, in non-decreasing note order, and keeps the items
    bound to one note in the order they had: of two files on the same
    note the one listed first comes first. *)
Theorem X9_sort_by_note (items : list (item Blob)) :
  Permutation (sort_by_note items) items /\
  StronglySorted note_le (sort_by_note items) /\
  (forall n, bound_to n (sort_by_note items) = bound_to n items).
Proof.
  split; [apply sort_by_note_perm|].
  split; [apply sort_by_note_sorted|].
  intros n. apply sort_by_note_stable.
Qed.

End SortFacts.

Section CollectFacts.

Variable Blob : Type.
Variable decodeToAudioBuffer : Blob -> result Audio.AudioBuffer.
Variable offlineRender :
  Audio.AudioBuffer -> Number.number -> result Audio.AudioBuffer.
Variable options : ExportOptions.t.

Local Notation "'render_'" :=
  (render Blob decodeToAudioBuffer offlineRender options).
Local Notation "'collect_item_'" :=
  (collect_item Blob decodeToAudioBuffer offlineRender options).

(** The first loop ends normally only if every item rendered. *)
Lemma collect_inv (l : list (item Blob)) :
  forall st0 st,
    for_of collect_item_ l st0 = Ok st ->
    exists bufs, Forall2 (fun it b => render_ it = Ok b) l bufs.
Proof.
  induction l as [|it l IH]; intros st0 st H.
  - exists []. constructor.
  - unfold for_of in H. cbn [fold_left bind] in H.
    destruct (render_ it) as [b|e] eqn:Hr.
    + destruct (collect_item_ st0 it) as [st1|e] eqn:Hc.
      * destruct (IH st1 st H) as [bufs Hb].
        exists (b :: bufs). now constructor.
      * rewrite for_of_throw in H. discriminate.
    + unfold collect_item in H. rewrite Hr in H. cbn [bind] in H.
      rewrite for_of_throw in H. discriminate.
Qed.

Lemma kept_notes_incl (pairs : list (item Blob * Audio.AudioBuffer)) :
  incl (map (fun p => note (fst p)) (kept pairs)) (map note (map fst pairs)).
Proof.
  intros n Hn. apply in_map_iff in Hn. destruct Hn as (p & <- & Hp).
  apply filter_In in Hp. destruct Hp as [Hp _].
  apply in_map, in_map, Hp.
Qed.

Lemma kept_notes_sorted (R : Z -> Z -> Prop)
    (pairs : list (item Blob * Audio.AudioBuffer)) :
  StronglySorted R (map note (map fst pairs)) ->
  StronglySorted R (map (fun p => note (fst p)) (kept pairs)).
Proof.
  induction pairs as [|p pairs IH]; intros Hs; [constructor|].
  cbn [map] in Hs. inversion Hs as [|? ? Hs' Hall]; subst.
  unfold kept. cbn [filter]. fold (kept pairs).
  destruct (negb _); [|now apply IH].
  cbn [map]. constructor; [now apply IH|].
  rewrite Forall_forall in *. intros n Hn.
  apply Hall, kept_notes_incl, Hn.
Qed.

(** X10. When the first loop of the kit encoder ends normally, every
    item was rendered, and what it hands to the region mapper satisfies
    the mapper's assumptions: one note and one positive frame count per
    kept buffer, the frame counts being the buffers' lengths and summing
    to [totalFrames]; the notes are notes of the input, in non-decreasing
    order, and strictly ascending when no two input items share a note. *)
Theorem X10_collect_invariants (items : list (item Blob)) (st : collected) :
  collect Blob decodeToAudioBuffer offlineRender items options = Ok st ->
  (exists bufs,
     Forall2 (fun it b => render_ it = Ok b) (sort_by_note items) bufs) /\
  Datatypes.length (notes st) = Datatypes.length (rendered st) /\
  frameLengths st = map (fun b => Z.of_nat (Audio.length b)) (rendered st) /\
  Forall (fun f => 0 < f) (frameLengths st) /\
  totalFrames st = fold_right Z.add 0 (frameLengths st) /\
  incl (notes st) (map note items) /\
  StronglySorted Z.le (notes st) /\
  (NoDup (map note items) -> StronglySorted Z.lt (notes st)).
Proof.
  intros Hcollect. unfold collect in Hcollect. cbv zeta in Hcollect.
  destruct (collect_inv _ _ _ Hcollect) as [bufs Hall].
  split; [now exists bufs|].
  destruct (Forall2_combine _ _ _ Hall) as [Hrender Hfst].
  pose proof (collect_loop Blob decodeToAudioBuffer offlineRender options
                _ Hrender (mkCollected [] [] [] 0)) as Hloop.
  rewrite Hfst, Hcollect in Hloop. injection Hloop as ->.
  cbn [rendered notes frameLengths totalFrames app]. rewrite ?Z.add_0_l.
  set (pairs := combine (sort_by_note items) bufs) in *.
  assert (Hperm : Permutation (map note (map fst pairs)) (map note items))
    by (rewrite Hfst; apply Permutation_map, sort_by_note_perm).
  assert (Hle : StronglySorted Z.le (map note (map fst pairs)))
    by (rewrite Hfst; apply sorted_map_note, sort_by_note_sorted).
  split; [now rewrite !length_map|].
  split; [unfold frames_of; now rewrite map_map|].
  split; [apply kept_positive|].
  split; [reflexivity|].
  split.
  { intros n Hn. apply kept_notes_incl in Hn.
    apply (Permutation_in _ Hperm Hn). }
  split; [now apply kept_notes_sorted|].
  intros Hnd. apply kept_notes_sorted, sorted_nodup_strict; [exact Hle|].
  apply (Permutation_NoDup (Permutation_sym Hperm) Hnd).
Qed.

End CollectFacts.

Lemma X10_collect_invariants_witness :
  exists st,
    collect Audio.AudioBuffer decode_id render_id items_64_60_67
      options_22050_mono = Ok st /\
    notes st = [60; 64; 67] /\
    StronglySorted Z.lt (notes st).
Proof.
  assert (H : collect Audio.AudioBuffer decode_id render_id items_64_60_67
                options_22050_mono
              = Ok (mkCollected [silence 1; silence 2; silence 3]
                      [60; 64; 67] [1; 2; 3] 6))
    by reflexivity.
  pose proof (X10_collect_invariants Audio.AudioBuffer decode_id render_id
                options_22050_mono items_64_60_67 _ H)
    as (_ & _ & _ & _ & _ & _ & _ & Hlt).
  eexists. split; [exact H|]. split; [reflexivity|].
  apply Hlt. repeat constructor; cbn; intuition discriminate.
Defined.

(** ** Flat encoder *)

Import FlatEncoder.

Lemma for_range_r_S {S : Type} (lo n : nat) (body : nat -> S -> result S)
    (s : S) :
  Audio.for_range_r lo (Datatypes.S n) body s
  = (st <- Audio.for_range_r lo n body s ;; body (lo + n)%nat st).
Proof.
  unfold Audio.for_range_r. rewrite seq_S, fold_left_app. reflexivity.
Qed.

Lemma setUint8_at_end (done rest : list byte) (x b : byte) (off : Z) :
  off = Z.of_nat (Datatypes.length done) ->
  setUint8 (done ++ x :: rest) off (byte.unsigned b) = Ok (done ++ b :: rest).
Proof.
  intros Hoff. unfold setUint8.
  change (le_split 1 (byte.unsigned b)) with [byte.of_Z (byte.unsigned b)].
  rewrite byte.of_Z_unsigned.
  apply (set_at_seq done [x] rest [b] off Hoff eq_refl).
Qed.

(** Writing the bytes of [bs] one by one through the view replaces the
    [old] bytes that were there. *)
Lemma write_each_r (bs done rest : list byte) (off : Z) :
  off = Z.of_nat (Datatypes.length done) ->
  forall k old, (k <= Datatypes.length bs)%nat ->
    Datatypes.length old = Datatypes.length bs ->
    Audio.for_range_r 0 k
      (fun i v => setUint8 v (off + Z.of_nat i)
                    (byte.unsigned (nth i bs Byte.x00)))
      (done ++ old ++ rest)
    = Ok (done ++ firstn k bs ++ skipn k old ++ rest).
Proof.
  intros Hoff. induction k as [|k IH]; intros old Hk Hold; [reflexivity|].
  rewrite for_range_r_S, IH by lia. cbn [Nat.add bind].
  rewrite (skipn_cons_nth old k Byte.x00) by lia.
  rewrite (firstn_S_nth_error bs k (nth k bs Byte.x00))
    by (apply nth_error_nth'; lia).
  cbn [app]. rewrite (app_assoc done), <- (app_assoc (firstn k bs) [_]).
  rewrite setUint8_at_end.
  - rewrite <- !app_assoc. reflexivity.
  - rewrite length_app, length_firstn, Hoff. lia.
Qed.

Lemma writeAscii_at (arr done old rest : list byte) (off : Z)
    (s : String.string) :
  arr = done ++ old ++ rest ->
  off = Z.of_nat (Datatypes.length done) ->
  Datatypes.length old = Datatypes.length (char_codes s) ->
  writeAscii arr off s = Ok (done ++ char_codes s ++ rest).
Proof.
  intros -> Hoff Hold. unfold writeAscii.
  rewrite (write_each_r (char_codes s) done rest off Hoff _ old) by lia.
  rewrite firstn_all, skipn_all2 by lia. reflexivity.
Qed.

(** The 44-byte header and the samples. *)
Lemma assemble_flat_eq (rendered : list Audio.AudioBuffer) (totalFrames : Z)
    (options : ExportOptions.t) (pw : Audio.Int16Array * Z) :
  for_of (write_pcm (ExportOptions.channels options)) rendered
    (repeat 0 (Z.to_nat (totalFrames * ExportOptions.channels options))
       : Audio.Int16Array, 0)
  = Ok pw ->
  assemble_flat rendered totalFrames options
  = Ok (mkExport
          (char_codes "RIFF"
           ++ le_split 4 (36 + 2 * Z.of_nat (Datatypes.length (fst pw)))
           ++ char_codes "WAVE"
           ++ char_codes "fmt " ++ le_split 4 16 ++ flat_fmt_payload options
           ++ char_codes "data"
           ++ le_split 4 (2 * Z.of_nat (Datatypes.length (fst pw)))
           ++ pcm_bytes (fst pw))
          (Number.div (Number.of_Z totalFrames)
             (ExportOptions.sampleRate options))).
Proof.
  intros Hpcm. unfold assemble_flat. cbv zeta. rewrite Hpcm. cbn [bind].
  set (pcm := fst pw).
  set (br := Number.ToUint32 (Number.mul _ _)).
  replace (Z.to_nat (44 + 2 * Z.of_nat (Datatypes.length pcm)))
    with (4 + (4 + (4 + (4 + (4 + (2 + (2 + (4 + (4 + (2 + (2 + (4 + (4
          + Datatypes.length (pcm_bytes pcm))))))))))))))%nat
    by (rewrite pcm_bytes_length; lia).
  replace (44 + 2 * Z.of_nat (Datatypes.length pcm) - 8)
    with (36 + 2 * Z.of_nat (Datatypes.length pcm)) by lia.
  rewrite !zeros_app.
  erewrite (writeAscii_at _ [] (zeros 4) _ 0 "RIFF"); [|reflexivity..].
  cbn [bind].
  erewrite (setUint32_at _ (char_codes "RIFF") (zeros 4)); [|reflexivity..].
  cbn [bind].
  erewrite (writeAscii_at _ (_ ++ le_split 4 _) (zeros 4) _ 8 "WAVE");
    [| split_tac | offset_tac | reflexivity].
  cbn [bind].
  erewrite (writeAscii_at _ (_ ++ char_codes "WAVE") (zeros 4) _ 12 "fmt ");
    [| split_tac | offset_tac | reflexivity].
  cbn [bind].
  erewrite (setUint32_at _ (_ ++ char_codes "fmt ") (zeros 4));
    [| split_tac | offset_tac | reflexivity].
  cbn [bind].
  erewrite (setUint16_at _ (_ ++ le_split 4 16) (zeros 2));
    [| split_tac | offset_tac | reflexivity].
  cbn [bind].
  erewrite (setUint16_at _ (_ ++ le_split 2 1) (zeros 2));
    [| split_tac | offset_tac | reflexivity].
  cbn [bind].
  erewrite (setUint32_at _ (_ ++ le_split 2 (ExportOptions.channels options))
              (zeros 4));
    [| split_tac | offset_tac | reflexivity].
  cbn [bind].
  erewrite (setUint32_at _ (_ ++ le_split 4 (Number.ToUint32
                                               (ExportOptions.sampleRate options)))
              (zeros 4));
    [| split_tac | offset_tac | reflexivity].
  cbn [bind].
  erewrite (setUint16_at _ (_ ++ le_split 4 br) (zeros 2));
    [| split_tac | offset_tac | reflexivity].
  cbn [bind].
  erewrite (setUint16_at _ (_ ++ le_split 2 (ExportOptions.channels options * 2))
              (zeros 2));
    [| split_tac | offset_tac | reflexivity].
  cbn [bind].
  erewrite (writeAscii_at _ (_ ++ le_split 2 16) (zeros 4) _ 36 "data");
    [| split_tac | offset_tac | reflexivity].
  cbn [bind].
  erewrite (setUint32_at _ (_ ++ char_codes "data") (zeros 4));
    [| split_tac | offset_tac | reflexivity].
  cbn [bind].
  erewrite (set_at_at _ (_ ++ le_split 4 (2 * _)) (zeros _) [] (pcm_bytes pcm));
    [| split_tac | offset_tac | apply zeros_length].
  cbn [bind]. unfold flat_fmt_payload. cbv zeta. fold br.
  rewrite app_nil_r, <- !app_assoc. reflexivity.
Qed.

Lemma pcm_of_ok (b : Audio.AudioBuffer) (channels : Z) :
  channels = 1 \/ channels = 2 ->
  Datatypes.length (Audio.channelData b) = Z.to_nat channels ->
  Audio.interleavePcm16 b channels = Ok (pcm_of channels b)
  /\ Z.of_nat (Datatypes.length (pcm_of channels b))
     = Z.of_nat (Audio.length b) * channels.
Proof.
  intros Hch Hn. destruct (interleave_shape b channels Hch Hn) as (c & Hc & Hl).
  unfold pcm_of. rewrite Hc. now split.
Qed.

Lemma flat_fmt_payload_eq (options : ExportOptions.t) :
  ExportOptions.channels options = 1 \/ ExportOptions.channels options = 2 ->
  flat_fmt_payload options
  = fmt_payload (ExportOptions.channels options)
      (ExportOptions.sampleRate options) 16.
Proof.
  unfold flat_fmt_payload, fmt_payload. cbv zeta.
  intros [-> | ->]; reflexivity.
Qed.

Lemma serialized_two (a b : String.string * list byte) :
  serialized [a; b]
  = chunk_bytes (fst a) (snd a) ++ chunk_bytes (fst b) (snd b).
Proof.
  unfold serialized. cbn [map concat]. now rewrite app_nil_r.
Qed.

Lemma flat_fmt_payload_length (options : ExportOptions.t) :
  Datatypes.length (flat_fmt_payload options) = 16%nat.
Proof.
  unfold flat_fmt_payload. cbv zeta. rewrite !length_app, !length_le_split.
  reflexivity.
Qed.

(** The file of a header and a data chunk is 44 bytes and the samples. *)
Lemma flat_riff_wave (options : ExportOptions.t) (pcm : Audio.Int16Array) :
  riff_wave [("fmt "%string, flat_fmt_payload options);
             ("data"%string, pcm_bytes pcm)]
  = char_codes "RIFF"
    ++ le_split 4 (36 + 2 * Z.of_nat (Datatypes.length pcm))
    ++ char_codes "WAVE"
    ++ char_codes "fmt " ++ le_split 4 16 ++ flat_fmt_payload options
    ++ char_codes "data"
    ++ le_split 4 (2 * Z.of_nat (Datatypes.length pcm))
    ++ pcm_bytes pcm.
Proof.
  unfold riff_wave. rewrite serialized_two. cbn [fst snd].
  rewrite (chunk_bytes_even "fmt " _ 16);
    [| now rewrite flat_fmt_payload_length | reflexivity].
  rewrite (chunk_bytes_even "data" _ (2 * Z.of_nat (Datatypes.length pcm)));
    [| rewrite pcm_bytes_length; lia
     | rewrite Z.mul_comm; apply Z.mod_mul; lia].
  rewrite <- !app_assoc. do 1 f_equal. f_equal.
  apply f_equal. unfold len.
  rewrite !length_app, !length_le_split, flat_fmt_payload_length,
    pcm_bytes_length.
  change (Datatypes.length (char_codes "fmt ")) with 4%nat.
  change (Datatypes.length (char_codes "data")) with 4%nat. lia.
Qed.

Section FlatExportFacts.

Variable Blob : Type.
Variable decodeToAudioBuffer : Blob -> result Audio.AudioBuffer.
Variable offlineRender :
  Audio.AudioBuffer -> Number.number -> result Audio.AudioBuffer.
Variable options : ExportOptions.t.

Local Notation "'render_file_'" :=
  (render_file Blob decodeToAudioBuffer offlineRender options).
Local Notation "'channels_'" := (ExportOptions.channels options).
Local Notation "'sampleRate_'" := (ExportOptions.sampleRate options).

Lemma render_file_item (n : Z) (f : Blob) :
  render_file_ f
  = render Blob decodeToAudioBuffer offlineRender options (mkItem n f).
Proof. reflexivity. Qed.

Lemma collect_files_loop (files : list Blob) (bufs : list Audio.AudioBuffer) :
  Forall2 (fun f b => render_file_ f = Ok b) files bufs ->
  forall st,
    for_of (collect_file Blob decodeToAudioBuffer offlineRender options)
      files st
    = Ok (fst st ++ bufs,
          snd st + fold_right Z.add 0
                     (map (fun b => Z.of_nat (Audio.length b)) bufs)).
Proof.
  induction 1 as [|f b files bufs Hr _ IH]; intros [rendered total].
  - cbn. now rewrite app_nil_r, Z.add_0_r.
  - assert (Hstep : collect_file Blob decodeToAudioBuffer offlineRender
                      options (rendered, total) f
                    = Ok (rendered ++ [b], total + Z.of_nat (Audio.length b)))
      by (unfold collect_file; now rewrite Hr).
    rewrite (for_of_cons _ _ _ _ _ Hstep), IH. cbn [fst snd map fold_right].
    rewrite <- app_assoc. cbn [app]. do 2 f_equal. lia.
Qed.

Lemma write_all (bufs : list Audio.AudioBuffer) :
  channels_ = 1 \/ channels_ = 2 ->
  Forall (fun b => Datatypes.length (Audio.channelData b)
                   = Z.to_nat channels_) bufs ->
  let total :=
    fold_right Z.add 0 (map (fun b => Z.of_nat (Audio.length b)) bufs) in
  let pcm := concat (map (pcm_of channels_) bufs) in
  Z.of_nat (Datatypes.length pcm) = total * channels_ /\
  Forall2 (fun b c => Audio.interleavePcm16 b channels_ = Ok c) bufs
    (map (pcm_of channels_) bufs) /\
  for_of (write_pcm channels_) bufs
    (repeat 0 (Z.to_nat (total * channels_)) : Audio.Int16Array, 0)
  = Ok (pcm, Z.of_nat (Datatypes.length pcm)).
Proof.
  intros Hch Hshape total pcm.
  assert (Hall : Forall2 (fun b c => Audio.interleavePcm16 b channels_ = Ok c)
                   bufs (map (pcm_of channels_) bufs)).
  { clear total pcm. induction Hshape as [|b bufs Hb _ IH]; [constructor|].
    cbn [map]. constructor; [apply (pcm_of_ok b _ Hch Hb) | exact IH]. }
  assert (Hlen : Z.of_nat (Datatypes.length pcm) = total * channels_).
  { subst total pcm. clear Hall.
    induction Hshape as [|b bufs Hb _ IH]; [reflexivity|].
    cbn [map concat fold_right].
    rewrite length_app, Nat2Z.inj_add, IH.
    destruct (pcm_of_ok b _ Hch Hb) as [_ ->]. lia. }
  split; [exact Hlen|]. split; [exact Hall|].
  apply (write_loop channels_ bufs _ Hall []
           (repeat 0 (Z.to_nat (total * channels_)))).
  rewrite repeat_length. fold pcm. lia.
Qed.

Lemma rendered_shape (files : list Blob) (bufs : list Audio.AudioBuffer) :
  channels_ = 1 \/ channels_ = 2 ->
  Forall2 (fun f b => render_file_ f = Ok b) files bufs ->
  Forall (fun b => Datatypes.length (Audio.channelData b)
                   = Z.to_nat channels_) bufs.
Proof.
  intros Hch. induction 1 as [|f b files bufs Hr _ IH]; constructor.
  - rewrite (render_file_item 0) in Hr.
    apply (render_shape Blob decodeToAudioBuffer offlineRender options
             _ _ Hch Hr).
  - exact IH.
Qed.

(** When every file renders the flat export succeeds, with a header and
    the samples of all buffers in input order. *)
Lemma flat_export_general (files : list Blob)
    (bufs : list Audio.AudioBuffer) :
  channels_ = 1 \/ channels_ = 2 ->
  Forall2 (fun f b => render_file_ f = Ok b) files bufs ->
  let total :=
    fold_right Z.add 0 (map (fun b => Z.of_nat (Audio.length b)) bufs) in
  let pcm := concat (map (pcm_of channels_) bufs) in
  Z.of_nat (Datatypes.length pcm) = total * channels_ /\
  Forall2 (fun b c => Audio.interleavePcm16 b channels_ = Ok c) bufs
    (map (pcm_of channels_) bufs) /\
  exportConcatenatedWavPcm16 Blob decodeToAudioBuffer offlineRender
    files options
  = Ok (mkExport
          (riff_wave [("fmt "%string, flat_fmt_payload options);
                      ("data"%string, pcm_bytes pcm)])
          (Number.div (Number.of_Z total) sampleRate_)).
Proof.
  intros Hch Hall total pcm.
  pose proof (rendered_shape files bufs Hch Hall) as Hshape.
  destruct (write_all bufs Hch Hshape) as (Hlen & Hchunks & Hwrite).
  fold total pcm in Hlen, Hwrite.
  pose proof (collect_files_loop files bufs Hall ([], 0)) as Hloop.
  cbn [fst snd app] in Hloop. rewrite Z.add_0_l in Hloop. fold total in Hloop.
  pose proof (assemble_flat_eq bufs total options _ Hwrite) as Hasm.
  cbn [fst] in Hasm. rewrite <- flat_riff_wave in Hasm.
  split; [exact Hlen|]. split; [exact Hchunks|].
  unfold exportConcatenatedWavPcm16. rewrite Hloop. cbn [bind fst snd].
  exact Hasm.
Qed.

(** X11. With a target of 1 or 2 channels, when every file decodes and
    renders, [exportConcatenatedWavPcm16] returns without an exception.
    The bytes are a 44-byte header ([RIFF], the length of the rest,
    [WAVE], a 16-byte [fmt ] chunk and the [data] chunk header) followed by
    the interleaved PCM of the buffers one after the other, in the order
    of the input files: files are neither sorted nor dropped.  The file is
    [44 + 2 * totalFrames * channels] bytes long and the duration is
    [totalFrames / sampleRate]. *)
Theorem X11_flat_export_layout (files : list Blob)
    (bufs : list Audio.AudioBuffer) :
  channels_ = 1 \/ channels_ = 2 ->
  Forall2 (fun f b => render_file_ f = Ok b) files bufs ->
  let total :=
    fold_right Z.add 0 (map (fun b => Z.of_nat (Audio.length b)) bufs) in
  let pcm := concat (map (pcm_of channels_) bufs) in
  exists e,
    exportConcatenatedWavPcm16 Blob decodeToAudioBuffer offlineRender
      files options = Ok e /\
    Forall2 (fun b c => Audio.interleavePcm16 b channels_ = Ok c) bufs
      (map (pcm_of channels_) bufs) /\
    wavBytes e
    = riff_wave [("fmt "%string, flat_fmt_payload options);
                 ("data"%string, pcm_bytes pcm)] /\
    len (wavBytes e) = 44 + 2 * total * channels_ /\
    skipn 44 (wavBytes e) = pcm_bytes pcm /\
    durationSec e = Number.div (Number.of_Z total) sampleRate_.
Proof.
  intros Hch Hall total pcm.
  destruct (flat_export_general files bufs Hch Hall)
    as (Hlen & Hchunks & Hexp).
  fold total pcm in Hlen, Hexp.
  eexists. split; [exact Hexp|].
  cbn [wavBytes durationSec].
  split; [exact Hchunks|]. split; [reflexivity|].
  split; [|split; [|reflexivity]].
  - rewrite flat_riff_wave. unfold len.
    rewrite !length_app, !length_le_split, flat_fmt_payload_length,
      pcm_bytes_length.
    change (Datatypes.length (char_codes "RIFF")) with 4%nat.
    change (Datatypes.length (char_codes "WAVE")) with 4%nat.
    change (Datatypes.length (char_codes "fmt ")) with 4%nat.
    change (Datatypes.length (char_codes "data")) with 4%nat. lia.
  - rewrite flat_riff_wave.
    rewrite !app_assoc. apply skipn_prefix.
    rewrite !length_app, !length_le_split, flat_fmt_payload_length.
    reflexivity.
Qed.

Lemma kept_total (pairs : list (item Blob * Audio.AudioBuffer)) :
  fold_right Z.add 0 (map frames_of (kept pairs))
  = fold_right Z.add 0
      (map (fun b => Z.of_nat (Audio.length b)) (map snd pairs)).
Proof.
  induction pairs as [|p pairs IH]; [reflexivity|].
  unfold kept. cbn [filter map fold_right]. fold (kept pairs).
  destruct (Z.of_nat (Audio.length (snd p)) <=? 0) eqn:E; cbn [negb].
  - apply Z.leb_le in E. rewrite IH. lia.
  - cbn [map fold_right]. rewrite IH. reflexivity.
Qed.

Lemma kept_chunks (pairs : list (item Blob * Audio.AudioBuffer)) :
  channels_ = 1 \/ channels_ = 2 ->
  Forall (fun p => Datatypes.length (Audio.channelData (snd p))
                   = Z.to_nat channels_) pairs ->
  forall chunks,
    Forall2 (fun p c =>
               Audio.interleavePcm16 (snd p) channels_ = Ok c
               /\ Z.of_nat (Datatypes.length c) = frames_of p * channels_)
      (kept pairs) chunks ->
    concat chunks = concat (map (pcm_of channels_) (map snd pairs)).
Proof.
  intros Hch. induction 1 as [|p pairs Hp _ IH]; intros chunks Hc.
  - inversion Hc. reflexivity.
  - unfold kept in Hc. cbn [filter] in Hc. fold (kept pairs) in Hc.
    cbn [map concat].
    destruct (pcm_of_ok (snd p) _ Hch Hp) as [Hok Hlen].
    destruct (Z.of_nat (Audio.length (snd p)) <=? 0) eqn:E; cbn [negb] in Hc.
    + apply Z.leb_le in E.
      assert (Hnil : pcm_of channels_ (snd p) = []).
      { destruct (pcm_of channels_ (snd p)); [reflexivity|].
        cbn [Datatypes.length] in Hlen. destruct Hch as [H | H];
          rewrite H in Hlen; lia. }
      rewrite Hnil. cbn [app]. now apply IH.
    + inversion Hc as [|p' c ps cs [Hpc _] Hrest]; subst.
      cbn [concat]. rewrite Hok in Hpc. injection Hpc as <-.
      f_equal. now apply IH.
Qed.

(** X12. The kit exporter and the flat exporter agree on the audio.
    With a target of 1 or 2 channels and every item rendering, the kit of
    some items and the flat export of their files taken in ascending note
    order both succeed; they hold the same [fmt ] payload and the same
    [data] payload and report the same duration.  The kit has the [LIST]
    and [smpl] chunks in between. *)
Theorem X12_kit_and_flat_agree (items : list (item Blob))
    (bufs : list Audio.AudioBuffer) :
  channels_ = 1 \/ channels_ = 2 ->
  Forall2 (fun it b =>
             render Blob decodeToAudioBuffer offlineRender options it = Ok b)
    (sort_by_note items) bufs ->
  exists kit flat fmt regions pcm,
    exportAcDryKitWavPcm16 Blob decodeToAudioBuffer offlineRender items
      options = Ok kit /\
    exportConcatenatedWavPcm16 Blob decodeToAudioBuffer offlineRender
      (map file (sort_by_note items)) options = Ok flat /\
    wavBytes kit
    = riff_wave [("fmt "%string, fmt);
                 ("LIST"%string, list_body regions);
                 ("smpl"%string, smpl_payload sampleRate_);
                 ("data"%string, pcm_bytes pcm)] /\
    wavBytes flat
    = riff_wave [("fmt "%string, fmt); ("data"%string, pcm_bytes pcm)] /\
    durationSec kit = durationSec flat.
Proof.
  intros Hch Hall.
  destruct (kit_export_general Blob decodeToAudioBuffer offlineRender options
              items bufs Hch Hall) as (chunks & Hchunks & _ & Hkit).
  assert (Hfiles : Forall2 (fun f b => render_file_ f = Ok b)
                     (map file (sort_by_note items)) bufs).
  { clear -Hall. induction Hall as [|it b its bs H _ IH]; [constructor|].
    cbn [map]. constructor; [exact H | exact IH]. }
  destruct (flat_export_general _ _ Hch Hfiles) as (_ & _ & Hflat).
  destruct (Forall2_combine _ _ _ Hall) as [Hrender Hfst].
  set (pairs := combine (sort_by_note items) bufs) in *.
  assert (Hsnd : map snd pairs = bufs).
  { subst pairs. clear -Hall.
    induction Hall as [|it b its bs _ _ IH]; [reflexivity|].
    cbn [combine map snd]. now rewrite IH. }
  assert (Hshape : Forall (fun p => Datatypes.length
                                      (Audio.channelData (snd p))
                                    = Z.to_nat channels_) pairs).
  { eapply Forall_impl; [|exact Hrender]. intros p Hp.
    apply (render_shape Blob decodeToAudioBuffer offlineRender options
             _ _ Hch Hp). }
  pose proof (kept_chunks pairs Hch Hshape chunks Hchunks) as Hpcm.
  pose proof (kept_total pairs) as Htotal.
  rewrite Hsnd in Hpcm, Htotal.
  rewrite Hpcm, Htotal in Hkit.
  rewrite (flat_fmt_payload_eq options Hch) in Hflat.
  do 5 eexists.
  split; [exact Hkit|]. split; [exact Hflat|].
  cbn [wavBytes durationSec]. unfold kit_chunks.
  split; [reflexivity|]. split; reflexivity.
Qed.

End FlatExportFacts.

Lemma X11_flat_export_layout_witness :
  exists e,
    exportConcatenatedWavPcm16 Audio.AudioBuffer decode_id render_id
      [silence 2; silence 1; silence 3] options_22050_mono = Ok e /\
    len (wavBytes e) = 56.
Proof.
  destruct (X11_flat_export_layout Audio.AudioBuffer decode_id render_id
              options_22050_mono [silence 2; silence 1; silence 3]
              [silence 2; silence 1; silence 3] (or_introl eq_refl)
              ltac:(repeat constructor))
    as (e & Hexp & _ & _ & Hlen & _).
  exists e. split; [exact Hexp | exact Hlen].
Defined.

Lemma X12_kit_and_flat_agree_witness :
  exists kit flat,
    exportAcDryKitWavPcm16 Audio.AudioBuffer decode_id render_id
      items_64_60_67 options_22050_mono = Ok kit /\
    exportConcatenatedWavPcm16 Audio.AudioBuffer decode_id render_id
      [silence 1; silence 2; silence 3] options_22050_mono = Ok flat /\
    durationSec kit = durationSec flat.
Proof.
  destruct (X12_kit_and_flat_agree Audio.AudioBuffer decode_id render_id
              options_22050_mono items_64_60_67
              [silence 1; silence 2; silence 3] (or_introl eq_refl)
              ltac:(repeat constructor))
    as (kit & flat & fmt & regions & pcm & Hk & Hf & _ & _ & Hd).
  exists kit, flat. split; [exact Hk|]. split; [exact Hf | exact Hd].
Defined.

(** *** Reading a flat export back *)

Lemma scan_flat (channels : Z) (sampleRate : Number.number)
    (pcm : Audio.Int16Array) :
  2 * Z.of_nat (Datatypes.length pcm) < 2 ^ 32 ->
  let wav := riff_wave [("fmt "%string, fmt_payload channels sampleRate 16);
                        ("data"%string, pcm_bytes pcm)] in
  WavInfo.scan_result wav
  = WavInfo.mkScan (44 + 2 * Z.of_nat (Datatypes.length pcm))
      (channels mod 2 ^ 16) (Number.ToUint32 sampleRate) 16
      (2 * Z.of_nat (Datatypes.length pcm)).
Proof.
  intros Hpcm wav.
  assert (Hpl : len (pcm_bytes pcm) = 2 * Z.of_nat (Datatypes.length pcm))
    by (unfold len; rewrite pcm_bytes_length; lia).
  assert (Hfl : len (fmt_payload channels sampleRate 16) = 16)
    by (unfold len; now rewrite fmt_payload_length).
  unfold WavInfo.scan_result. subst wav. rewrite riff_wave_split.
  set (pre := char_codes "RIFF" ++ _ ++ char_codes "WAVE").
  assert (Hpre : len pre = 12)
    by (unfold len; subst pre; rewrite !length_app, length_le_split;
        reflexivity).
  rewrite <- Hpre at 1.
  rewrite walk_serialized.
  2:{ unfold serializable.
      repeat constructor; cbn [fst snd]; fold (len (pcm_bytes pcm));
        rewrite ?fmt_payload_length; lia. }
  rewrite Hpre. cbn [walked fold_left]. rewrite Hfl, Hpl.
  set (view := pre ++ serialized _).
  assert (H1 : WavInfo.apply_chunk view WavInfo.init_state
                 (WavInfo.mkChunk (WavInfo.ascii "fmt ") 16 (12 + 8))
               = WavInfo.mkScan 36 (channels mod 2 ^ 16)
                   (Number.ToUint32 sampleRate) 16 0).
  { unfold WavInfo.apply_chunk.
    replace (WavInfo.is_fmt16 (WavInfo.mkChunk (WavInfo.ascii "fmt ") 16 (12 + 8)))
      with true by reflexivity.
    subst view. unfold serialized. cbn [map concat fst snd].
    rewrite <- Hpre at 1. rewrite fmt_fields_serialized. reflexivity. }
  rewrite H1. clear H1.
  unfold WavInfo.apply_chunk, WavInfo.is_fmt16, WavInfo.is_fmt,
    WavInfo.is_data, WavInfo.next_offset.
  cbn [WavInfo.chunkId WavInfo.chunkSize WavInfo.chunkDataOffset
       WavInfo.st_channels WavInfo.st_sampleRate WavInfo.st_bitsPerSample
       WavInfo.st_dataBytes].
  change (WavInfo.str_eqb (WavInfo.ascii "data") "fmt ") with false.
  change (WavInfo.str_eqb (WavInfo.ascii "data") "data") with true.
  cbn [andb negb]. f_equal.
  replace (2 * Z.of_nat (Datatypes.length pcm) mod 2) with 0
    by (rewrite Z.mul_comm, Z.mod_mul; lia).
  change (16 mod 2) with 0. lia.
Qed.

Section FlatRoundTrip.

Variable Blob : Type.
Variable decodeToAudioBuffer : Blob -> result Audio.AudioBuffer.
Variable offlineRender :
  Audio.AudioBuffer -> Number.number -> result Audio.AudioBuffer.
Variable options : ExportOptions.t.

Local Notation "'channels_'" := (ExportOptions.channels options).
Local Notation "'sampleRate_'" := (ExportOptions.sampleRate options).

(** X13. The header parser reads a flat export back.  With a target of
    1 or 2 channels, every file rendering and less than 2^32 bytes of PCM,
    [readWavInfo] on the bytes [exportConcatenatedWavPcm16] returns throws
    the missing-data error when there are no frames or the stored rate is
    0, and otherwise returns the channel count, the sample rate as the
    32-bit integer stored, 16 bits per sample and
    [2 * totalFrames * channels] data bytes, with the data bytes over the
    byte rate as duration. *)
Theorem X13_flat_round_trip (files : list Blob)
    (bufs : list Audio.AudioBuffer) :
  channels_ = 1 \/ channels_ = 2 ->
  Forall2 (fun f b =>
             render_file Blob decodeToAudioBuffer offlineRender options f
             = Ok b) files bufs ->
  let total :=
    fold_right Z.add 0 (map (fun b => Z.of_nat (Audio.length b)) bufs) in
  let rate := Number.ToUint32 sampleRate_ in
  let dataBytes := 2 * total * channels_ in
  dataBytes < 2 ^ 32 ->
  exists e,
    exportConcatenatedWavPcm16 Blob decodeToAudioBuffer offlineRender
      files options = Ok e /\
    WavInfo.readWavInfo (wavBytes e)
    = if (rate =? 0) || (total =? 0) then Throw MissingFmtOrData
      else Ok (WavInfo.mkWavInfo channels_ rate 16 dataBytes
                 (Number.div (Number.of_Z dataBytes)
                    (WavInfo.byte_rate rate channels_ 16))).
Proof.
  intros Hch Hall total rate dataBytes Hdata.
  destruct (flat_export_general Blob decodeToAudioBuffer offlineRender
              options files bufs Hch Hall) as (Hlen & _ & Hexp).
  fold total in Hlen, Hexp.
  set (pcm := concat (map (pcm_of channels_) bufs)) in *.
  eexists. split; [exact Hexp|]. cbn [wavBytes].
  rewrite (flat_fmt_payload_eq options Hch).
  assert (Hpcm : 2 * Z.of_nat (Datatypes.length pcm) = dataBytes)
    by (subst dataBytes; lia).
  pose proof (scan_flat channels_ sampleRate_ pcm
                ltac:(rewrite Hpcm; exact Hdata)) as Hscan.
  cbv zeta in Hscan. rewrite Hpcm in Hscan.
  replace (channels_ mod 2 ^ 16) with channels_ in Hscan
    by (destruct Hch as [-> | ->]; reflexivity).
  fold rate in Hscan.
  set (wav := riff_wave [("fmt "%string,
                          fmt_payload channels_ sampleRate_ 16);
                         ("data"%string, pcm_bytes pcm)]) in *.
  assert (H12 : 12 <= len wav).
  { subst wav. unfold riff_wave, len.
    rewrite !length_app, length_le_split.
    change (Datatypes.length (char_codes "RIFF")) with 4%nat.
    change (Datatypes.length (char_codes "WAVE")) with 4%nat. lia. }
  rewrite (readWavInfo_unfold _ H12).
  destruct (riff_wave_tags [("fmt "%string,
                             fmt_payload channels_ sampleRate_ 16);
                            ("data"%string, pcm_bytes pcm)]) as [Hr Hw].
  fold wav in Hr, Hw. rewrite Hr, Hw.
  change (negb (WavInfo.str_eqb (WavInfo.ascii "RIFF") "RIFF")
          || negb (WavInfo.str_eqb (WavInfo.ascii "WAVE") "WAVE"))
    with false.
  cbv iota zeta. rewrite Hscan.
  cbn [WavInfo.st_channels WavInfo.st_sampleRate WavInfo.st_bitsPerSample
       WavInfo.st_dataBytes].
  replace (channels_ =? 0) with false
    by (destruct Hch as [-> | ->]; reflexivity).
  change (16 =? 0) with false. rewrite orb_false_l, orb_false_r.
  replace (dataBytes =? 0) with (total =? 0).
  2:{ subst dataBytes.
      destruct (Z.eqb_spec total 0) as [E|E];
        destruct (Z.eqb_spec (2 * total * channels_) 0) as [E'|E'];
        try reflexivity; exfalso; destruct Hch as [H|H]; rewrite H in *; lia. }
  destruct ((rate =? 0) || (total =? 0)) eqn:Hzero; [reflexivity|].
  apply orb_false_elim in Hzero. destruct Hzero as [Hrate _].
  apply Z.eqb_neq in Hrate.
  assert (Hr32 : 0 <= rate < 2 ^ 32)
    by (subst rate; unfold Number.ToUint32; apply Z.mod_pos_bound; reflexivity).
  rewrite byte_rate_valid;
    [ reflexivity | lia
    | destruct Hch as [H|H]; rewrite H; split; reflexivity || discriminate
    | split; reflexivity || discriminate ].
Qed.

End FlatRoundTrip.

Lemma X13_flat_round_trip_witness :
  exists e,
    exportConcatenatedWavPcm16 Audio.AudioBuffer decode_id render_id
      [silence 2; silence 1; silence 3] options_22050_mono = Ok e /\
    WavInfo.readWavInfo (wavBytes e)
    = Ok (WavInfo.mkWavInfo 1 22050 16 12
            (Number.div (Number.of_Z 12) (Number.of_Z 44100))).
Proof.
  destruct (X13_flat_round_trip Audio.AudioBuffer decode_id render_id
              options_22050_mono [silence 2; silence 1; silence 3]
              [silence 2; silence 1; silence 3] (or_introl eq_refl)
              ltac:(repeat constructor) ltac:(vm_compute; reflexivity))
    as (e & Hexp & Hread).
  exists e. split; [exact Hexp|]. rewrite Hread. vm_compute. reflexivity.
Defined.

(** X14. The first loop of the flat exporter stops at the first file, in
    input order, that fails to decode or render, and the export throws
    that file's exception. *)
Theorem X14_flat_first_failure (Blob : Type)
    (decodeToAudioBuffer : Blob -> result Audio.AudioBuffer)
    (offlineRender : Audio.AudioBuffer -> Number.number
                     -> result Audio.AudioBuffer)
    (options : ExportOptions.t) (pre post : list Blob) (f : Blob)
    (bufs : list Audio.AudioBuffer) (x : exn) :
  Forall2 (fun g b =>
             render_file Blob decodeToAudioBuffer offlineRender options g
             = Ok b) pre bufs ->
  render_file Blob decodeToAudioBuffer offlineRender options f = Throw x ->
  exportConcatenatedWavPcm16 Blob decodeToAudioBuffer offlineRender
    (pre ++ f :: post) options
  = Throw x.
Proof.
  intros Hpre Hf.
  pose proof (collect_files_loop Blob decodeToAudioBuffer offlineRender
                options pre bufs Hpre ([], 0)) as Hloop.
  unfold exportConcatenatedWavPcm16, for_of in *.
  rewrite fold_left_app, Hloop. cbn [fold_left bind fst snd].
  unfold collect_file at 2. rewrite Hf. cbn [bind].
  rewrite for_of_throw. reflexivity.
Qed.

Lemma X14_flat_first_failure_witness :
  exportConcatenatedWavPcm16 (option Audio.AudioBuffer) decode_opt render_id
    [Some (silence 1); None; Some (silence 2)] options_22050_mono
  = Throw DecodeError.
Proof.
  apply (X14_flat_first_failure (option Audio.AudioBuffer) decode_opt
           render_id options_22050_mono [Some (silence 1)]
           [Some (silence 2)] None [silence 1] DecodeError);
    [repeat constructor | reflexivity].
Defined.

(** ** Quantizer: signs *)

Lemma ltb_zero_sign (s : bool) (m : positive) (e : Z) :
  Number.ltb (S754_finite s m e) (Number.of_Z 0) = s.
Proof. destruct s; reflexivity. Qed.

Lemma clamp_keeps_sign (s : bool) (m : positive) (e : Z) :
  exists m' e', clamp (S754_finite s m e) = S754_finite s m' e'.
Proof.
  unfold clamp. destruct s.
  - change (Number.ltb (Number.of_Z 1) (S754_finite true m e)) with false.
    cbv iota. destruct (Number.ltb _ _); eexists; eexists; reflexivity.
  - destruct (Number.ltb (Number.of_Z 1) (S754_finite false m e)).
    + eexists; eexists; reflexivity.
    + change (Number.ltb (S754_finite false m e) (Number.of_Z (-1)))
        with false.
      eexists; eexists; reflexivity.
Qed.

(** X15. [clampInt16] keeps the sign of its argument: a negative number
    gives a value in [[-32768, 0]] and any other number a value in
    [[0, 32767]]; so -32768 arises from negative samples only, and the two
    scale factors, 32768 and 32767, never take a sample out of the int16
    range on either side. *)
Theorem X15_clampInt16_keeps_sign (x : Number.number) :
  is_binary64 x ->
  if Number.ltb x (Number.of_Z 0)
  then -32768 <= clampInt16 x <= 0
  else 0 <= clampInt16 x <= 32767.
Proof.
  intros Hv. destruct x as [s|s| |s m e].
  - destruct s; vm_compute; split; discriminate.
  - destruct s; vm_compute; split; discriminate.
  - vm_compute; split; discriminate.
  - rewrite ltb_zero_sign, (clampInt16_truncate _ Hv).
    destruct (clamp_keeps_sign s m e) as (m' & e' & Hk).
    destruct (clamp_finite s m e Hv) as [H | [H | [H He]]].
    + rewrite H in *. injection Hk as <- _ _. vm_compute.
      split; discriminate.
    + rewrite H in *. injection Hk as <- _ _. vm_compute.
      split; discriminate.
    + rewrite H. destruct (binary64_finite s m e Hv) as [Hm53 _].
      unfold scaled. rewrite ltb_zero_sign. destruct s.
      * change (Number.of_Z 32768)
          with (S754_finite false 4503599627370496 (-37)).
        pose proof (truncate_mul_bound true m 4503599627370496 e (-37) 32768
                      Hm53 He ltac:(lia) ltac:(lia) ltac:(reflexivity)) as Hb.
        cbv beta iota zeta in Hb. lia.
      * change (Number.of_Z 32767)
          with (S754_finite false 9006924376834048 (-38)).
        pose proof (truncate_mul_bound false m 9006924376834048 e (-38) 32767
                      Hm53 He ltac:(lia) ltac:(lia) ltac:(reflexivity)) as Hb.
        cbv beta iota zeta in Hb. lia.
Qed.

Lemma X15_clampInt16_keeps_sign_witness :
  -32768 <= clampInt16 (Number.div (Number.of_Z (-1)) (Number.of_Z 4)) <= 0.
Proof.
  exact (X15_clampInt16_keeps_sign
           (Number.div (Number.of_Z (-1)) (Number.of_Z 4)) eq_refl).
Defined.

(** ** Data chunk: the samples *)

Lemma samples_of_pcm_bytes (pcm : Audio.Int16Array) :
  Forall int16 pcm -> samples_of_bytes (pcm_bytes pcm) = pcm.
Proof.
  induction 1 as [|v pcm Hv _ IH]; [reflexivity|].
  unfold pcm_bytes in *. cbn [flat_map].
  change (le_split 2 v) with [byte.of_Z v; byte.of_Z (Z.shiftr v 8)].
  cbn [app samples_of_bytes]. rewrite IH. f_equal.
  change [byte.of_Z v; byte.of_Z (Z.shiftr v 8)] with (le_split 2 v).
  rewrite le_combine_split.
  unfold Audio.ToInt16, int16 in *.
  change (2 ^ 15) with 32768 in *. change (Z.of_nat 2 * 8) with 16.
  change (2 ^ 16) with 65536.
  Z.to_euclidean_division_equations; lia.
Qed.

(** X16. The samples survive the data chunk: [buildDataChunk] returns
    the tag, the byte count and two bytes per sample, and reading the bytes
    after the 8-byte header two by two, least significant byte first, as
    signed 16-bit integers gives back the samples of the [Int16Array]. *)
Theorem X16_data_chunk_round_trip (pcm : Audio.Int16Array) :
  Forall int16 pcm ->
  exists chunk,
    buildDataChunk pcm = Ok chunk /\
    len chunk = 8 + 2 * Z.of_nat (Datatypes.length pcm) /\
    firstn 4 chunk = char_codes "data" /\
    declared_size chunk = (2 * Z.of_nat (Datatypes.length pcm)) mod 2 ^ 32 /\
    samples_of_bytes (body chunk) = pcm.
Proof.
  intros Hpcm. eexists. split; [apply buildDataChunk_eq|].
  split.
  { unfold len. rewrite !length_app, length_le_split, pcm_bytes_length.
    change (Datatypes.length (char_codes "data")) with 4%nat. lia. }
  split; [reflexivity|].
  split.
  { rewrite declared_size_eq by reflexivity.
    rewrite pcm_bytes_length. f_equal. lia. }
  rewrite body_eq by reflexivity. now apply samples_of_pcm_bytes.
Qed.

Lemma X16_data_chunk_round_trip_witness :
  exists chunk,
    buildDataChunk [-32768; 0; 32767] = Ok chunk /\
    samples_of_bytes (body chunk) = [-32768; 0; 32767].
Proof.
  destruct (X16_data_chunk_round_trip [-32768; 0; 32767])
    as (chunk & Hb & _ & _ & _ & Hs).
  - repeat constructor; vm_compute; congruence.
  - exists chunk. split; [exact Hb | exact Hs].
Defined.

(** ** The TNGE text *)

Import Text.

Lemma char_codes_append (a b : String.string) :
  char_codes (String.append a b) = char_codes a ++ char_codes b.
Proof.
  unfold char_codes, String.list_byte_of_string.
  induction a as [|c a IH]; [reflexivity|].
  cbn [String.append String.list_ascii_of_string map app]. now rewrite IH.
Qed.

Lemma char_codes_length (s : String.string) :
  Datatypes.length (char_codes s) = String.length s.
Proof.
  unfold char_codes, String.list_byte_of_string.
  induction s as [|c s IH]; [reflexivity|].
  cbn [String.list_ascii_of_string map Datatypes.length String.length].
  now rewrite IH.
Qed.

Lemma ascii_text_append (a b : String.string) :
  ascii_text a -> ascii_text b -> ascii_text (String.append a b).
Proof.
  unfold ascii_text. intros Ha Hb. rewrite char_codes_append.
  apply Forall_app. now split.
Qed.

Ltac literal :=
  unfold ascii_text; repeat constructor; vm_compute; congruence.

Lemma ascii_text_uint (d : Decimal.uint) :
  ascii_text (DecimalString.NilEmpty.string_of_uint d).
Proof.
  induction d; cbn [DecimalString.NilEmpty.string_of_uint];
    try (apply (ascii_text_append (String.String _ String.EmptyString) _);
         [literal | assumption]).
  constructor.
Qed.

Lemma ascii_text_int (z : Z) : ascii_text (json_int z).
Proof.
  unfold json_int, DecimalString.NilZero.string_of_int.
  destruct (Z.to_int z) as [d|d].
  - unfold DecimalString.NilZero.string_of_uint.
    destruct d; try apply ascii_text_uint. literal.
  - apply (ascii_text_append "-" _); [literal|].
    unfold DecimalString.NilZero.string_of_uint.
    destruct d; try apply ascii_text_uint. literal.
Qed.

Lemma ascii_text_string (s : String.string) :
  ascii_text s -> ascii_text (json_string s).
Proof.
  intros Hs. unfold json_string.
  apply ascii_text_append; [literal|].
  apply ascii_text_append; [assumption | literal].
Qed.

Lemma ascii_text_member (key value : String.string) :
  ascii_text key -> ascii_text value -> ascii_text (json_member key value).
Proof.
  intros Hk Hv. unfold json_member.
  apply ascii_text_append; [now apply ascii_text_string|].
  apply ascii_text_append; [literal | assumption].
Qed.

Lemma ascii_text_join (parts : list String.string) :
  Forall ascii_text parts -> ascii_text (json_join parts).
Proof.
  induction 1 as [|p parts Hp Hparts IH]; [constructor|].
  cbn [json_join]. destruct parts as [|q parts]; [assumption|].
  apply ascii_text_append; [assumption|].
  apply ascii_text_append; [literal | assumption].
Qed.

Lemma ascii_text_object (members : list String.string) :
  Forall ascii_text members -> ascii_text (json_object members).
Proof.
  intros H. unfold json_object.
  apply ascii_text_append; [literal|].
  apply ascii_text_append; [now apply ascii_text_join | literal].
Qed.

Lemma ascii_text_array (elements : list String.string) :
  Forall ascii_text elements -> ascii_text (json_array elements).
Proof.
  intros H. unfold json_array.
  apply ascii_text_append; [literal|].
  apply ascii_text_append; [now apply ascii_text_join | literal].
Qed.

Lemma ascii_text_region (r : RegionMapper.AcDryRegion) :
  ascii_text (json_region r).
Proof.
  unfold json_region. apply ascii_text_object.
  repeat (apply Forall_cons;
          [apply ascii_text_member; [literal | apply ascii_text_int]|]).
  apply Forall_nil.
Qed.

Lemma ascii_text_tnge (regions : list RegionMapper.AcDryRegion) :
  ascii_text (tnge_json regions).
Proof.
  unfold tnge_json. cbv zeta. apply ascii_text_object.
  repeat (apply Forall_cons;
          [apply ascii_text_member;
           [literal | first [apply ascii_text_int
                            | apply ascii_text_string; literal]]|]).
  apply Forall_cons; [|apply Forall_nil].
  apply ascii_text_member; [literal|].
  apply ascii_text_array, Forall_map, Forall_forall.
  intros r _. apply ascii_text_region.
Qed.

(** X17. The TNGE payload is a NUL-terminated ASCII string: whatever the
    regions, every byte of the JSON text is a printable ASCII character
    (so the text has one byte per character and holds no zero byte), and
    the one zero byte is the terminator that ends the payload. *)
Theorem X17_tnge_json_is_ascii (regions : list RegionMapper.AcDryRegion) :
  Forall printable (removelast (tngeJson regions)) /\
  last (tngeJson regions) Byte.x01 = Byte.x00 /\
  Datatypes.length (tngeJson regions)
  = S (String.length (tnge_json regions)).
Proof.
  unfold tngeJson.
  split; [rewrite removelast_last; apply ascii_text_tnge|].
  split; [apply last_last|].
  rewrite length_app, char_codes_length. cbn [Datatypes.length]. lia.
Qed.

(** ** The regions of a kit *)

Lemma le_sorted_nth (l : list Z) :
  StronglySorted Z.le l ->
  forall i j, (i <= j < Datatypes.length l)%nat -> nth i l 0 <= nth j l 0.
Proof.
  induction 1 as [|a l Hs IH Hall]; intros i j Hij.
  - cbn in Hij. lia.
  - destruct j as [|j].
    + replace i with 0%nat by lia. lia.
    + cbn [Datatypes.length] in Hij. destruct i as [|i]; cbn [nth].
      * rewrite Forall_forall in Hall. apply Hall, nth_In. lia.
      * apply IH. lia.
Qed.

Lemma midpoint_between_le (p c : Z) : p <= c -> p <= (p + c + 1) / 2 <= c.
Proof. intros H. Z.to_euclidean_division_equations. lia. Qed.

(** For notes in non-decreasing order, each note lies between its two
    boundaries. *)
Lemma boundaries_around_note (notes : list Z) (i : nat) :
  StronglySorted Z.le notes ->
  Forall (fun a => 0 <= a <= 127) notes ->
  (i < Datatypes.length notes)%nat ->
  0 <= nth i (boundaries notes) 0 <= nth i notes 0 /\
  nth i notes 0 <= nth (S i) (boundaries notes) 0 <= 127.
Proof.
  intros Hs Hmidi Hi.
  assert (Hne : notes <> []) by (intros ->; cbn in Hi; lia).
  assert (Hrange : forall k, (k < Datatypes.length notes)%nat ->
                     0 <= nth k notes 0 <= 127).
  { intros k Hk. rewrite Forall_forall in Hmidi. apply Hmidi, nth_In, Hk. }
  pose proof (Hrange i Hi) as Hni.
  split.
  - destruct i as [|i].
    + rewrite boundaries_first. lia.
    + rewrite boundaries_mid by lia. unfold midpoint_at.
      replace (S i - 1)%nat with i by lia.
      pose proof (le_sorted_nth notes Hs i (S i) ltac:(lia)) as Hle.
      pose proof (midpoint_between_le _ _ Hle).
      pose proof (Hrange i ltac:(lia)). lia.
  - destruct (Nat.eq_dec (S i) (Datatypes.length notes)) as [E|E].
    + rewrite E, boundaries_last by assumption. lia.
    + rewrite boundaries_mid by lia. unfold midpoint_at.
      replace (S i - 1)%nat with i by lia.
      pose proof (le_sorted_nth notes Hs i (S i) ltac:(lia)) as Hle.
      pose proof (midpoint_between_le _ _ Hle).
      pose proof (Hrange (S i) ltac:(lia)). lia.
Qed.

Lemma fold_right_add_app (l1 l2 : list Z) :
  fold_right Z.add 0 (l1 ++ l2)
  = fold_right Z.add 0 l1 + fold_right Z.add 0 l2.
Proof.
  induction l1 as [|a l1 IH]; [reflexivity|].
  cbn [app fold_right]. rewrite IH. lia.
Qed.

Lemma frame_offset_firstn (frames : list Z) (k : nat) :
  (k <= Datatypes.length frames)%nat ->
  frame_offset frames k = fold_right Z.add 0 (firstn k frames).
Proof.
  induction k as [|k IH]; intros Hk; [reflexivity|].
  cbn [frame_offset]. rewrite IH by lia.
  rewrite (firstn_S_nth_error frames k (nth k frames 0))
    by (apply nth_error_nth'; lia).
  rewrite fold_right_add_app. cbn [fold_right]. lia.
Qed.

Section KitRegions.

Variable Blob : Type.
Variable decodeToAudioBuffer : Blob -> result Audio.AudioBuffer.
Variable offlineRender :
  Audio.AudioBuffer -> Number.number -> result Audio.AudioBuffer.
Variable options : ExportOptions.t.

(** What the first loop returns, in terms of the items it kept. *)
Lemma collect_shape (items : list (item Blob)) (st : collected) :
  collect Blob decodeToAudioBuffer offlineRender items options = Ok st ->
  exists pairs,
    map fst pairs = sort_by_note items /\
    st = mkCollected (map snd (kept pairs))
           (map (fun p => note (fst p)) (kept pairs))
           (map frames_of (kept pairs))
           (fold_right Z.add 0 (map frames_of (kept pairs))).
Proof.
  intros Hcollect. unfold collect in Hcollect. cbv zeta in Hcollect.
  destruct (collect_inv Blob decodeToAudioBuffer offlineRender options
              _ _ _ Hcollect) as [bufs Hall].
  destruct (Forall2_combine _ _ _ Hall) as [Hrender Hfst].
  pose proof (collect_loop Blob decodeToAudioBuffer offlineRender options
                _ Hrender (mkCollected [] [] [] 0)) as Hloop.
  rewrite Hfst, Hcollect in Hloop. injection Hloop as ->.
  exists (combine (sort_by_note items) bufs). split; [exact Hfst|].
  reflexivity.
Qed.

(** X19. The regions of every kit are well formed.  Whatever the order
    of the items and also when several items share a note, if the notes
    are MIDI notes and the first loop ends normally, the kit has one
    region per kept item; the key range of each region lies in [[0, 127]]
    and holds the region's root note; the first range starts at key 0, the
    last ends at key 127 and each range ends on the key the next one
    starts on; the frame ranges are not empty, follow one another from
    frame 0, and the last ends at [totalFrames]. *)
Theorem X19_kit_regions_well_formed (items : list (item Blob))
    (st : collected) :
  collect Blob decodeToAudioBuffer offlineRender items options = Ok st ->
  Forall (fun it => 0 <= note it <= 127) items ->
  let rs := kit_regions st in
  let r i := nth i rs no_region in
  let n := Datatypes.length (notes st) in
  Datatypes.length rs = n /\
  (forall i, (i < n)%nat ->
     sound_rootnote (r i) = nth i (notes st) 0 /\
     0 <= sample_lokey (r i) <= sound_rootnote (r i) /\
     sound_rootnote (r i) <= sample_hikey (r i) <= 127 /\
     sample_end (r i) = sample_start (r i) + nth i (frameLengths st) 0 /\
     sample_start (r i) < sample_end (r i)) /\
  (forall i, (S i < n)%nat ->
     sample_hikey (r i) = sample_lokey (r (S i)) /\
     sample_end (r i) = sample_start (r (S i))) /\
  ((0 < n)%nat ->
   sample_lokey (r 0%nat) = 0 /\ sample_start (r 0%nat) = 0 /\
   sample_hikey (r (n - 1)%nat) = 127 /\
   sample_end (r (n - 1)%nat) = totalFrames st).
Proof.
  intros Hcollect Hmidi rs r n.
  destruct (collect_shape items st Hcollect) as (pairs & Hfst & ->).
  subst rs r n. unfold kit_regions.
  cbn [notes frameLengths totalFrames].
  set (ns := map (fun p => note (fst p)) (kept pairs)).
  set (fs := map frames_of (kept pairs)).
  assert (Hlen : Datatypes.length fs = Datatypes.length ns)
    by (subst fs ns; now rewrite !length_map).
  assert (Hpos : forall i, (i < Datatypes.length ns)%nat -> 0 < nth i fs 0).
  { intros i Hi. apply Forall_nth_positive; [apply kept_positive | lia]. }
  assert (Hsorted : StronglySorted Z.le ns).
  { apply kept_notes_sorted. rewrite Hfst.
    apply sorted_map_note, sort_by_note_sorted. }
  assert (Hrange : Forall (fun a => 0 <= a <= 127) ns).
  { apply Forall_forall. intros a Ha.
    apply kept_notes_incl in Ha. rewrite Hfst in Ha.
    apply in_map_iff in Ha. destruct Ha as (it & <- & Hit).
    rewrite Forall_forall in Hmidi. apply Hmidi.
    apply (Permutation_in _ (sort_by_note_perm Blob items) Hit). }
  assert (Hr : forall i, (i < Datatypes.length ns)%nat ->
             nth i (buildAcDryRegions ns fs) no_region
             = region_at ns fs (boundaries ns) i)
    by (intros i Hi; now apply nth_region_positive).
  assert (Hhi : forall i, (i < Datatypes.length ns)%nat ->
             nth (i + 1) (boundaries ns) 127 = nth (S i) (boundaries ns) 0).
  { intros i Hi. replace (i + 1)%nat with (S i) by lia.
    apply nth_indep. rewrite boundaries_length; [lia|].
    intros E. rewrite E in Hi. cbn in Hi. lia. }
  split.
  { rewrite buildAcDryRegions_positive by assumption.
    now rewrite length_map, length_seq. }
  split.
  { intros i Hi. rewrite Hr by assumption. unfold region_at.
    cbn [sound_rootnote sample_lokey sample_hikey sample_start sample_end
         frame_offset].
    rewrite Hhi by assumption.
    pose proof (boundaries_around_note ns i Hsorted Hrange Hi).
    pose proof (Hpos i Hi). repeat split; lia. }
  split.
  { intros i Hi. rewrite !Hr by lia. unfold region_at.
    cbn [sample_lokey sample_hikey sample_start sample_end].
    rewrite Hhi by lia. split; reflexivity. }
  intros Hn. rewrite !Hr by lia. unfold region_at.
  cbn [sample_lokey sample_hikey sample_start sample_end].
  rewrite Hhi by lia.
  replace (S (Datatypes.length ns - 1)) with (Datatypes.length ns) by lia.
  split; [apply boundaries_first|]. split; [reflexivity|].
  split.
  { apply boundaries_last. intros E. rewrite E in Hn. cbn in Hn. lia. }
  rewrite <- Hlen, frame_offset_firstn, firstn_all by lia. reflexivity.
Qed.

End KitRegions.

Lemma X19_kit_regions_well_formed_witness :
  exists st,
    collect Audio.AudioBuffer decode_id render_id
      [mkItem 67 (silence 2); mkItem 60 (silence 1); mkItem 60 (silence 3)]
      options_22050_mono = Ok st /\
    map (fun r => (sample_lokey r, sample_hikey r)) (kit_regions st)
    = [(0, 60); (60, 64); (64, 127)] /\
    Datatypes.length (kit_regions st) = Datatypes.length (notes st).
Proof.
  assert (H : collect Audio.AudioBuffer decode_id render_id
                [mkItem 67 (silence 2); mkItem 60 (silence 1);
                 mkItem 60 (silence 3)] options_22050_mono
              = Ok (mkCollected [silence 1; silence 3; silence 2]
                      [60; 60; 67] [1; 3; 2] 6))
    by reflexivity.
  pose proof (X19_kit_regions_well_formed Audio.AudioBuffer decode_id
                render_id options_22050_mono _ _ H
                ltac:(repeat constructor; cbn; lia)) as (Hlen & _).
  eexists. split; [exact H|]. split; [reflexivity | exact Hlen].
Defined.

(** ** The two ASCII writers *)

Lemma store_length {A : Type} (arr : list A) (i : Z) (v : A) :
  Datatypes.length (store arr i v) = Datatypes.length arr.
Proof.
  unfold store.
  destruct ((0 <=? i) && (i <? Z.of_nat (Datatypes.length arr))) eqn:E;
    [|reflexivity].
  apply andb_prop in E. destruct E as [H0 H1].
  apply Z.leb_le in H0. apply Z.ltb_lt in H1.
  rewrite length_app, length_firstn. cbn [Datatypes.length].
  rewrite length_skipn. lia.
Qed.

Lemma store_outside {A : Type} (arr : list A) (i : Z) (v : A) :
  i < 0 \/ Z.of_nat (Datatypes.length arr) <= i -> store arr i v = arr.
Proof.
  intros H. unfold store.
  destruct ((0 <=? i) && (i <? Z.of_nat (Datatypes.length arr))) eqn:E;
    [|reflexivity].
  apply andb_prop in E. destruct E as [H0 H1].
  apply Z.leb_le in H0. apply Z.ltb_lt in H1. lia.
Qed.

Lemma set_at_length {A : Type} (target source result : list A) (off : Z) :
  set_at target source off = Ok result ->
  Datatypes.length result = Datatypes.length target.
Proof.
  unfold set_at.
  destruct ((0 <=? off) && _) eqn:E; [|discriminate].
  apply andb_prop in E. destruct E as [H0 H1].
  apply Z.leb_le in H0, H1. intros [= <-].
  rewrite !length_app, length_firstn, length_skipn. lia.
Qed.

(** How far the loop of [writeAscii] gets. *)
Lemma writeAscii_steps (bs : list byte) (off : Z) (view : list byte) :
  forall k,
    match Audio.for_range_r 0 k
            (fun i v => setUint8 v (off + Z.of_nat i)
                          (byte.unsigned (nth i bs Byte.x00))) view with
    | Ok v =>
        Datatypes.length v = Datatypes.length view /\
        (k = 0%nat \/ (0 <= off /\ off + Z.of_nat k <= len view))
    | Throw e =>
        e = RangeError /\ k <> 0%nat /\
        (off < 0 \/ len view < off + Z.of_nat k)
    end.
Proof.
  induction k as [|k IH]; [split; [reflexivity | now left]|].
  rewrite for_range_r_S. cbn [Nat.add].
  destruct (Audio.for_range_r 0 k _ view) as [v|e]; cbn [bind].
  - destruct IH as [Hlen Hk]. unfold setUint8, set_at.
    change (Datatypes.length (le_split 1 _)) with 1%nat.
    rewrite Hlen. fold (len view).
    destruct ((0 <=? off + Z.of_nat k)
              && (off + Z.of_nat k + Z.of_nat 1 <=? len view)) eqn:E.
    + apply andb_prop in E. destruct E as [H0 H1].
      apply Z.leb_le in H0, H1. split.
      * rewrite !length_app, length_firstn, length_skipn.
        change (Datatypes.length (le_split 1 _)) with 1%nat.
        unfold len in H1. lia.
      * right. lia.
    + split; [reflexivity|]. split; [lia|].
      apply andb_false_iff in E. destruct E as [E|E];
        [apply Z.leb_gt in E | apply Z.leb_gt in E]; lia.
  - destruct IH as (-> & Hk & Hout). split; [reflexivity|].
    split; [lia|]. lia.
Qed.

(** X20. The two ASCII writers differ outside the array.  The
    typed-array writer [writeAsciiTo] never changes the length of the
    array and never throws: characters that fall outside are dropped, and
    a string wholly outside leaves the array as it was.  The [DataView]
    writer [writeAscii] throws a [RangeError] as soon as a character of a
    non-empty string falls outside the view.  When the string fits, the
    two write the same bytes. *)
Theorem X20_ascii_writers (arr : list byte) (off : Z) (s : String.string) :
  let n := Z.of_nat (Datatypes.length (char_codes s)) in
  Datatypes.length (writeAsciiTo arr off s) = Datatypes.length arr /\
  (len arr <= off \/ off + n <= 0 -> writeAsciiTo arr off s = arr) /\
  (0 < n -> off < 0 \/ len arr < off + n ->
   writeAscii arr off s = Throw RangeError) /\
  (0 <= off -> off + n <= len arr ->
   writeAscii arr off s = Ok (writeAsciiTo arr off s)).
Proof.
  intros n. subst n. split; [|split; [|split]].
  - unfold writeAsciiTo.
    induction (Datatypes.length (char_codes s)) as [|k IH]; [reflexivity|].
    rewrite for_range_S, store_length. exact IH.
  - intros Hout. unfold writeAsciiTo.
    assert (H : forall k, (k <= Datatypes.length (char_codes s))%nat ->
              for_range 0 k
                (fun i a => store a (off + Z.of_nat i)
                              (nth i (char_codes s) Byte.x00)) arr = arr).
    { induction k as [|k IH]; intros Hk; [reflexivity|].
      rewrite for_range_S, IH by lia. cbn [Nat.add].
      apply store_outside. unfold len in Hout. lia. }
    apply H. lia.
  - intros Hn Hout. unfold writeAscii.
    pose proof (writeAscii_steps (char_codes s) off arr
                  (Datatypes.length (char_codes s))) as H.
    destruct (Audio.for_range_r 0 _ _ arr) as [v|e].
    + destruct H as [_ [H | H]]; lia.
    + destruct H as [-> _]. reflexivity.
  - intros H0 Hfit.
    set (k := Datatypes.length (char_codes s)) in *.
    assert (Hsplit : arr = firstn (Z.to_nat off) arr
                           ++ firstn k (skipn (Z.to_nat off) arr)
                           ++ skipn k (skipn (Z.to_nat off) arr))
      by (now rewrite !firstn_skipn).
    assert (Hoff : off = Z.of_nat (Datatypes.length
                                     (firstn (Z.to_nat off) arr)))
      by (rewrite length_firstn; unfold len in Hfit; lia).
    assert (Hold : Datatypes.length (firstn k (skipn (Z.to_nat off) arr)) = k)
      by (rewrite length_firstn, length_skipn; unfold len in Hfit; lia).
    rewrite (writeAscii_at arr _ _ _ off s Hsplit Hoff Hold).
    rewrite (writeAsciiTo_at arr _ _ _ off s Hsplit Hoff Hold).
    reflexivity.
Qed.

Lemma X20_ascii_writers_witness :
  writeAscii (zeros 4) 2 "RIFF" = Throw RangeError /\
  writeAsciiTo (zeros 4) 2 "RIFF" = zeros 2 ++ char_codes "RI".
Proof.
  destruct (X20_ascii_writers (zeros 4) 2 "RIFF") as (_ & _ & Hthrow & _).
  split; [|reflexivity].
  apply Hthrow; [reflexivity | right; reflexivity].
Defined.

(** ** The RIFF size field *)

Import SizeField.

Section SizeFieldFacts.

Variables v1 v2 : list byte.
Hypothesis Hsame : same_but_size_field v1 v2.

Lemma bytes_at_same (off : Z) (n : nat) :
  8 <= off -> WavInfo.bytes_at v1 off n = WavInfo.bytes_at v2 off n.
Proof.
  intros Hoff. destruct Hsame as (_ & _ & Hrest). unfold WavInfo.bytes_at.
  replace (Z.to_nat off) with (Z.to_nat off - 8 + 8)%nat by lia.
  rewrite <- !skipn_skipn, Hrest. reflexivity.
Qed.

Lemma chunk_at_same (off : Z) :
  8 <= off -> WavInfo.chunk_at v1 off = WavInfo.chunk_at v2 off.
Proof.
  intros Hoff. pose proof Hsame as (Hlen & _ & _).
  unfold WavInfo.chunk_at, WavInfo.size_at, WavInfo.codes_at.
  rewrite Hlen, !bytes_at_same by lia. reflexivity.
Qed.

Lemma walk_same (n : nat) :
  forall off, 8 <= off ->
    (Z.to_nat (Z.of_nat (Datatypes.length v1) - off) <= n)%nat ->
    WavInfo.walk v1 off = WavInfo.walk v2 off.
Proof.
  pose proof Hsame as (Hlen & _ & _).
  induction n as [|n IH]; intros off Hoff Hn;
    rewrite (walk_unfold v1 off), (walk_unfold v2 off),
      <- (chunk_at_same off Hoff);
    destruct (WavInfo.chunk_at v1 off) as [c|] eqn:Hc; try reflexivity.
  - apply chunk_at_offset in Hc. unfold WavInfo.next_offset in Hc. lia.
  - pose proof (chunk_at_offset _ _ _ Hc) as (_ & Hnext & _ & Hend & Hsz).
    f_equal.
    destruct (Z_le_gt_dec (WavInfo.next_offset c)
                (Z.of_nat (Datatypes.length v1))).
    + apply IH; lia.
    + rewrite (walk_unfold v1 (WavInfo.next_offset c)),
        (walk_unfold v2 (WavInfo.next_offset c)),
        <- (chunk_at_same (WavInfo.next_offset c)) by lia.
      assert (Hnone : WavInfo.chunk_at v1 (WavInfo.next_offset c) = None).
      { unfold WavInfo.chunk_at.
        destruct (WavInfo.next_offset c + 8
                  <=? Z.of_nat (Datatypes.length v1)) eqn:E;
          [apply Z.leb_le in E; lia|].
        now rewrite andb_false_r. }
      now rewrite Hnone.
Qed.

Lemma apply_chunk_same (st : WavInfo.scan_state) (c : WavInfo.chunk) :
  8 <= WavInfo.chunkDataOffset c ->
  WavInfo.apply_chunk v1 st c = WavInfo.apply_chunk v2 st c.
Proof.
  intros Hc. unfold WavInfo.apply_chunk, WavInfo.fmt_fields.
  rewrite !bytes_at_same by lia. reflexivity.
Qed.

Lemma scan_result_same : WavInfo.scan_result v1 = WavInfo.scan_result v2.
Proof.
  unfold WavInfo.scan_result.
  rewrite <- (walk_same (Z.to_nat (Z.of_nat (Datatypes.length v1) - 12)) 12)
    by lia.
  pose proof (walk_12_in_buffer v1) as Hw.
  generalize WavInfo.init_state.
  induction Hw as [|c cs (Hcdo & _) _ IH]; intros st; [reflexivity|].
  cbn [fold_left]. rewrite apply_chunk_same by lia. apply IH.
Qed.

End SizeFieldFacts.

(** X21. [readWavInfo] never looks at the RIFF size field: two buffers
    of the same length that differ at most in bytes 4 to 7 give the same
    result, whether that is the parsed information or one of the errors.
    So a file whose size field is wrong, or was never filled in, parses
    like the correct one. *)
Theorem X21_riff_size_field_is_ignored (v1 v2 : list byte) :
  same_but_size_field v1 v2 ->
  WavInfo.readWavInfo v1 = WavInfo.readWavInfo v2.
Proof.
  intros Hsame. pose proof Hsame as (Hlen & Hhead & Hrest).
  destruct (Z_lt_ge_dec (Z.of_nat (Datatypes.length v1)) 12) as [Hlt|Hge].
  - unfold WavInfo.readWavInfo. rewrite <- Hlen.
    destruct (Z.of_nat (Datatypes.length v1) <? 12) eqn:E;
      [reflexivity | apply Z.ltb_ge in E; lia].
  - rewrite !readWavInfo_unfold by lia.
    rewrite (scan_result_same v1 v2 Hsame).
    assert (H0 : WavInfo.codes_at v1 0 = WavInfo.codes_at v2 0).
    { unfold WavInfo.codes_at, WavInfo.bytes_at. cbn [Z.to_nat skipn].
      now rewrite Hhead. }
    assert (H8 : WavInfo.codes_at v1 8 = WavInfo.codes_at v2 8).
    { unfold WavInfo.codes_at.
      now rewrite (bytes_at_same v1 v2 Hsame) by lia. }
    rewrite H0, H8. reflexivity.
Qed.

Lemma X21_riff_size_field_is_ignored_witness :
  WavInfo.readWavInfo (with_size_field WavInfo.two_fmt_wav 0)
  = WavInfo.readWavInfo WavInfo.two_fmt_wav.
Proof.
  apply X21_riff_size_field_is_ignored.
  repeat split; reflexivity.
Defined.

(** ** Input order and resampling *)

Section OrderFacts.

Variable Blob : Type.
Variable decodeToAudioBuffer : Blob -> result Audio.AudioBuffer.
Variable offlineRender :
  Audio.AudioBuffer -> Number.number -> result Audio.AudioBuffer.
Variable options : ExportOptions.t.

(** Items in note order with no note twice are in one possible order. *)
Lemma sorted_perm_unique (l1 : list (item Blob)) :
  forall l2,
    StronglySorted note_le l1 -> StronglySorted note_le l2 ->
    Permutation l1 l2 -> NoDup (map note l1) -> l1 = l2.
Proof.
  induction l1 as [|a l1 IH]; intros l2 Hs1 Hs2 Hperm Hnd.
  - apply Permutation_nil in Hperm. now subst.
  - destruct l2 as [|b l2];
      [apply Permutation_sym, Permutation_nil in Hperm; discriminate|].
    inversion Hs1 as [|? ? Hs1' Hall1]; subst.
    inversion Hs2 as [|? ? Hs2' Hall2]; subst.
    cbn [map] in Hnd. inversion Hnd as [|? ? Hnotin Hnd']; subst.
    assert (Hab : a = b).
    { assert (Ha : In a (b :: l2))
        by (apply (Permutation_in _ Hperm); now left).
      assert (Hb : In b (a :: l1))
        by (apply (Permutation_in _ (Permutation_sym Hperm)); now left).
      destruct Ha as [Ha | Ha]; [now subst|].
      destruct Hb as [Hb | Hb]; [exact Hb|].
      exfalso. rewrite Forall_forall in Hall1, Hall2.
      specialize (Hall1 b Hb). specialize (Hall2 a Ha).
      unfold note_le in Hall1, Hall2.
      apply Hnotin. replace (note a) with (note b) by lia.
      now apply in_map. }
    subst b. f_equal.
    apply IH; try assumption.
    now apply Permutation_cons_inv in Hperm.
Qed.

(** X23. The kit does not depend on the order in which the items are
    given, as long as no two items share a note: any rearrangement of the
    items is sorted to the same list, so the export returns the same
    result, bytes and duration or exception alike. *)
Theorem X23_kit_ignores_input_order (items1 items2 : list (item Blob)) :
  Permutation items1 items2 ->
  NoDup (map note items1) ->
  sort_by_note items1 = sort_by_note items2 /\
  exportAcDryKitWavPcm16 Blob decodeToAudioBuffer offlineRender items1
    options
  = exportAcDryKitWavPcm16 Blob decodeToAudioBuffer offlineRender items2
      options.
Proof.
  intros Hperm Hnd.
  assert (Hsort : sort_by_note items1 = sort_by_note items2).
  { apply sorted_perm_unique; try apply sort_by_note_sorted.
    - apply perm_trans with items1; [apply sort_by_note_perm|].
      apply perm_trans with items2; [exact Hperm|].
      apply Permutation_sym, sort_by_note_perm.
    - apply (Permutation_NoDup
               (Permutation_map note
                  (Permutation_sym (sort_by_note_perm Blob items1))) Hnd). }
  split; [exact Hsort|].
  unfold exportAcDryKitWavPcm16, collect. cbv zeta. now rewrite Hsort.
Qed.

(** X22. A file already at the target rate is not resampled: its buffer
    in the export is the remix of the decoded buffer, whatever the
    offline renderer would do, and for a decoded buffer of at least one
    frame and one channel and a target of 1 or 2 channels it has the
    frame count and the sample rate of the decoded file. *)
Theorem X22_no_resampling_at_target_rate (it : item Blob)
    (decoded : Audio.AudioBuffer) :
  decodeToAudioBuffer (file it) = Ok decoded ->
  Number.eqb (Audio.sampleRate decoded) (ExportOptions.sampleRate options)
  = true ->
  Audio.well_formed decoded ->
  ExportOptions.channels options = 1 \/ ExportOptions.channels options = 2 ->
  render Blob decodeToAudioBuffer offlineRender options it
  = Audio.toTargetChannels decoded (ExportOptions.channels options) /\
  exists b,
    render Blob decodeToAudioBuffer offlineRender options it = Ok b /\
    Audio.length b = Audio.length decoded /\
    Audio.sampleRate b = Audio.sampleRate decoded.
Proof.
  intros Hdec Hrate Hwf Hch.
  assert (Hr : render Blob decodeToAudioBuffer offlineRender options it
               = Audio.toTargetChannels decoded
                   (ExportOptions.channels options)).
  { unfold render, resample. rewrite Hdec. cbn [bind].
    now rewrite Hrate. }
  split; [exact Hr|]. rewrite Hr.
  destruct Hch as [-> | ->].
  - rewrite (toTargetChannels_mono decoded Hwf).
    eexists. split; [reflexivity|]. split; reflexivity.
  - pose proof Hwf as (_ & Hne & _).
    destruct (Audio.channelData decoded) as [|c0 [|c1 rest]] eqn:E;
      [congruence | |].
    + rewrite (toTargetChannels_stereo decoded c0 c0 Hwf);
        [| left; now split].
      eexists. split; [reflexivity|]. split; reflexivity.
    + rewrite (toTargetChannels_stereo decoded c0 c1 Hwf);
        [| right; now exists rest].
      eexists. split; [reflexivity|]. split; reflexivity.
Qed.

End OrderFacts.

Lemma X23_kit_ignores_input_order_witness :
  exportAcDryKitWavPcm16 Audio.AudioBuffer decode_id render_id
    [mkItem 67 (silence 2); mkItem 60 (silence 1)] options_22050_mono
  = exportAcDryKitWavPcm16 Audio.AudioBuffer decode_id render_id
      [mkItem 60 (silence 1); mkItem 67 (silence 2)] options_22050_mono.
Proof.
  apply (X23_kit_ignores_input_order Audio.AudioBuffer decode_id render_id
           options_22050_mono).
  - apply perm_swap.
  - repeat constructor; cbn; intuition discriminate.
Defined.

Lemma X22_no_resampling_at_target_rate_witness :
  exists b,
    render Audio.AudioBuffer decode_id render_id options_22050_mono
      (mkItem 60 (silence 3)) = Ok b /\
    Audio.length b = 3%nat.
Proof.
  destruct (X22_no_resampling_at_target_rate Audio.AudioBuffer decode_id
              render_id options_22050_mono (mkItem 60 (silence 3))
              (silence 3) eq_refl eq_refl
              ltac:(split; [cbn; lia | split; [discriminate | repeat constructor]])
              (or_introl eq_refl))
    as (_ & b & Hb & Hlen & _).
  exists b. split; [exact Hb | exact Hlen].
Defined.

(** ** The app as caller *)

Import App.

Section AppFacts.

Variable Blob : Type.
Variable assigned : Z -> option (AssignedSample Blob).

Lemma sort_by_note_of_sorted (l : list (item Blob)) :
  StronglySorted note_le l -> sort_by_note l = l.
Proof.
  induction 1 as [|a l Hs IH Hall]; [reflexivity|].
  cbn [sort_by_note fold_right]. fold (sort_by_note l). rewrite IH.
  destruct l as [|x l]; [reflexivity|]. cbn [insert_by_note].
  apply Forall_inv in Hall. unfold note_le in Hall.
  destruct (note a <=? note x) eqn:E; [reflexivity|].
  apply Z.leb_gt in E. lia.
Qed.

Lemma items_loop (ns : list Z) :
  forall acc,
    fold_left
      (fun items n =>
         match assigned n with
         | Some slot => items ++ [mkItem n (sample_file slot)]
         | None => items
         end) ns acc
    = acc ++ flat_map (fun n => match assigned n with
                                | Some slot => [mkItem n (sample_file slot)]
                                | None => []
                                end) ns.
Proof.
  induction ns as [|n ns IH]; intros acc; cbn [fold_left flat_map].
  - now rewrite app_nil_r.
  - rewrite IH. destruct (assigned n); [now rewrite <- app_assoc|reflexivity].
Qed.

Lemma files_loop (ns : list Z) :
  forall acc,
    fold_left
      (fun files n =>
         match assigned n with
         | Some slot => files ++ [sample_file slot]
         | None => files
         end) ns acc
    = acc ++ flat_map (fun n => match assigned n with
                                | Some slot => [sample_file slot]
                                | None => []
                                end) ns.
Proof.
  induction ns as [|n ns IH]; intros acc; cbn [fold_left flat_map].
  - now rewrite app_nil_r.
  - rewrite IH. destruct (assigned n); [now rewrite <- app_assoc|reflexivity].
Qed.

Lemma sorted_filter (R : Z -> Z -> Prop) (f : Z -> bool) (l : list Z) :
  StronglySorted R l -> StronglySorted R (filter f l).
Proof.
  induction 1 as [|a l Hs IH Hall]; [constructor|].
  cbn [filter]. destruct (f a); [|exact IH].
  constructor; [exact IH|].
  rewrite Forall_forall in *. intros x Hx.
  apply filter_In in Hx. now apply Hall.
Qed.

Lemma ALLOWED_NOTES_sorted : StronglySorted Z.lt ALLOWED_NOTES.
Proof. repeat constructor; lia. Qed.

(** X24. The items the app hands to the exporters are in order already.
    Whatever samples are assigned, the kit items are the assigned notes of
    C4..C5 in ascending order, each with the file of its slot: their notes
    are distinct MIDI notes, the sort of the kit exporter leaves the list
    as it is, and the files in this order are the list the flat export is
    called with. *)
Theorem X24_app_items_in_note_order :
  let items := kit_items Blob assigned in
  map note items = assigned_notes Blob assigned /\
  StronglySorted Z.lt (map note items) /\
  NoDup (map note items) /\
  Forall (fun it => 0 <= note it <= 127) items /\
  sort_by_note items = items /\
  map file items = flat_files Blob assigned.
Proof.
  intros items. subst items. unfold kit_items, flat_files, assigned_notes.
  rewrite items_loop, files_loop. cbn [app].
  assert (Hnotes : forall ns,
            map note (flat_map (fun n => match assigned n with
                                         | Some slot =>
                                             [mkItem n (sample_file slot)]
                                         | None => []
                                         end) ns)
            = filter (fun n => match assigned n with
                               | Some _ => true
                               | None => false
                               end) ns).
  { induction ns as [|n ns IH]; [reflexivity|].
    cbn [flat_map filter]. rewrite map_app, IH.
    destruct (assigned n); reflexivity. }
  assert (Hsorted : StronglySorted Z.lt
                      (filter (fun n => match assigned n with
                                        | Some _ => true
                                        | None => false
                                        end) ALLOWED_NOTES))
    by apply sorted_filter, ALLOWED_NOTES_sorted.
  split; [apply Hnotes|]. rewrite Hnotes.
  split; [exact Hsorted|].
  split.
  { clear -Hsorted. induction Hsorted as [|a l _ IH Hall]; constructor.
    - intros Hin. rewrite Forall_forall in Hall.
      specialize (Hall a Hin). lia.
    - exact IH. }
  split.
  { apply Forall_forall. intros it Hit.
    assert (Hn : In (note it) ALLOWED_NOTES).
    { apply in_map with (f := note) in Hit. rewrite Hnotes in Hit.
      apply filter_In in Hit. apply Hit. }
    unfold ALLOWED_NOTES in Hn. cbn [In] in Hn.
    repeat (destruct Hn as [<- | Hn]; [lia|]). contradiction. }
  split.
  { apply sort_by_note_of_sorted.
    set (l := flat_map _ ALLOWED_NOTES) in *.
    assert (Hl : StronglySorted Z.lt (map note l))
      by (subst l; now rewrite Hnotes).
    clear -Hl. induction l as [|a l IH]; [constructor|].
    cbn [map] in Hl. inversion Hl as [|? ? Hs Hall]; subst.
    constructor; [now apply IH|].
    rewrite Forall_forall in *. intros x Hx. unfold note_le.
    specialize (Hall (note x) (in_map note _ _ Hx)). lia. }
  generalize ALLOWED_NOTES. intros ns.
  induction ns as [|n ns IH]; [reflexivity|].
  cbn [flat_map]. rewrite map_app, IH.
  destruct (assigned n); reflexivity.
Qed.

End AppFacts.
